(** * Slice SPI datalink (nuttx/drivers/greybus/slice/datalink-spi.c)

    A shallow embedding of the datalink driver: the outbound fragment queue
    filled by [queue_data], the exchange scheduler [setup_exchange], the
    completion callback [txn_finished_cb] with its payload reassembler, and
    the attach callback [attach_cb].

    Bytes are integers in [0, 255]; a pointer that may be NULL is an
    [option]; the handshake lines are booleans holding the line level
    ([true] is high).  The driver is written for a 32-bit target: [size_t]
    arithmetic wraps modulo 2^32. *)

From Stdlib Require Import ZArith List Bool Lia.
From Stdlib Require String.
Import ListNotations.
Local Open Scope Z_scope.

(** ** Constants of the source file *)

Definition SLICE_SPI_MSG_PAYLOAD_SZ : Z := 32.

Definition HDR_BIT_VALID : Z := Z.shiftl 1 7.
Definition HDR_BIT_MORE : Z := Z.shiftl 1 6.
Definition HDR_BIT_RSVD : Z := Z.shiftl 63 0.

(** errno.h *)
Definition E2BIG : Z := 7.
Definition ENOMEM : Z := 12.

(** [size_t] on the target. *)
Definition size_t_modulus : Z := 2 ^ 32.
Definition size_sub (a b : Z) : Z := (a - b) mod size_t_modulus.

(** The payload size as a byte count for list operations. *)
Definition PAYLOAD_SZ : nat := Z.to_nat SLICE_SPI_MSG_PAYLOAD_SZ.

(** ** Data *)

(** struct slice_spi_msg: one wire frame. *)
Record slice_spi_msg : Type := mk_msg {
  hdr_bits : Z;
  data : list Z;
  crc16 : Z
}.

(** The payload array of a frame has exactly SLICE_SPI_MSG_PAYLOAD_SZ bytes. *)
Definition msg_wf (m : slice_spi_msg) : Prop := length (data m) = PAYLOAD_SZ.

(** What [zalloc (sizeof (struct slice_spi_msg))] returns on success, and the
    content of the never-written static [tx_dummy_buf]. *)
Definition zero_msg : slice_spi_msg := mk_msg 0 (repeat 0 PAYLOAD_SZ) 0.
Definition tx_dummy_buf : slice_spi_msg := zero_msg.

Definition hdr_valid (m : slice_spi_msg) : bool :=
  negb (Z.land (hdr_bits m) HDR_BIT_VALID =? 0).
Definition hdr_more (m : slice_spi_msg) : bool :=
  negb (Z.land (hdr_bits m) HDR_BIT_MORE =? 0).

(** struct slice_spi_dl_s.  The handles [dl], [spi] and [cb] carry no data;
    [tx_fifo] is the list of queued packets, head first. *)
Record slice_spi_dl_s : Type := mk_priv {
  tx_fifo : list slice_spi_msg;
  rx_buf : slice_spi_msg;
  tx_buf : option slice_spi_msg;
  rcvd_payload : list Z;
  rcvd_payload_idx : Z
}.

(** The driver instance together with what it drives: the two handshake
    lines, the interrupt line to the base, the SPI controller and the
    network layer's receive callback. *)
Record world : Type := mk_world {
  priv : slice_spi_dl_s;
  gpio_rdy_n : bool;                  (* level of GPIO_SLICE_RDY_N, our output *)
  gpio_wake_n : bool;                 (* level of GPIO_SLICE_WAKE_N, driven by the base *)
  host_int : bool;                    (* last argument of slice_host_int_set *)
  spi_armed : list slice_spi_msg;     (* exchanges handed to the controller, not yet completed *)
  recv_log : list (list Z)            (* buffers passed to cb->recv, oldest first *)
}.

(** ** Memory primitives *)

(** Overwrite [n] cells of [dst] from offset [off] with the first [n] cells
    of [src]. *)
Definition blit (dst : list Z) (off : nat) (src : list Z) (n : nat) : list Z :=
  firstn off dst ++ firstn n src ++ skipn (off + n) dst.

(** [memcpy (&dst[off], src, n)]: defined only when both ranges lie inside
    their arrays; anything else is a memory fault. *)
Definition memcpy (dst : list Z) (off : nat) (src : list Z) (n : nat)
  : option (list Z) :=
  if ((off + n <=? length dst)%nat && (n <=? length src)%nat)%bool
  then Some (blit dst off src n)
  else None.

(** [memset (dst, 0, n)] *)
Definition memset0 (dst : list Z) (n : nat) : option (list Z) :=
  memcpy dst 0 (repeat 0 n) n.

(** ** Field updates *)

Definition set_tx_fifo (q : list slice_spi_msg) (p : slice_spi_dl_s) :=
  mk_priv q (rx_buf p) (tx_buf p) (rcvd_payload p) (rcvd_payload_idx p).
Definition set_rx_buf (m : slice_spi_msg) (p : slice_spi_dl_s) :=
  mk_priv (tx_fifo p) m (tx_buf p) (rcvd_payload p) (rcvd_payload_idx p).
Definition set_tx_buf (b : option slice_spi_msg) (p : slice_spi_dl_s) :=
  mk_priv (tx_fifo p) (rx_buf p) b (rcvd_payload p) (rcvd_payload_idx p).
Definition set_rcvd (buf : list Z) (idx : Z) (p : slice_spi_dl_s) :=
  mk_priv (tx_fifo p) (rx_buf p) (tx_buf p) buf idx.

Definition upd_priv (f : slice_spi_dl_s -> slice_spi_dl_s) (w : world) :=
  mk_world (f (priv w)) (gpio_rdy_n w) (gpio_wake_n w) (host_int w)
           (spi_armed w) (recv_log w).
Definition set_rdy_n (v : bool) (w : world) :=
  mk_world (priv w) v (gpio_wake_n w) (host_int w) (spi_armed w) (recv_log w).
Definition set_wake_n (v : bool) (w : world) :=
  mk_world (priv w) (gpio_rdy_n w) v (host_int w) (spi_armed w) (recv_log w).
Definition set_spi_armed (l : list slice_spi_msg) (w : world) :=
  mk_world (priv w) (gpio_rdy_n w) (gpio_wake_n w) (host_int w) l (recv_log w).

(** ** Collaborators outside the source file *)

(** Modelled from the spec: nuttx/list.h is not part of the sources.  The
    queue is "FIFO, insertion order = transmission order": [list_add]
    appends the node behind the last one, the scheduler takes the head. *)
Definition list_add (fifo : list slice_spi_msg) (node : slice_spi_msg) :=
  fifo ++ [node].

(** Modelled from the spec: [slice_host_int_set], the "data pending" line to
    the peer (set_peer_interrupt).  The model records the level asked for. *)
Definition slice_host_int_set (v : bool) (w : world) : world :=
  mk_world (priv w) (gpio_rdy_n w) (gpio_wake_n w) v (spi_armed w) (recv_log w).

(** Modelled from the spec: [SPI_EXCHANGE], the asynchronous exchange
    primitive.  It arms the controller with a transmit frame; the exchange
    stays outstanding until the controller completes or cancels it. *)
Definition SPI_EXCHANGE (tx : slice_spi_msg) (w : world) : world :=
  set_spi_armed (spi_armed w ++ [tx]) w.

(** Modelled from the spec: [SPI_SLAVE_DMA_CANCEL] cancels whatever exchange
    is outstanding. *)
Definition SPI_SLAVE_DMA_CANCEL (w : world) : world := set_spi_armed [] w.

(** Modelled from the spec: the handshake lines (read_handshake_line,
    write_handshake_line).  Reading a line gives its level; the driver
    only ever writes RDY, the base drives WAKE. *)
Inductive gpio_pin : Type := GPIO_SLICE_RDY_N | GPIO_SLICE_WAKE_N.

Definition gpio_get_value (pin : gpio_pin) (w : world) : bool :=
  match pin with
  | GPIO_SLICE_RDY_N => gpio_rdy_n w
  | GPIO_SLICE_WAKE_N => gpio_wake_n w
  end.

Definition gpio_set_value (pin : gpio_pin) (v : bool) (w : world) : world :=
  match pin with
  | GPIO_SLICE_RDY_N => set_rdy_n v w
  | GPIO_SLICE_WAKE_N => set_wake_n v w
  end.

(** Modelled from the spec: [cb->recv (buf, len)], the delivery callback of
    the network layer; it sees the first [len] bytes of the buffer. *)
Definition cb_recv (buf : list Z) (len : Z) (w : world) : world :=
  mk_world (priv w) (gpio_rdy_n w) (gpio_wake_n w) (host_int w) (spi_armed w)
           (recv_log w ++ [firstn (Z.to_nat len) buf]).

(** ** setup_exchange *)

(** [p != NULL] *)
Definition not_null {A : Type} (p : option A) : bool :=
  match p with Some _ => true | None => false end.

(** The [out:] label: set the base interrupt line from [tx_buf]. *)
Definition setup_exchange_out (w : world) : world :=
  slice_host_int_set (not_null (tx_buf (priv w))) w.

Definition setup_exchange (w : world) : world :=
  if negb (gpio_get_value GPIO_SLICE_RDY_N w) then
    (* Already setup to tranceive packet. Do nothing. *)
    setup_exchange_out w
  else if gpio_get_value GPIO_SLICE_WAKE_N w then
    (* WAKE not asserted *)
    setup_exchange_out w
  else
    match tx_fifo (priv w) with
    | [] =>
        (* RX only *)
        setup_exchange_out
          (gpio_set_value GPIO_SLICE_RDY_N false
             (SPI_EXCHANGE tx_dummy_buf w))
    | packet :: rest =>
        (* RX and TX: the head node is unlinked, its packet becomes tx_buf *)
        setup_exchange_out
          (gpio_set_value GPIO_SLICE_RDY_N false
             (SPI_EXCHANGE packet
                (upd_priv (set_tx_buf (Some packet))
                   (upd_priv (set_tx_fifo rest) w))))
    end.

(** ** attach_cb *)

Definition attach_cb (w : world) (attached : bool) : world :=
  if negb attached then
    upd_priv (set_tx_fifo []) (SPI_SLAVE_DMA_CANCEL w)
  else w.

(** ** wake_isr *)

Definition wake_isr (w : world) : world := setup_exchange w.

(** ** queue_data *)

(** One packet as [queue_data] fills it after [zalloc].  The copy always
    reads from the start of [buf]: the source never advances the pointer.
    It reads MIN (len, 32) bytes, which the caller's buffer has. *)
Definition make_packet (buf : list Z) (len remaining : Z) : slice_spi_msg :=
  let hdr0 := Z.lor (hdr_bits zero_msg) HDR_BIT_VALID in
  let hdr1 := Z.lor hdr0 (if remaining >? SLICE_SPI_MSG_PAYLOAD_SZ
                          then HDR_BIT_MORE else 0) in
  mk_msg hdr1
         (blit (data zero_msg) 0 buf
               (Z.to_nat (Z.min len SLICE_SPI_MSG_PAYLOAD_SZ)))
         0.

(** The [while (remaining > 0)] loop.  [heap] lists the outcomes of the
    allocation calls to come ([true]: the block is granted); an exhausted
    list means no memory is left.  The result is the return code that ends
    the loop (0 when it runs to completion) and the queue at that point. *)
Fixpoint queue_data_loop (heap : list bool) (buf : list Z) (len remaining : Z)
    (fifo : list slice_spi_msg) : Z * list slice_spi_msg :=
  if remaining >? 0 then
    match heap with
    | [] => (- ENOMEM, fifo)                 (* zalloc fails *)
    | false :: _ => (- ENOMEM, fifo)         (* zalloc fails *)
    | true :: [] => (- ENOMEM, fifo)         (* malloc fails, m is freed *)
    | true :: false :: _ => (- ENOMEM, fifo) (* malloc fails, m is freed *)
    | true :: true :: heap' =>
        let m := make_packet buf len remaining in
        queue_data_loop heap' buf len
          (size_sub remaining (Z.min len SLICE_SPI_MSG_PAYLOAD_SZ))
          (list_add fifo m)
    end
  else (0, fifo).

Section Datalink.

(** SLICE_DL_PAYLOAD_MAX_SZ is defined in datalink.h, which is not part of
    the sources: the capacity of the reassembly buffer is a parameter. *)
Variable SLICE_DL_PAYLOAD_MAX_SZ : Z.

(** [buf] is the caller's buffer and [len] its length.  The result is the
    return code and the state the call leaves. *)
Definition queue_data (w : world) (buf : list Z) (heap : list bool)
  : Z * world :=
  let len := Z.of_nat (length buf) in
  if len >? SLICE_DL_PAYLOAD_MAX_SZ then (- E2BIG, w)
  else
    let '(rc, fifo) := queue_data_loop heap buf len len (tx_fifo (priv w)) in
    let w1 := upd_priv (set_tx_fifo fifo) w in
    if rc =? 0 then (0, setup_exchange w1) else (rc, w1).

(** ** txn_finished_cb *)

(** The callback runs on the frame the controller left in [rx_buf].  The
    result is [None] when a copy leaves the reassembly buffer.  The cursor
    is an [int]; it is increased only after a copy that stayed inside the
    buffer, so it never passes the size of the array and cannot wrap. *)
Definition txn_finished_cb (w : world) : option world :=
  (* Deassert ready line to base *)
  let w := gpio_set_value GPIO_SLICE_RDY_N true w in
  (* free (priv->tx_buf); priv->tx_buf = NULL *)
  let w := upd_priv (set_tx_buf None) w in
  let m := rx_buf (priv w) in
  if negb (hdr_valid m) then
    (* Received a dummy packet - nothing to do! *)
    Some (setup_exchange w)
  else if rcvd_payload_idx (priv w) >=? SLICE_DL_PAYLOAD_MAX_SZ then
    (* Too many packets received! *)
    Some (setup_exchange w)
  else
    match memcpy (rcvd_payload (priv w)) (Z.to_nat (rcvd_payload_idx (priv w)))
                 (data m) PAYLOAD_SZ with
    | None => None
    | Some buf =>
        let idx := rcvd_payload_idx (priv w) + SLICE_SPI_MSG_PAYLOAD_SZ in
        let w := upd_priv (set_rcvd buf idx) w in
        if hdr_more m then
          (* Need additional packets *)
          Some (setup_exchange w)
        else
          let w := cb_recv buf idx w in
          match memset0 buf PAYLOAD_SZ with
          | None => None
          | Some buf0 =>
              Some (setup_exchange (upd_priv (set_rcvd buf0 0) w))
          end
    end.

(** ** slice_dl_init *)

(** The static instance is zero-initialised; [slice_dl_init] empties the
    queue and drives RDY high.  The level of the WAKE line and of the
    interrupt line at that time are not the driver's to choose. *)
Definition slice_dl_init (wake_n int_level : bool) : world :=
  mk_world
    (mk_priv [] zero_msg None
             (repeat 0 (Z.to_nat SLICE_DL_PAYLOAD_MAX_SZ)) 0)
    true wake_n int_level [] [].

(** ** The controller and the event loop *)

(** The controller completes the oldest outstanding exchange: it has stored
    the received frame in [rx_buf] and calls the [read] callback. *)
Definition spi_complete (w : world) (rx : slice_spi_msg) : option world :=
  match spi_armed w with
  | [] => None
  | _ :: rest =>
      txn_finished_cb (upd_priv (set_rx_buf rx) (set_spi_armed rest w))
  end.

(** Feeding a sequence of received frames to the callback, in order. *)
Fixpoint rx_frames (w : world) (frames : list slice_spi_msg) : option world :=
  match frames with
  | [] => Some w
  | m :: rest =>
      match txn_finished_cb (upd_priv (set_rx_buf m) w) with
      | None => None
      | Some w' => rx_frames w' rest
      end
  end.

(** One step of the system.  [setup_exchange] runs with interrupts
    disabled and the two handlers run in interrupt context, so a trigger is
    one step; [queue_data] is a task and can be preempted between two
    iterations of its loop, which [step_list_add] accounts for: a single
    packet appended to the queue.  The base moves the WAKE line at any
    time; the controller completes an exchange it was armed with. *)
Inductive step : world -> world -> Prop :=
| step_queue_data : forall w buf heap,
    step w (snd (queue_data w buf heap))
| step_list_add : forall w m,
    msg_wf m ->
    step w (upd_priv (set_tx_fifo (list_add (tx_fifo (priv w)) m)) w)
| step_wake_isr : forall w,
    step w (wake_isr w)
| step_wake_line : forall w level,
    step w (set_wake_n level w)
| step_spi_complete : forall w rx w',
    msg_wf rx ->
    spi_complete w rx = Some w' ->
    step w w'
| step_attach_cb : forall w attached,
    step w (attach_cb w attached).

Inductive reachable : world -> Prop :=
| reachable_init : forall wake_n int_level,
    reachable (slice_dl_init wake_n int_level)
| reachable_step : forall w w',
    reachable w -> step w w' -> reachable w'.

End Datalink.

(** ** Sample inputs *)

(** The bytes a, a+1, ..., a+n-1. *)
Definition bytes_from (a n : nat) : list Z := map Z.of_nat (seq a n).

Definition msg1 : list Z := [171].
Definition msg64 : list Z := bytes_from 0 64.
Definition msg70 : list Z := bytes_from 0 70.

(** A received fragment with payload [d]: VALID set, MORE as given. *)
Definition rx_fragment (more : bool) (d : list Z) : slice_spi_msg :=
  mk_msg (Z.lor HDR_BIT_VALID (if more then HDR_BIT_MORE else 0)) d 0.

(** A capacity to run the model at. *)
Definition SAMPLE_MAX_SZ : Z := 1024.

(** ** What the specification asks of a delivered message *)

(** [m] zero-padded to a multiple of the payload size. *)
Definition zero_pad (m : list Z) : list Z :=
  m ++ repeat 0 ((PAYLOAD_SZ - length m mod PAYLOAD_SZ) mod PAYLOAD_SZ)%nat.

(** ceil (len / SLICE_SPI_MSG_PAYLOAD_SZ) *)
Definition fragment_count (len : nat) : nat :=
  ((len + PAYLOAD_SZ - 1) / PAYLOAD_SZ)%nat.

(** The MORE bits a message of [n] fragments should carry. *)
Definition more_pattern (n : nat) : list bool :=
  repeat true (n - 1) ++ match n with O => [] | S _ => [false] end.

(** A frame sequence that carries one message: every frame valid and well
    formed, MORE set on all frames before the last. *)
Definition message_frames (frames : list slice_spi_msg) : Prop :=
  Forall msg_wf frames /\
  Forall (fun m => hdr_valid m = true) frames /\
  Forall (fun m => hdr_more m = true) (removelast frames).

(** ** Invariants *)

(** At most one exchange is outstanding; while it is, RDY is low and the
    interrupt line agrees with [tx_buf]. *)
Definition sched_inv (w : world) : Prop :=
  spi_armed w = [] \/
  (exists tx, spi_armed w = [tx]) /\
  gpio_rdy_n w = false /\
  host_int w = not_null (tx_buf (priv w)).

(** Sample states.  [w_queued]: one fragment was queued while WAKE was
    high, then the base pulled WAKE low.  [w_partial]: the first fragment of
    a longer message has been received. *)
Definition w_queued : world :=
  set_wake_n false
    (snd (queue_data SAMPLE_MAX_SZ (slice_dl_init SAMPLE_MAX_SZ true false)
            msg1 [true; true])).

Definition w_partial : world :=
  match spi_complete SAMPLE_MAX_SZ
          (wake_isr (slice_dl_init SAMPLE_MAX_SZ false false))
          (rx_fragment true (bytes_from 0 32)) with
  | Some w => w
  | None => slice_dl_init SAMPLE_MAX_SZ false false
  end.

(** [w_unaligned]: as [w_partial], with a capacity of 48 bytes, which is
    not a multiple of the payload size. *)
Definition w_unaligned : world :=
  match spi_complete 48
          (wake_isr (slice_dl_init 48 false false))
          (rx_fragment true (bytes_from 0 32)) with
  | Some w => w
  | None => slice_dl_init 48 false false
  end.

(** The reassembly buffer keeps its size and the cursor sits on a payload
    boundary. *)
Definition reasm_inv (max_sz : Z) (w : world) : Prop :=
  length (rcvd_payload (priv w)) = Z.to_nat max_sz /\
  exists k, 0 <= k /\ rcvd_payload_idx (priv w) = SLICE_SPI_MSG_PAYLOAD_SZ * k.

(** The packets the loop builds while [remaining] runs through the
    multiples k*32, (k-1)*32, ..., 32 of the payload size. *)
Fixpoint aligned_packets (buf : list Z) (len : Z) (k : nat)
  : list slice_spi_msg :=
  match k with
  | O => []
  | S j =>
      make_packet buf len (SLICE_SPI_MSG_PAYLOAD_SZ * Z.of_nat (S j))
        :: aligned_packets buf len j
  end.

(** The receive side of a state: reassembly buffer, cursor, deliveries. *)
Definition rcvd_state (w : world) : list Z * Z * list (list Z) :=
  (rcvd_payload (priv w), rcvd_payload_idx (priv w), recv_log w).

(** ** More of the datalink: what is looked at beyond the claims *)

(** What [queue_data] puts in a packet for the caller's buffer [buf]:
    VALID set, the reserved header bits clear, no CRC, and a payload of
    SLICE_SPI_MSG_PAYLOAD_SZ bytes that starts with the first bytes of
    [buf] and is filled up with zeros. *)
Definition queued_packet_ok (buf : list Z) (m : slice_spi_msg) : Prop :=
  hdr_valid m = true /\
  Z.land (hdr_bits m) HDR_BIT_RSVD = 0 /\
  crc16 m = 0 /\
  msg_wf m /\
  data m = firstn PAYLOAD_SZ (buf ++ repeat 0 PAYLOAD_SZ).

(** The controller completes one exchange after the other, storing the
    frames [rxs] it receives; the result lists the frames it has sent, in
    order.  [None]: no exchange was armed when one should complete, or the
    callback left the reassembly buffer. *)
Fixpoint spi_run (max_sz : Z) (w : world) (rxs : list slice_spi_msg)
  : option (list slice_spi_msg * world) :=
  match rxs with
  | [] => Some ([], w)
  | rx :: rest =>
      match spi_armed w with
      | [] => None
      | tx :: _ =>
          match spi_complete max_sz w rx with
          | None => None
          | Some w1 =>
              match spi_run max_sz w1 rest with
              | None => None
              | Some (txs, w2) => Some (tx :: txs, w2)
              end
          end
      end
  end.


(** * HDMI to CSI bridge (nuttx/configs/hdk/muc/src/hdmi_to_csi.c)

    The driver programs the bridge chip over I2C.  [I2C_TRANSFER] belongs
    to the bus driver: its return codes are an input, [bus k] being the
    code of the k-th transfer on the bus (0 is success).  The log lists
    the messages handed to the bus, oldest first, so the next transfer is
    number [length log].  The delays ([usleep]) and the debug output leave
    no trace in the model. *)

Definition DEV_I2C_ADDR : Z := 0x0F.
Definition ENODEV : Z := 19.

(** struct i2c_msg_s as [_i2c_write] fills it; [msg_buffer] is what the
    buffer pointer gives the bus to read, [msg_length] bytes. *)
Record i2c_msg_s : Type := mk_i2c_msg {
  msg_addr : Z;
  msg_flags : Z;
  msg_buffer : list Z;
  msg_length : Z
}.

Definition I2C_TRANSFER (bus : nat -> Z) (log : list i2c_msg_s)
    (msg : i2c_msg_s) : Z * list i2c_msg_s :=
  (bus (length log), log ++ [msg]).

(** [a[i] = v], for an index inside the array. *)
Definition array_set (a : list Z) (i : nat) (v : Z) : list Z :=
  firstn i a ++ v :: skipn (S i) a.

(** The two EDID tables, one row for each line of the source.
    EDID 1080p30 - no CEA extension block *)
Definition edid_1080p30 : list Z :=
  concat
    [[0x00; 0xFF; 0xFF; 0xFF; 0xFF; 0xFF; 0xFF; 0x00];
     [0x52; 0x62; 0x09; 0x02; 0x01; 0x01; 0x01; 0x01];
     [0xFF; 0x14; 0x01; 0x03; 0x80; 0xA0; 0x5A; 0x78];
     [0x0A; 0x0D; 0xC9; 0xA0; 0x57; 0x47; 0x98; 0x27];
     [0x12; 0x48; 0x4C; 0x2F; 0xCF; 0x00; 0x01; 0x00];
     [0x01; 0x01; 0x01; 0x01; 0x01; 0x01; 0x01; 0x01];
     [0x01; 0x01; 0x01; 0x01; 0x01; 0x01; 0x01; 0x1D];
     [0x80; 0x18; 0x71; 0x38; 0x2D; 0x40; 0x58; 0x2C];
     [0x45; 0x00; 0x40; 0x84; 0x63; 0x00; 0x00; 0x1E];
     [0x66; 0x21; 0x50; 0xB0; 0x51; 0x00; 0x1B; 0x30];
     [0x40; 0x70; 0x36; 0x00; 0x3A; 0x84; 0x63; 0x00];
     [0x00; 0x1E; 0x00; 0x00; 0x00; 0xFC; 0x00; 0x54];
     [0x4F; 0x53; 0x48; 0x49; 0x42; 0x41; 0x2D; 0x54];
     [0x56; 0x0A; 0x20; 0x20; 0x00; 0x00; 0x00; 0xFD];
     [0x00; 0x17; 0x4C; 0x0F; 0x51; 0x0F; 0x00; 0x0A];
     [0x20; 0x20; 0x20; 0x20; 0x20; 0x20; 0x00; 0xC8]].

(** EDID 720p60 *)
Definition edid_720p60 : list Z :=
  concat
    [[0x00; 0xFF; 0xFF; 0xFF; 0xFF; 0xFF; 0xFF; 0x00];
     [0x52; 0x62; 0x88; 0x88; 0x00; 0x88; 0x88; 0x88];
     [0x1C; 0x15; 0x01; 0x03; 0x80; 0x00; 0x00; 0x78];
     [0x0A; 0xEE; 0x91; 0xA3; 0x54; 0x4C; 0x99; 0x26];
     [0x0F; 0x50; 0x54; 0x00; 0x00; 0x00; 0x01; 0x01];
     [0x01; 0x01; 0x01; 0x01; 0x01; 0x01; 0x01; 0x01];
     [0x01; 0x01; 0x01; 0x01; 0x01; 0x01; 0x01; 0x1D];
     [0x00; 0x72; 0x51; 0xD0; 0x1E; 0x20; 0x6E; 0x28];
     [0x55; 0x00; 0xC4; 0x8E; 0x21; 0x00; 0x00; 0x1E];
     [0x8C; 0x0A; 0xD0; 0x8A; 0x20; 0xE0; 0x2D; 0x10];
     [0x10; 0x3E; 0x96; 0x00; 0x13; 0x8E; 0x21; 0x00];
     [0x00; 0x1E; 0x00; 0x00; 0x00; 0xFC; 0x00; 0x54];
     [0x6F; 0x73; 0x68; 0x69; 0x62; 0x61; 0x2D; 0x48];
     [0x32; 0x43; 0x0A; 0x20; 0x00; 0x00; 0x00; 0xFD];
     [0x00; 0x3B; 0x3D; 0x0F; 0x2E; 0x0F; 0x1E; 0x0A];
     [0x20; 0x20; 0x20; 0x20; 0x20; 0x20; 0x01; 0x4F];
     [0x02; 0x03; 0x1A; 0x42; 0x47; 0x84; 0x13; 0x03];
     [0x02; 0x07; 0x06; 0x01; 0x23; 0x09; 0x07; 0x07];
     [0x66; 0x03; 0x0C; 0x00; 0x30; 0x00; 0x80; 0xE3];
     [0x00; 0x7F; 0x8C; 0x0A; 0xD0; 0x8A; 0x20; 0xE0];
     [0x2D; 0x10; 0x10; 0x3E; 0x96; 0x00; 0xC4; 0x8E];
     [0x21; 0x00; 0x00; 0x18; 0x8C; 0x0A; 0xD0; 0x8A];
     [0x20; 0xE0; 0x2D; 0x10; 0x10; 0x3E; 0x96; 0x00];
     [0x13; 0x8E; 0x21; 0x00; 0x00; 0x18; 0x8C; 0x0A];
     [0xA0; 0x14; 0x51; 0xF0; 0x16; 0x00; 0x26; 0x7C];
     [0x43; 0x00; 0x13; 0x8E; 0x21; 0x00; 0x00; 0x98];
     [0x00; 0x00; 0x00; 0x00; 0x00; 0x00; 0x00; 0x00];
     [0x00; 0x00; 0x00; 0x00; 0x00; 0x00; 0x00; 0x00];
     [0x00; 0x00; 0x00; 0x00; 0x00; 0x00; 0x00; 0x00];
     [0x00; 0x00; 0x00; 0x00; 0x00; 0x00; 0x00; 0x00];
     [0x00; 0x00; 0x00; 0x00; 0x00; 0x00; 0x00; 0x00];
     [0x00; 0x00; 0x00; 0x00; 0x00; 0x00; 0x00; 0x86];
     [0x00; 0x00; 0x00; 0x00; 0x75; 0x19; 0xF5; 0x3D];
     [0x88; 0x19; 0xF5; 0x3D; 0x9E; 0x19; 0xF5; 0x3D]].

(** The register writes of [bridge_init_thread] before the EDID loop, in program order: register address, value, size. *)
Definition bridge_regs_before_edid : list (Z * Z * Z) :=
  [(0x0004, 0x0004, 2);
   (0x0002, 0x0F00, 2);
   (0x0002, 0x0000, 2);
   (0x0006, 0x0018, 2);
   (0x0014, 0x0000, 2);
   (0x0016, 0x07FF, 2);
   (0x0020, 0x80C8, 2);
   (0x0022, 0x0213, 2);
   (0x0140, 0x00000000, 4);
   (0x0144, 0x00000000, 4);
   (0x0148, 0x00000000, 4);
   (0x014C, 0x00000001, 4);
   (0x0150, 0x00000001, 4);
   (0x0210, 0x00002C00, 4);
   (0x0214, 0x00000005, 4);
   (0x0218, 0x00001F04, 4);
   (0x021C, 0x00000003, 4);
   (0x0220, 0x00000104, 4);
   (0x0224, 0x00004988, 4);
   (0x0228, 0x0000000A, 4);
   (0x022C, 0x00000004, 4);
   (0x0234, 0x00000007, 4);
   (0x0238, 0x00000000, 4);
   (0x0204, 0x00000001, 4);
   (0x0518, 0x00000001, 4);
   (0x0500, 0xA3000083, 4);
   (0x8502, 0x01, 1);
   (0x8512, 0xFE, 1);
   (0x8531, 0x00, 1);
   (0x8534, 0x3E, 1);
   (0x8533, 0x07, 1);
   (0x8540, 0x0A8C, 2);
   (0x8552, 0xD1, 1);
   (0x8630, 0xB0, 1);
   (0x8631, 0x041E, 2);
   (0x8670, 0x01, 1);
   (0x8532, 0x80, 1);
   (0x8536, 0x40, 1);
   (0x853F, 0x0A, 1);
   (0x8543, 0x32, 1);
   (0x8544, 0x10, 1);
   (0x8545, 0x31, 1);
   (0x8546, 0x2D, 1);
   (0x85AA, 0x0050, 2);
   (0x85AF, 0xF6, 1);
   (0x85C7, 0x01, 1);
   (0x85CB, 0x01, 1)].

(** The register writes behind the EDID loop. *)
Definition bridge_regs_after_edid : list (Z * Z * Z) :=
  [(0x85D1, 0x01, 1);
   (0x8560, 0x24, 1);
   (0x8563, 0x11, 1);
   (0x8564, 0x0F, 1);
   (0x8574, 0x08, 1);
   (0x8573, 0xC1, 1);
   (0x8576, 0xA0, 1);
   (0x8600, 0x00, 1);
   (0x8602, 0xF3, 1);
   (0x8603, 0x02, 1);
   (0x8604, 0x0C, 1);
   (0x8606, 0x05, 1);
   (0x8607, 0x00, 1);
   (0x8620, 0x22, 1);
   (0x8640, 0x01, 1);
   (0x8641, 0x65, 1);
   (0x8642, 0x07, 1);
   (0x8652, 0x02, 1);
   (0x8665, 0x10, 1);
   (0x870B, 0x2C, 1);
   (0x870C, 0x53, 1);
   (0x870D, 0xFF, 1);
   (0x870E, 0x30, 1);
   (0x9007, 0x10, 1);
   (0x8531, 0x01, 1);
   (0x8534, 0x3F, 1);
   (0x854A, 0x01, 1)].

(** struct dev_private_s; [i2c] tells whether the handle is not NULL. *)
Record dev_private_s : Type := mk_dev_private {
  rst_n : Z;
  led_en : Z;
  spi_sel : Z;
  i2c : bool
}.

(** The driver's static data and what it acts on: the calls of
    gpio_direction_out (pin, value), oldest first, the I2C bus, the
    registrations with the camera_ext layer and the init thread. *)
Record cam_world : Type := mk_cam {
  s_data : dev_private_s;
  gpio_calls : list (Z * Z);
  i2c_log : list i2c_msg_s;
  format_db_registered : bool;
  control_db_registered : bool;
  metadata_task_ready : bool;
  init_thread_started : bool
}.

Section Bridge.

Import String.

(** Constants of headers and of the configuration that are not part of
    the sources.  The retry count is a positive number. *)
Variable I2C_M_NORESTART : Z.
Variable CONFIG_MHB_CAMERA_I2C_RETRY : positive.
Variable CONFIG_MODS_HDMI_TO_CSI_1080P30 : bool.

(** The do-while loop of [_i2c_write] with [retries] at [S n] on entry:
    one transfer, and another pass while it failed and [--retries] is not
    0. *)
Fixpoint i2c_write_retry (n : nat) (bus : nat -> Z) (log : list i2c_msg_s)
    (msg : i2c_msg_s) : Z * list i2c_msg_s :=
  let '(ret, log1) := I2C_TRANSFER bus log msg in
  if ret =? 0 then (ret, log1)
  else
    match n with
    | O => (ret, log1)
    | S n' => i2c_write_retry n' bus log1 msg
    end.

(** [addr] is the array the pointer argument points into. *)
Definition _i2c_write (i2c_addr : Z) (addr : list Z) (addr_len : Z)
    (bus : nat -> Z) (log : list i2c_msg_s) : Z * list i2c_msg_s :=
  let msg := mk_i2c_msg i2c_addr I2C_M_NORESTART
                        (firstn (Z.to_nat addr_len) addr) addr_len in
  i2c_write_retry (Pos.to_nat CONFIG_MHB_CAMERA_I2C_RETRY - 1) bus log msg.

(** [stack] is what the local array [addr[10]] holds on entry: it is not
    initialised.  [size] is a uint8_t, [regaddr] a uint16_t and [data] a
    uint32_t. *)
Definition bridge_i2c_write_int (stack : list Z)
    (i2c_addr regaddr data size : Z)
    (bus : nat -> Z) (log : list i2c_msg_s) : Z * list i2c_msg_s :=
  if size >? 8 then (-1, log)
  else
    (* Address - MSB first *)
    let addr := array_set stack 0 (Z.land (Z.shiftr regaddr 8) 0xFF) in
    let addr := array_set addr 1 (Z.land regaddr 0xFF) in
    let case_1 a := array_set a 2 (Z.land data 0xFF) in
    let case_2 a := case_1 (array_set a 3 (Z.land (Z.shiftr data 8) 0xFF)) in
    let case_4 a :=
      case_2 (array_set
                (array_set a 5 (Z.land (Z.shiftr data 24) 0xFF))
                4 (Z.land (Z.shiftr data 16) 0xFF)) in
    if size <=? 4 then
      (* LSB first for 2/4 bytes bounded registers *)
      if size =? 4 then _i2c_write i2c_addr (case_4 addr) (size + 2) bus log
      else if size =? 2 then
        _i2c_write i2c_addr (case_2 addr) (size + 2) bus log
      else if size =? 1 then
        _i2c_write i2c_addr (case_1 addr) (size + 2) bus log
      else (-1, log)
    else _i2c_write i2c_addr addr (size + 2) bus log.

(** [data] is the array the pointer argument points into.  [None]: the
    copy reads past it. *)
Definition bridge_i2c_write_raw (stack : list Z)
    (i2c_addr regaddr : Z) (data : list Z) (size : Z)
    (bus : nat -> Z) (log : list i2c_msg_s)
  : option (Z * list i2c_msg_s) :=
  if size >? 8 then Some (-1, log)
  else
    let addr := array_set stack 0 (Z.land (Z.shiftr regaddr 8) 0xFF) in
    let addr := array_set addr 1 (Z.land regaddr 0xFF) in
    match memcpy addr 2 data (Z.to_nat size) with
    | None => None
    | Some addr => Some (_i2c_write i2c_addr addr (size + 2) bus log)
    end.

Definition edid : list Z :=
  if CONFIG_MODS_HDMI_TO_CSI_1080P30 then edid_1080p30 else edid_720p60.

(** A run of [if (!rc) rc = bridge_i2c_write_int (...)] statements. *)
Fixpoint write_regs (regs : list (Z * Z * Z)) (rc : Z) (stack : list Z)
    (bus : nat -> Z) (log : list i2c_msg_s) : Z * list i2c_msg_s :=
  match regs with
  | [] => (rc, log)
  | (regaddr, data, size) :: rest =>
      if rc =? 0 then
        let '(rc', log') :=
          bridge_i2c_write_int stack DEV_I2C_ADDR regaddr data size bus log in
        write_regs rest rc' stack bus log'
      else write_regs rest rc stack bus log
  end.

(** The EDID loop.  [rest] is the table from [offset] on: the loop goes
    on while it is not empty, that is, while [offset < edidlen].  The
    register address is [addrstart + offset] as a uint16_t.  With fewer
    than 8 bytes left the copy in [bridge_i2c_write_raw] reads past the
    table. *)
Fixpoint edid_upload (rest : list Z) (offset rc : Z) (stack : list Z)
    (bus : nat -> Z) (log : list i2c_msg_s)
  : option (Z * list i2c_msg_s) :=
  match rest with
  | [] => Some (rc, log)
  | _ :: _ :: _ :: _ :: _ :: _ :: _ :: _ :: rest' =>
      match bridge_i2c_write_raw stack DEV_I2C_ADDR
              ((0x8C00 + offset) mod 2 ^ 16) rest 8 bus log with
      | None => None
      | Some (rc', log') =>
          if rc' =? 0
          then edid_upload rest' (offset + 8) rc' stack bus log'
          else Some (rc', log')
      end
  | _ => None
  end.

Definition cam_gpio_direction_out (pin value : Z) (c : cam_world)
  : cam_world :=
  mk_cam (s_data c) (gpio_calls c ++ [(pin, value)]) (i2c_log c)
         (format_db_registered c) (control_db_registered c)
         (metadata_task_ready c) (init_thread_started c).

Definition cam_set_i2c_log (log : list i2c_msg_s) (c : cam_world)
  : cam_world :=
  mk_cam (s_data c) (gpio_calls c) log
         (format_db_registered c) (control_db_registered c)
         (metadata_task_ready c) (init_thread_started c).

(** [bridge_init_thread] returns NULL whatever happens; the model returns
    the last value of [rc] beside the state. *)
Definition bridge_init_thread (stack : list Z) (bus : nat -> Z)
    (c : cam_world) : option (Z * cam_world) :=
  let c := cam_gpio_direction_out (led_en (s_data c)) 1 c in
  let c := cam_gpio_direction_out (rst_n (s_data c)) 1 c in
  let '(rc, log) :=
    write_regs bridge_regs_before_edid 0 stack bus (i2c_log c) in
  match edid_upload edid 0 rc stack bus log with
  | None => None
  | Some (rc, log) =>
      let '(rc, log) := write_regs bridge_regs_after_edid rc stack bus log in
      Some (rc, cam_set_i2c_log log c)
  end.

(** The two stream operations; what start_metadata_task and
    stop_metadata_task do is outside this file and the bus. *)
Definition _mhb_camera_stream_enable (stack : list Z) (bus : nat -> Z)
    (log : list i2c_msg_s) : Z * list i2c_msg_s :=
  bridge_i2c_write_int stack DEV_I2C_ADDR 0x0004 0x0CD7 2 bus log.

Definition _mhb_camera_stream_disable (stack : list Z) (bus : nat -> Z)
    (log : list i2c_msg_s) : Z * list i2c_msg_s :=
  bridge_i2c_write_int stack DEV_I2C_ADDR 0x0004 0x0004 2 bus log.

(** [_mhb_camera_init].  [dev] is the device as far as this function
    looks at it: the start of its GPIO resource of a given name, if it has
    one (device_resource_get_by_name).  [i2c_ok] and [thread_ok] tell
    whether up_i2cinitialize and pthread_create succeed.  The fields of
    [s_data] are uint8_t. *)
Definition _mhb_camera_init (dev : string -> option Z)
    (i2c_ok thread_ok : bool) (c : cam_world) : Z * cam_world :=
  let with_s_data d c :=
    mk_cam d (gpio_calls c) (i2c_log c) (format_db_registered c)
           (control_db_registered c) (metadata_task_ready c)
           (init_thread_started c) in
  (* memset (&s_data, 0, sizeof (s_data)) *)
  let c := with_s_data (mk_dev_private 0 0 0 false) c in
  match dev "rst_n"%string with
  | None => (- ENODEV, c)
  | Some r =>
      let c := with_s_data
                 (mk_dev_private (r mod 2 ^ 8) 0 0 false) c in
      match dev "led_en"%string with
      | None => (- ENODEV, c)
      | Some l =>
          let c := with_s_data
                     (mk_dev_private (r mod 2 ^ 8) (l mod 2 ^ 8) 0 false)
                     c in
          match dev "spi_sel"%string with
          | None => (- ENODEV, c)
          | Some s =>
              let c := with_s_data
                         (mk_dev_private (r mod 2 ^ 8) (l mod 2 ^ 8)
                                         (s mod 2 ^ 8) false) c in
              let c := cam_gpio_direction_out (spi_sel (s_data c)) 0 c in
              let c := cam_gpio_direction_out (rst_n (s_data c)) 0 c in
              let c := cam_gpio_direction_out (led_en (s_data c)) 0 c in
              (* the two databases are registered, the metadata task set up *)
              let c := mk_cam (s_data c) (gpio_calls c) (i2c_log c)
                              true true true (init_thread_started c) in
              let c := with_s_data
                         (mk_dev_private (rst_n (s_data c))
                            (led_en (s_data c)) (spi_sel (s_data c)) i2c_ok)
                         c in
              if negb i2c_ok then (-1, c)
              else if negb thread_ok then (-1, c)
              else
                (0, mk_cam (s_data c) (gpio_calls c) (i2c_log c)
                           (format_db_registered c)
                           (control_db_registered c)
                           (metadata_task_ready c) true)
          end
      end
  end.

(** Sample devices: all three GPIO resources, and one without led_en. *)
Definition sample_dev (name : string) : option Z :=
  if String.eqb name "rst_n" then Some 5
  else if String.eqb name "led_en" then Some 260
  else if String.eqb name "spi_sel" then Some 7
  else None.

Definition sample_dev_no_led (name : string) : option Z :=
  if String.eqb name "led_en" then None else sample_dev name.

(** The names of the three GPIO resources. *)
Definition name_rst_n : string := "rst_n".
Definition name_led_en : string := "led_en".
Definition name_spi_sel : string := "spi_sel".

Definition has_gpio_resources (dev : string -> option Z) : Prop :=
  dev "rst_n"%string <> None /\
  dev "led_en"%string <> None /\
  dev "spi_sel"%string <> None.

End Bridge.

(** ** Reading the bus *)

(** The little-endian bytes of a value, and back. *)
Fixpoint le_bytes (n : nat) (v : Z) : list Z :=
  match n with
  | O => []
  | S n' => Z.land v 0xFF :: le_bytes n' (Z.shiftr v 8)
  end.

Fixpoint le_value (l : list Z) : Z :=
  match l with
  | [] => 0
  | b :: l' => b + 256 * le_value l'
  end.

(** The register address a message starts with, MSB first, and the bytes
    behind it. *)
Definition msg_regaddr (m : i2c_msg_s) : Z :=
  match msg_buffer m with
  | hi :: lo :: _ => 256 * hi + lo
  | _ => 0
  end.

Definition msg_payload (m : i2c_msg_s) : list Z := skipn 2 (msg_buffer m).

(** The message of a register write: address 0x0F, the register MSB
    first, then [payload]. *)
Definition reg_msg (flags regaddr : Z) (payload : list Z) : i2c_msg_s :=
  mk_i2c_msg DEV_I2C_ADDR flags
             ([Z.land (Z.shiftr regaddr 8) 0xFF; Z.land regaddr 0xFF]
                ++ payload)
             (Z.of_nat (length payload) + 2).

Definition int_msg (flags : Z) (r : Z * Z * Z) : i2c_msg_s :=
  let '(regaddr, data, size) := r in
  reg_msg flags regaddr (le_bytes (Z.to_nat size) data).

(** The messages among [msgs] that the bus has acknowledged, [msgs] being
    the transfers number [start], [start + 1], ... *)
Fixpoint acked (bus : nat -> Z) (start : nat) (msgs : list i2c_msg_s)
  : list i2c_msg_s :=
  match msgs with
  | [] => []
  | m :: ms =>
      if bus start =? 0 then m :: acked bus (S start) ms
      else acked bus (S start) ms
  end.

(** The table cut into the messages of the EDID loop: 8 bytes each, at
    consecutive register addresses from [regaddr] on. *)
Fixpoint edid_msgs (flags : Z) (rest : list Z) (regaddr : Z)
  : list i2c_msg_s :=
  match rest with
  | b0 :: b1 :: b2 :: b3 :: b4 :: b5 :: b6 :: b7 :: rest' =>
      reg_msg flags regaddr [b0; b1; b2; b3; b4; b5; b6; b7]
        :: edid_msgs flags rest' (regaddr + 8)
  | _ => []
  end.

(** A bus on which the first [n] transfers fail and all later ones
    succeed, and a state of the driver before initialisation. *)
Definition bus_fails_first (n : nat) (k : nat) : Z :=
  if (k <? n)%nat then 5 else 0.

Definition cam_reset : cam_world :=
  mk_cam (mk_dev_private 0 0 0 false) [] [] false false false false.

(** A register write of a size that [bridge_i2c_write_int] encodes. *)
Definition int_size_ok (r : Z * Z * Z) : Prop :=
  snd r = 1 \/ snd r = 2 \/ snd r = 4.

(** The register addresses of [n] messages of 8 bytes from [regaddr] on. *)
Definition chunk_addrs (regaddr : Z) (n : nat) : list Z :=
  map (fun i => regaddr + 8 * Z.of_nat i) (seq 0 n).

(** * Proofs *)

(** ** Lists and memory *)

Lemma list_pair_ind (P : list bool -> Prop) :
  P [] -> (forall a, P [a]) ->
  (forall a b l, P l -> P (a :: b :: l)) ->
  forall l, P l.
Proof.
  intros H0 H1 H2 l.
  assert (H : P l /\ forall a, P (a :: l)).
  { induction l as [|b l [IH1 IH2]]; split; auto. }
  apply H.
Qed.

Lemma blit_length dst off src n :
  (off + n <= length dst)%nat -> (n <= length src)%nat ->
  length (blit dst off src n) = length dst.
Proof.
  intros Hd Hs. unfold blit.
  rewrite !length_app, !length_firstn, length_skipn. lia.
Qed.

Lemma blit_firstn dst off src n :
  (off + n <= length dst)%nat -> (n <= length src)%nat ->
  firstn (off + n) (blit dst off src n) = firstn off dst ++ firstn n src.
Proof.
  intros Hd Hs. unfold blit.
  rewrite app_assoc.
  rewrite firstn_app.
  rewrite length_app, !length_firstn.
  replace (off + n - (Nat.min off (length dst) + Nat.min n (length src)))%nat
    with 0%nat by lia.
  rewrite firstn_O, app_nil_r.
  apply firstn_all2. rewrite length_app, !length_firstn. lia.
Qed.

Lemma memcpy_Some dst off src n buf :
  memcpy dst off src n = Some buf ->
  (off + n <= length dst)%nat /\ (n <= length src)%nat /\
  buf = blit dst off src n.
Proof.
  unfold memcpy. intros H.
  destruct (off + n <=? length dst)%nat eqn:E1; simpl in H; [|discriminate].
  destruct (n <=? length src)%nat eqn:E2; simpl in H; [|discriminate].
  apply Nat.leb_le in E1. apply Nat.leb_le in E2.
  inversion H. auto.
Qed.

Lemma memcpy_in_bounds dst off src n :
  (off + n <= length dst)%nat -> (n <= length src)%nat ->
  memcpy dst off src n = Some (blit dst off src n).
Proof.
  intros Hd Hs. unfold memcpy.
  apply Nat.leb_le in Hd. apply Nat.leb_le in Hs.
  rewrite Hd, Hs. reflexivity.
Qed.

(** ** setup_exchange leaves the receive side alone *)

Lemma setup_exchange_rcvd w :
  rcvd_payload (priv (setup_exchange w)) = rcvd_payload (priv w) /\
  rcvd_payload_idx (priv (setup_exchange w)) = rcvd_payload_idx (priv w) /\
  recv_log (setup_exchange w) = recv_log w /\
  gpio_wake_n (setup_exchange w) = gpio_wake_n w.
Proof.
  unfold setup_exchange. cbn [gpio_get_value gpio_set_value].
  destruct (gpio_rdy_n w), (gpio_wake_n w) eqn:Ew, (tx_fifo (priv w));
    simpl; auto.
Qed.

(** The interrupt line after [setup_exchange] tells whether [tx_buf] is set. *)
Lemma setup_exchange_host_int w :
  host_int (setup_exchange w) = not_null (tx_buf (priv (setup_exchange w))).
Proof.
  unfold setup_exchange. cbn [gpio_get_value gpio_set_value].
  destruct (gpio_rdy_n w), (gpio_wake_n w), (tx_fifo (priv w));
    reflexivity.
Qed.

(** With RDY low the call changes nothing but the interrupt line. *)
Lemma setup_exchange_armed w :
  gpio_rdy_n w = false ->
  setup_exchange w = setup_exchange_out w.
Proof. intros H. unfold setup_exchange. cbn [gpio_get_value]. rewrite H.
  reflexivity. Qed.

Lemma sched_inv_setup_exchange w :
  sched_inv w -> sched_inv (setup_exchange w).
Proof.
  intros [Hidle | [[tx Htx] [Hrdy Hint]]].
  - unfold setup_exchange, sched_inv. cbn [gpio_get_value gpio_set_value].
    destruct (gpio_rdy_n w) eqn:Er; simpl.
    + destruct (gpio_wake_n w); simpl.
      * left. exact Hidle.
      * destruct (tx_fifo (priv w)) as [|p rest]; simpl; rewrite Hidle;
          right; simpl; eauto.
    + left. exact Hidle.
  - rewrite setup_exchange_armed by exact Hrdy.
    right. simpl. eauto.
Qed.

(** While an exchange is outstanding the call is the identity. *)
Lemma setup_exchange_idle_noop w :
  sched_inv w -> spi_armed w <> [] -> setup_exchange w = w.
Proof.
  intros [Hidle | [_ [Hrdy Hint]]] Hne; [contradiction|].
  rewrite setup_exchange_armed by exact Hrdy.
  unfold setup_exchange_out, slice_host_int_set.
  rewrite <- Hint. destruct w; reflexivity.
Qed.

(** ** The scheduler invariant over the event loop *)

Section Scheduler.

Variable MAX_SZ : Z.

(** Whatever the callback does to the receive side, it ends in a call of
    [setup_exchange] with RDY high and [tx_buf] released. *)
Lemma txn_finished_cb_shape w w' :
  txn_finished_cb MAX_SZ w = Some w' ->
  exists w2,
    w' = setup_exchange w2 /\
    spi_armed w2 = spi_armed w /\
    gpio_rdy_n w2 = true /\
    tx_buf (priv w2) = None /\
    tx_fifo (priv w2) = tx_fifo (priv w) /\
    gpio_wake_n w2 = gpio_wake_n w.
Proof.
  unfold txn_finished_cb. cbn [priv upd_priv gpio_set_value set_rdy_n set_tx_buf rx_buf
    rcvd_payload rcvd_payload_idx].
  destruct (negb (hdr_valid (rx_buf (priv w)))).
  { intros H; inversion H; eexists; split; [reflexivity|]; simpl; auto. }
  destruct (rcvd_payload_idx (priv w) >=? MAX_SZ).
  { intros H; inversion H; eexists; split; [reflexivity|]; simpl; auto. }
  destruct (memcpy _ _ _ _) as [buf|]; [|discriminate].
  destruct (hdr_more (rx_buf (priv w))).
  { intros H; inversion H; eexists; split; [reflexivity|]; simpl; auto. }
  destruct (memset0 buf PAYLOAD_SZ) as [buf0|]; [|discriminate].
  intros H; inversion H; eexists; split; [reflexivity|]; simpl; auto.
Qed.

Lemma sched_inv_set_tx_fifo w q :
  sched_inv w -> sched_inv (upd_priv (set_tx_fifo q) w).
Proof. intros H; exact H. Qed.

Lemma sched_inv_queue_data w buf heap :
  sched_inv w -> sched_inv (snd (queue_data MAX_SZ w buf heap)).
Proof.
  intros H. unfold queue_data.
  destruct (Z.of_nat (length buf) >? MAX_SZ); [exact H|].
  destruct (queue_data_loop _ _ _ _ _) as [rc fifo].
  destruct (rc =? 0); simpl.
  - apply sched_inv_setup_exchange, sched_inv_set_tx_fifo, H.
  - apply sched_inv_set_tx_fifo, H.
Qed.

Lemma sched_inv_spi_complete w rx w' :
  sched_inv w -> spi_complete MAX_SZ w rx = Some w' -> sched_inv w'.
Proof.
  intros H. unfold spi_complete.
  destruct (spi_armed w) as [|tx rest] eqn:Ea; [discriminate|].
  assert (rest = []) as ->.
  { destruct H as [H | [[tx' H] _]]; congruence. }
  intros Hcb.
  destruct (txn_finished_cb_shape _ _ Hcb) as (w2 & -> & Harm & _).
  apply sched_inv_setup_exchange. left. rewrite Harm. reflexivity.
Qed.

Lemma sched_inv_attach_cb w attached :
  sched_inv w -> sched_inv (attach_cb w attached).
Proof.
  intros H. unfold attach_cb.
  destruct attached; simpl; [exact H|]. left. reflexivity.
Qed.

Lemma sched_inv_step w w' :
  sched_inv w -> step MAX_SZ w w' -> sched_inv w'.
Proof.
  intros H Hs. destruct Hs.
  - apply sched_inv_queue_data, H.
  - apply sched_inv_set_tx_fifo, H.
  - apply sched_inv_setup_exchange, H.
  - exact H.
  - eapply sched_inv_spi_complete; eauto.
  - apply sched_inv_attach_cb, H.
Qed.

Lemma reachable_sched_inv w :
  reachable MAX_SZ w -> sched_inv w.
Proof.
  induction 1 as [wake_n int_level | w w' _ IH Hs].
  - left. reflexivity.
  - eapply sched_inv_step; eauto.
Qed.

End Scheduler.

(** C3.  In every state the event loop can reach (from initialisation,
    through queue_data, the wake interrupt, the wake line, completions of
    the SPI controller and attach callbacks) at most one exchange is
    outstanding, and while one is outstanding a call of setup_exchange
    changes nothing: no second exchange is started, and the queue, tx_buf,
    the lines and the receive side stay as they are. *)
Theorem setup_exchange_single_outstanding :
  forall (max_sz : Z) (w : world),
    reachable max_sz w ->
    (length (spi_armed w) <= 1)%nat /\
    (spi_armed w <> [] -> setup_exchange w = w).
Proof.
  intros max_sz w Hr.
  pose proof (reachable_sched_inv _ _ Hr) as Hinv.
  split.
  - destruct Hinv as [-> | [[tx ->] _]]; simpl; lia.
  - intros Hne. apply setup_exchange_idle_noop; assumption.
Qed.

(** The state after the wake interrupt found WAKE asserted at start-up: the
    dummy exchange is armed, and a second trigger changes nothing. *)
Lemma setup_exchange_single_outstanding_witness :
  let w := wake_isr (slice_dl_init SAMPLE_MAX_SZ false false) in
  spi_armed w = [tx_dummy_buf] /\
  (length (spi_armed w) <= 1)%nat /\
  (spi_armed w <> [] -> setup_exchange w = w).
Proof.
  intros w. split; [reflexivity|].
  apply (setup_exchange_single_outstanding SAMPLE_MAX_SZ w).
  unfold w. eapply reachable_step.
  - apply reachable_init.
  - apply step_wake_isr.
Defined.

(** ** The sample states are reachable *)

Lemma w_queued_reachable : reachable SAMPLE_MAX_SZ w_queued.
Proof.
  unfold w_queued.
  eapply reachable_step; [eapply reachable_step|].
  - apply reachable_init.
  - apply step_queue_data.
  - apply step_wake_line.
Qed.

Lemma w_queued_fields :
  tx_fifo (priv w_queued) = [mk_msg 128 (171 :: repeat 0 31) 0] /\
  tx_buf (priv w_queued) = None /\
  gpio_rdy_n w_queued = true /\ gpio_wake_n w_queued = false /\
  host_int w_queued = false /\ spi_armed w_queued = [].
Proof. vm_compute. repeat split. Qed.

Lemma w_partial_reachable : reachable SAMPLE_MAX_SZ w_partial.
Proof.
  eapply reachable_step; [eapply reachable_step|].
  - apply (reachable_init SAMPLE_MAX_SZ false false).
  - apply step_wake_isr.
  - apply step_spi_complete with (rx := rx_fragment true (bytes_from 0 32)).
    + reflexivity.
    + vm_compute. reflexivity.
Qed.

Lemma w_partial_fields :
  rcvd_payload_idx (priv w_partial) = 32 /\
  firstn 32 (rcvd_payload (priv w_partial)) = bytes_from 0 32 /\
  recv_log w_partial = [].
Proof. vm_compute. repeat split. Qed.

(** ** The interrupt line to the base *)

(** C7, as stated, fails.  One fragment is queued and WAKE is asserted:
    the wake interrupt's setup_exchange takes the fragment, which empties
    the queue, and raises the interrupt line. *)
Lemma host_int_set_with_empty_queue :
  reachable SAMPLE_MAX_SZ w_queued /\
  ~ (host_int (setup_exchange w_queued) = true <->
     tx_fifo (priv (setup_exchange w_queued)) <> []).
Proof.
  split; [exact w_queued_reachable|].
  intros [H _]. apply H; reflexivity.
Qed.

(** C7, amended.  At the end of every setup_exchange call, whoever makes
    it, the level passed to slice_host_int_set is true whenever a fragment
    taken from the queue is held in tx_buf for the exchange, also when
    taking it has emptied the queue; it is false when there is nothing to
    send, that is, the queue is empty and tx_buf is NULL. *)
Theorem setup_exchange_host_int_data_held :
  forall w : world,
    (tx_buf (priv (setup_exchange w)) <> None ->
     host_int (setup_exchange w) = true) /\
    (tx_fifo (priv (setup_exchange w)) = [] ->
     tx_buf (priv (setup_exchange w)) = None ->
     host_int (setup_exchange w) = false).
Proof.
  intros w. rewrite setup_exchange_host_int.
  destruct (tx_buf (priv (setup_exchange w))); simpl; split;
    congruence.
Qed.

Lemma setup_exchange_host_int_data_held_witness :
  (tx_fifo (priv (setup_exchange w_queued)) = [] /\
   tx_buf (priv (setup_exchange w_queued)) <> None /\
   host_int (setup_exchange w_queued) = true) /\
  (let idle := slice_dl_init SAMPLE_MAX_SZ true true in
   tx_fifo (priv (setup_exchange idle)) = [] /\
   tx_buf (priv (setup_exchange idle)) = None /\
   host_int (setup_exchange idle) = false).
Proof.
  split.
  - split; [reflexivity|].
    assert (H : tx_buf (priv (setup_exchange w_queued)) <> None)
      by (vm_compute; discriminate).
    split; [exact H|].
    apply (setup_exchange_host_int_data_held w_queued). exact H.
  - intros idle. split; [reflexivity|]. split; [reflexivity|].
    apply (setup_exchange_host_int_data_held idle); reflexivity.
Defined.

(** The same at the end of the completion callback, which ends in
    setup_exchange. *)
Lemma txn_finished_cb_host_int max_sz w w' :
  txn_finished_cb max_sz w = Some w' ->
  host_int w' = not_null (tx_buf (priv w')).
Proof.
  intros H. destruct (txn_finished_cb_shape _ _ _ H) as (w2 & -> & _).
  apply setup_exchange_host_int.
Qed.

(** With the queue not empty but WAKE not asserted nothing is taken from
    the queue and the line stays low. *)
Lemma setup_exchange_wake_high w :
  gpio_wake_n w = true -> tx_buf (priv w) = None ->
  host_int (setup_exchange w) = false /\
  tx_fifo (priv (setup_exchange w)) = tx_fifo (priv w).
Proof.
  intros Hw Ht. unfold setup_exchange, setup_exchange_out.
  cbn [gpio_get_value].
  rewrite Hw. destruct (gpio_rdy_n w); simpl; rewrite Ht; auto.
Qed.

(** ** attach_cb *)

(** What a detach cleans up: the outbound queue is emptied and the
    outstanding exchange cancelled.  With attached = true the callback
    changes nothing. *)
Lemma attach_cb_detach_drains_queue w :
  tx_fifo (priv (attach_cb w false)) = [] /\
  spi_armed (attach_cb w false) = [] /\
  attach_cb w true = w.
Proof. repeat split. Qed.

(** Nothing else is reset by a detach: the reassembly buffer and cursor,
    tx_buf and the RDY line are what they were. *)
Lemma attach_cb_detach_leaves_rest w :
  rcvd_state (attach_cb w false) = rcvd_state w /\
  tx_buf (priv (attach_cb w false)) = tx_buf (priv w) /\
  gpio_rdy_n (attach_cb w false) = gpio_rdy_n w.
Proof. repeat split. Qed.

(** ** The fragmentation loop *)

Lemma queue_data_loop_done heap buf len fifo :
  queue_data_loop heap buf len 0 fifo = (0, fifo).
Proof. destruct heap; reflexivity. Qed.

(** The loop only appends: its outcome on a queue is its outcome on the
    empty queue, behind what was queued before. *)
Lemma queue_data_loop_app heap buf len :
  forall rem fifo,
    queue_data_loop heap buf len rem fifo =
    (fst (queue_data_loop heap buf len rem []),
     fifo ++ snd (queue_data_loop heap buf len rem [])).
Proof.
  induction heap as [|a|a b heap IH] using list_pair_ind; intros rem fifo.
  - cbn [queue_data_loop]. destruct (rem >? 0); simpl;
      rewrite app_nil_r; reflexivity.
  - cbn [queue_data_loop]. destruct (rem >? 0), a; simpl;
      rewrite app_nil_r; reflexivity.
  - cbn [queue_data_loop]. destruct (rem >? 0);
      [|simpl; rewrite app_nil_r; reflexivity].
    destruct a; [|simpl; rewrite app_nil_r; reflexivity].
    destruct b; [|simpl; rewrite app_nil_r; reflexivity].
    rewrite (IH _ (list_add fifo _)), (IH _ (list_add [] _)).
    unfold list_add. simpl. rewrite <- app_assoc. reflexivity.
Qed.

(** The loop ends with 0 or with -ENOMEM. *)
Lemma queue_data_loop_rc heap buf len :
  forall rem fifo,
    fst (queue_data_loop heap buf len rem fifo) = 0 \/
    fst (queue_data_loop heap buf len rem fifo) = - ENOMEM.
Proof.
  induction heap as [|a|a b heap IH] using list_pair_ind; intros rem fifo;
    cbn [queue_data_loop]; destruct (rem >? 0); simpl; auto.
  - destruct a; simpl; auto.
  - destruct a; simpl; auto. destruct b; simpl; auto.
Qed.

(** A message longer than one payload whose length is not a multiple of
    the payload size: [remaining] is decreased by a full payload each time,
    passes below zero and wraps, and never becomes 0.  The loop then ends
    only when an allocation fails. *)
Lemma queue_data_loop_ragged heap buf len :
  SLICE_SPI_MSG_PAYLOAD_SZ <= len ->
  forall rem fifo,
    0 <= rem -> rem mod SLICE_SPI_MSG_PAYLOAD_SZ <> 0 ->
    fst (queue_data_loop heap buf len rem fifo) = - ENOMEM.
Proof.
  intros Hlen.
  induction heap as [|a|a b heap IH] using list_pair_ind;
    intros rem fifo Hrem Hmod.
  - cbn [queue_data_loop].
    destruct (rem >? 0) eqn:E; [reflexivity|].
    assert (rem = 0) as -> by lia. elim Hmod; reflexivity.
  - cbn [queue_data_loop].
    destruct (rem >? 0) eqn:E; [destruct a; reflexivity|].
    assert (rem = 0) as -> by lia. elim Hmod; reflexivity.
  - cbn [queue_data_loop].
    destruct (rem >? 0) eqn:E.
    + destruct a; [|reflexivity]. destruct b; [|reflexivity].
      apply IH.
      * unfold size_sub. apply Z.mod_pos_bound. reflexivity.
      * unfold size_sub.
        rewrite Z.min_r by exact Hlen.
        rewrite Z.mod_mod_divide by (exists (2 ^ 27); reflexivity).
        unfold SLICE_SPI_MSG_PAYLOAD_SZ in *.
        replace (rem - 32) with (rem + (-1) * 32) by ring.
        rewrite Z.mod_add by lia. exact Hmod.
    + assert (rem = 0) as -> by lia. elim Hmod; reflexivity.
Qed.

(** A message of at most one payload takes one iteration. *)
Lemma queue_data_loop_single heap buf len fifo :
  0 < len <= SLICE_SPI_MSG_PAYLOAD_SZ ->
  queue_data_loop (true :: true :: heap) buf len len fifo =
  (0, fifo ++ [make_packet buf len len]).
Proof.
  intros Hlen. cbn [queue_data_loop].
  replace (len >? 0) with true by (symmetry; apply Z.gtb_lt; lia).
  rewrite Z.min_l by lia.
  unfold size_sub. rewrite Z.sub_diag. rewrite Zmod_0_l.
  apply queue_data_loop_done.
Qed.

Lemma hdr_more_make_packet buf len rem :
  hdr_more (make_packet buf len rem) = (rem >? SLICE_SPI_MSG_PAYLOAD_SZ).
Proof.
  unfold make_packet, hdr_more. cbn [hdr_bits].
  destruct (rem >? SLICE_SPI_MSG_PAYLOAD_SZ); reflexivity.
Qed.

Lemma hdr_valid_make_packet buf len rem :
  hdr_valid (make_packet buf len rem) = true.
Proof.
  unfold make_packet, hdr_valid. cbn [hdr_bits].
  destruct (rem >? SLICE_SPI_MSG_PAYLOAD_SZ); reflexivity.
Qed.

(** A message whose length is a multiple of the payload size: with memory
    for k packets the loop runs k times and ends with 0. *)
Lemma queue_data_loop_aligned buf len heap :
  SLICE_SPI_MSG_PAYLOAD_SZ <= len ->
  forall (k : nat) fifo,
    SLICE_SPI_MSG_PAYLOAD_SZ * Z.of_nat k < size_t_modulus ->
    queue_data_loop (repeat true (2 * k) ++ heap) buf len
      (SLICE_SPI_MSG_PAYLOAD_SZ * Z.of_nat k) fifo =
    (0, fifo ++ aligned_packets buf len k).
Proof.
  intros Hlen. induction k as [|k IH]; intros fifo Hk.
  - simpl repeat. rewrite Z.mul_0_r, queue_data_loop_done, app_nil_r.
    reflexivity.
  - replace (2 * S k)%nat with (S (S (2 * k))) by lia.
    cbn [repeat app queue_data_loop].
    replace (SLICE_SPI_MSG_PAYLOAD_SZ * Z.of_nat (S k) >? 0) with true
      by (symmetry; apply Z.gtb_lt; unfold SLICE_SPI_MSG_PAYLOAD_SZ; lia).
    rewrite Z.min_r by exact Hlen.
    replace (size_sub (SLICE_SPI_MSG_PAYLOAD_SZ * Z.of_nat (S k))
               SLICE_SPI_MSG_PAYLOAD_SZ)
      with (SLICE_SPI_MSG_PAYLOAD_SZ * Z.of_nat k).
    + rewrite IH by (unfold SLICE_SPI_MSG_PAYLOAD_SZ in *; lia).
      unfold list_add. rewrite <- app_assoc. reflexivity.
    + unfold size_sub. symmetry.
      replace (SLICE_SPI_MSG_PAYLOAD_SZ * Z.of_nat (S k)
               - SLICE_SPI_MSG_PAYLOAD_SZ)
        with (SLICE_SPI_MSG_PAYLOAD_SZ * Z.of_nat k) by lia.
      apply Z.mod_small. unfold SLICE_SPI_MSG_PAYLOAD_SZ in *. lia.
Qed.

Lemma aligned_packets_length buf len k :
  length (aligned_packets buf len k) = k.
Proof. induction k; simpl; congruence. Qed.

Lemma aligned_packets_more buf len k :
  map hdr_more (aligned_packets buf len k) = more_pattern k.
Proof.
  induction k as [|k IH]; [reflexivity|].
  cbn [aligned_packets map]. rewrite IH, hdr_more_make_packet.
  unfold more_pattern. destruct k as [|k].
  - reflexivity.
  - replace (SLICE_SPI_MSG_PAYLOAD_SZ * Z.of_nat (S (S k))
             >? SLICE_SPI_MSG_PAYLOAD_SZ) with true
      by (symmetry; apply Z.gtb_lt; unfold SLICE_SPI_MSG_PAYLOAD_SZ; lia).
    simpl. rewrite Nat.sub_0_r. reflexivity.
Qed.

(** ** queue_data *)

Section QueueData.

Variable MAX_SZ : Z.

(** -E2BIG is returned exactly for a message longer than the maximum, and
    then nothing at all has changed. *)
Lemma queue_data_e2big w buf heap :
  (fst (queue_data MAX_SZ w buf heap) = - E2BIG <->
   Z.of_nat (length buf) > MAX_SZ) /\
  (Z.of_nat (length buf) > MAX_SZ ->
   snd (queue_data MAX_SZ w buf heap) = w).
Proof.
  unfold queue_data.
  destruct (Z.of_nat (length buf) >? MAX_SZ) eqn:E.
  - apply Z.gtb_lt in E. simpl. split; [split|]; intros; auto; lia.
  - assert (~ Z.of_nat (length buf) > MAX_SZ).
    { intros H. apply Z.gt_lt, Z.gtb_lt in H. congruence. }
    split; [split|]; try tauto.
    pose proof (queue_data_loop_rc heap buf (Z.of_nat (length buf))
                  (Z.of_nat (length buf)) (tx_fifo (priv w))) as Hrc.
    destruct (queue_data_loop _ _ _ _ _) as [rc fifo]. simpl in Hrc.
    destruct Hrc as [-> | ->]; simpl; discriminate.
Qed.

(** An allocation failure in the first iteration leaves the queue as it
    was. *)
Lemma queue_data_enomem_first w buf heap :
  0 < Z.of_nat (length buf) <= MAX_SZ ->
  (heap = [] \/ (exists h, heap = false :: h) \/ heap = [true] \/
   exists h, heap = true :: false :: h) ->
  queue_data MAX_SZ w buf heap = (- ENOMEM, w).
Proof.
  intros [Hpos Hle] Hheap. unfold queue_data.
  replace (Z.of_nat (length buf) >? MAX_SZ) with false
    by (symmetry; rewrite Z.gtb_ltb; apply Z.ltb_ge; lia).
  assert ((Z.of_nat (length buf) >? 0) = true) as Hgt
    by (apply Z.gtb_lt; lia).
  destruct Hheap as [-> | [[h ->] | [-> | [h ->]]]];
    cbn [queue_data_loop]; rewrite Hgt; simpl;
    destruct w as [[? ? ? ? ?] ? ? ? ? ?]; reflexivity.
Qed.

End QueueData.

(** C2: the code fails the claim on a 70-byte message.  The first three
    packets carry MORE = 1, 1, 0 as they should, but 32 is subtracted from
    the remaining 6 bytes: [remaining] wraps around and the loop goes on
    queueing packets until an allocation fails.  Whatever the allocator
    grants, queue_data returns -ENOMEM, never 0; with memory for five
    packets, five are queued. *)
Theorem queue_data_70_bytes_never_succeeds :
  forall (max_sz : Z) (w : world) (heap : list bool),
    70 <= max_sz ->
    fst (queue_data max_sz w msg70 heap) = - ENOMEM /\
    map hdr_more
        (tx_fifo (priv (snd (queue_data max_sz w msg70 (repeat true 10))))) =
    map hdr_more (tx_fifo (priv w)) ++ [true; true; false; true; true].
Proof.
  intros max_sz w heap Hmax.
  assert (Hrag : forall h,
             fst (queue_data max_sz w msg70 h) = - ENOMEM).
  { intros h. unfold queue_data.
    change (Z.of_nat (length msg70)) with 70.
    replace (70 >? max_sz) with false
      by (symmetry; rewrite Z.gtb_ltb; apply Z.ltb_ge; lia).
    pose proof (queue_data_loop_ragged h msg70 70) as Hr.
    specialize (Hr ltac:(unfold SLICE_SPI_MSG_PAYLOAD_SZ; lia)
                   70 (tx_fifo (priv w)) ltac:(lia)
                   ltac:(vm_compute; discriminate)).
    destruct (queue_data_loop _ _ _ _ _) as [rc fifo]. simpl in Hr.
    subst rc. reflexivity. }
  split; [apply Hrag|].
  unfold queue_data.
  change (Z.of_nat (length msg70)) with 70.
  replace (70 >? max_sz) with false
    by (symmetry; rewrite Z.gtb_ltb; apply Z.ltb_ge; lia).
  rewrite queue_data_loop_app.
  replace (queue_data_loop (repeat true 10) msg70 70 70 [])
    with (- ENOMEM,
          [make_packet msg70 70 70; make_packet msg70 70 38;
           make_packet msg70 70 6; make_packet msg70 70 4294967270;
           make_packet msg70 70 4294967238])
    by (vm_compute; reflexivity).
  cbn [fst snd]. change (- ENOMEM =? 0) with false. cbn [snd].
  cbn [priv upd_priv set_tx_fifo tx_fifo].
  rewrite map_app. reflexivity.
Qed.

Lemma queue_data_70_bytes_never_succeeds_witness :
  70 <= SAMPLE_MAX_SZ /\
  fst (queue_data SAMPLE_MAX_SZ (slice_dl_init SAMPLE_MAX_SZ true false)
         msg70 (repeat true 6)) = - ENOMEM.
Proof.
  split; [vm_compute; discriminate|].
  apply (queue_data_70_bytes_never_succeeds SAMPLE_MAX_SZ
           (slice_dl_init SAMPLE_MAX_SZ true false) (repeat true 6)).
  vm_compute; discriminate.
Defined.

(** Where the claim of C2 does hold: a message whose length is a multiple
    k*32 of the payload size, given memory for k packets, is queued as k
    packets behind the queue, MORE set on all but the last. *)
Lemma queue_data_aligned_fragments max_sz w buf (k : nat) heap :
  Z.of_nat (length buf) = SLICE_SPI_MSG_PAYLOAD_SZ * Z.of_nat k ->
  (0 < k)%nat ->
  Z.of_nat (length buf) <= max_sz ->
  Z.of_nat (length buf) < size_t_modulus ->
  let r := queue_data max_sz w buf (repeat true (2 * k) ++ heap) in
  let queued := aligned_packets buf (Z.of_nat (length buf)) k in
  fst r = 0 /\
  snd r = setup_exchange
            (upd_priv (set_tx_fifo (tx_fifo (priv w) ++ queued)) w) /\
  length queued = fragment_count (length buf) /\
  map hdr_more queued = more_pattern (fragment_count (length buf)).
Proof.
  intros Hlen Hk Hmax Hsz r queued.
  assert (Hcount : fragment_count (length buf) = k).
  { unfold fragment_count.
    assert (length buf = (k * PAYLOAD_SZ)%nat) as ->.
    { unfold SLICE_SPI_MSG_PAYLOAD_SZ in Hlen.
      change PAYLOAD_SZ with 32%nat. lia. }
    change PAYLOAD_SZ with 32%nat.
    replace (k * 32 + 32 - 1)%nat with (31 + k * 32)%nat by lia.
    rewrite Nat.div_add by lia. reflexivity. }
  assert (Hr : r = (0, setup_exchange
            (upd_priv (set_tx_fifo (tx_fifo (priv w) ++ queued)) w))).
  { unfold r, queue_data.
    replace (Z.of_nat (length buf) >? max_sz) with false
      by (symmetry; rewrite Z.gtb_ltb; apply Z.ltb_ge; lia).
    rewrite Hlen at 2.
    rewrite queue_data_loop_aligned.
    - reflexivity.
    - unfold SLICE_SPI_MSG_PAYLOAD_SZ in *. lia.
    - rewrite <- Hlen. exact Hsz. }
  rewrite Hr. cbn [fst snd]. repeat split.
  - unfold queued. rewrite aligned_packets_length. auto.
  - unfold queued. rewrite aligned_packets_more, Hcount. reflexivity.
Qed.

(** C4: the code fails the claim when an allocation fails after the first
    iteration.  A 64-byte message needs two packets; with memory for the
    first packet and its node but not for the node of the second,
    queue_data returns -ENOMEM and the first packet stays in the queue,
    MORE set, with no packet to end the message. *)
Theorem queue_data_enomem_partial_enqueue :
  forall (max_sz : Z) (w : world),
    64 <= max_sz ->
    queue_data max_sz w msg64 [true; true; true; false] =
    (- ENOMEM,
     upd_priv (set_tx_fifo (tx_fifo (priv w) ++ [make_packet msg64 64 64])) w)
    /\ hdr_more (make_packet msg64 64 64) = true.
Proof.
  intros max_sz w Hmax. split; [|reflexivity].
  unfold queue_data.
  change (Z.of_nat (length msg64)) with 64.
  replace (64 >? max_sz) with false
    by (symmetry; rewrite Z.gtb_ltb; apply Z.ltb_ge; lia).
  reflexivity.
Qed.

Lemma queue_data_enomem_partial_enqueue_witness :
  64 <= SAMPLE_MAX_SZ /\
  tx_fifo (priv (snd (queue_data SAMPLE_MAX_SZ
                        (slice_dl_init SAMPLE_MAX_SZ true false)
                        msg64 [true; true; true; false]))) =
  [make_packet msg64 64 64].
Proof.
  split; [vm_compute; discriminate|].
  destruct (queue_data_enomem_partial_enqueue SAMPLE_MAX_SZ
              (slice_dl_init SAMPLE_MAX_SZ true false)) as [H _].
  - vm_compute; discriminate.
  - rewrite H. reflexivity.
Defined.

(** C9, as stated, fails.  With one fragment queued and WAKE asserted, a
    send of length 0 returns 0, but its setup_exchange call takes the
    fragment from the queue. *)
Lemma queue_data_empty_send_dequeues :
  reachable SAMPLE_MAX_SZ w_queued /\
  ~ (fst (queue_data SAMPLE_MAX_SZ w_queued [] []) = 0 /\
     tx_fifo (priv (snd (queue_data SAMPLE_MAX_SZ w_queued [] []))) =
     tx_fifo (priv w_queued)).
Proof.
  split; [exact w_queued_reachable|].
  intros [_ H]. vm_compute in H. discriminate.
Qed.

(** C9, amended.  A queue_data call with len = 0 returns 0 and enqueues
    no frame, not even an empty one: it does exactly what setup_exchange
    does.  The queue afterwards is the queue before, or, when that call
    starts an exchange, the queue before without its head. *)
Theorem queue_data_empty_send :
  forall (max_sz : Z) (w : world) (heap : list bool),
    0 <= max_sz ->
    queue_data max_sz w [] heap = (0, setup_exchange w) /\
    (tx_fifo (priv (setup_exchange w)) = tx_fifo (priv w) \/
     tx_fifo (priv (setup_exchange w)) = tl (tx_fifo (priv w))).
Proof.
  intros max_sz w heap Hmax. split.
  - unfold queue_data. cbn [length Z.of_nat].
    replace (0 >? max_sz) with false
      by (symmetry; rewrite Z.gtb_ltb; apply Z.ltb_ge; lia).
    rewrite queue_data_loop_done. cbn [Z.eqb].
    destruct w as [[? ? ? ? ?] ? ? ? ? ?]; reflexivity.
  - unfold setup_exchange. cbn [gpio_get_value gpio_set_value].
    destruct (gpio_rdy_n w), (gpio_wake_n w); simpl; auto.
    destruct (tx_fifo (priv w)) eqn:Ef; simpl; rewrite ?Ef; auto.
Qed.

Lemma queue_data_empty_send_witness :
  0 <= SAMPLE_MAX_SZ /\
  queue_data SAMPLE_MAX_SZ w_queued [] [] = (0, setup_exchange w_queued).
Proof.
  split; [vm_compute; discriminate|].
  apply (queue_data_empty_send SAMPLE_MAX_SZ w_queued []).
  vm_compute; discriminate.
Defined.

(** ** The reassembler, one frame at a time *)

Lemma rcvd_state_setup_exchange w :
  rcvd_state (setup_exchange w) = rcvd_state w.
Proof.
  destruct (setup_exchange_rcvd w) as (H1 & H2 & H3 & _).
  unfold rcvd_state. rewrite H1, H2, H3. reflexivity.
Qed.

Section Reassembler.

Variable MAX_SZ : Z.

(** A dummy frame, or any frame once the cursor has reached the capacity,
    is dropped. *)
Lemma txn_finished_cb_drop w :
  hdr_valid (rx_buf (priv w)) = false \/
  rcvd_payload_idx (priv w) >= MAX_SZ ->
  exists w',
    txn_finished_cb MAX_SZ w = Some w' /\ rcvd_state w' = rcvd_state w.
Proof.
  intros H. unfold txn_finished_cb.
  cbn [priv upd_priv gpio_set_value set_rdy_n set_tx_buf rx_buf rcvd_payload
       rcvd_payload_idx].
  destruct (hdr_valid (rx_buf (priv w))) eqn:Ev; cbn [negb].
  - destruct H as [H | H]; [discriminate|].
    replace (rcvd_payload_idx (priv w) >=? MAX_SZ) with true
      by (symmetry; apply Z.geb_le; lia).
    eexists; split; [reflexivity|].
    rewrite rcvd_state_setup_exchange. reflexivity.
  - eexists; split; [reflexivity|].
    rewrite rcvd_state_setup_exchange. reflexivity.
Qed.

(** A valid frame below the capacity is copied to the cursor. *)
Lemma txn_finished_cb_accept w :
  hdr_valid (rx_buf (priv w)) = true ->
  msg_wf (rx_buf (priv w)) ->
  0 <= rcvd_payload_idx (priv w) < MAX_SZ ->
  (Z.to_nat (rcvd_payload_idx (priv w)) + PAYLOAD_SZ
   <= length (rcvd_payload (priv w)))%nat ->
  let buf := blit (rcvd_payload (priv w))
                  (Z.to_nat (rcvd_payload_idx (priv w)))
                  (data (rx_buf (priv w))) PAYLOAD_SZ in
  let idx := rcvd_payload_idx (priv w) + SLICE_SPI_MSG_PAYLOAD_SZ in
  exists w',
    txn_finished_cb MAX_SZ w = Some w' /\
    rcvd_state w' =
    if hdr_more (rx_buf (priv w))
    then (buf, idx, recv_log w)
    else (blit buf 0 (repeat 0 PAYLOAD_SZ) PAYLOAD_SZ, 0,
          recv_log w ++ [firstn (Z.to_nat idx) buf]).
Proof.
  intros Hv Hwf Hidx Hlen buf idx. unfold txn_finished_cb.
  cbn [priv upd_priv gpio_set_value set_rdy_n set_tx_buf rx_buf rcvd_payload
       rcvd_payload_idx].
  rewrite Hv. cbn [negb].
  replace (rcvd_payload_idx (priv w) >=? MAX_SZ) with false
    by (symmetry; rewrite Z.geb_leb; apply Z.leb_gt; lia).
  rewrite memcpy_in_bounds by (try exact Hlen; rewrite Hwf; lia).
  fold buf. fold idx.
  destruct (hdr_more (rx_buf (priv w))).
  - eexists; split; [reflexivity|].
    rewrite rcvd_state_setup_exchange. reflexivity.
  - unfold memset0.
    rewrite memcpy_in_bounds.
    + eexists; split; [reflexivity|].
      rewrite rcvd_state_setup_exchange. reflexivity.
    + unfold buf. rewrite blit_length by (try exact Hlen; rewrite Hwf; lia).
      lia.
    + rewrite repeat_length. lia.
Qed.

(** Whatever the callback returns, the buffer keeps its size, and the
    cursor stays, advances by one payload from below the capacity, or
    returns to 0. *)
Lemma txn_finished_cb_cursor w w' :
  txn_finished_cb MAX_SZ w = Some w' ->
  length (rcvd_payload (priv w')) = length (rcvd_payload (priv w)) /\
  (rcvd_payload_idx (priv w') = rcvd_payload_idx (priv w) \/
   rcvd_payload_idx (priv w) < MAX_SZ /\
   rcvd_payload_idx (priv w') =
   rcvd_payload_idx (priv w) + SLICE_SPI_MSG_PAYLOAD_SZ \/
   rcvd_payload_idx (priv w') = 0).
Proof.
  unfold txn_finished_cb.
  cbn [priv upd_priv gpio_set_value set_rdy_n set_tx_buf rx_buf rcvd_payload
       rcvd_payload_idx].
  destruct (negb (hdr_valid (rx_buf (priv w)))).
  { intros H; inversion H.
    match goal with |- context [setup_exchange ?x] =>
      destruct (setup_exchange_rcvd x) as (-> & -> & _) end.
    auto. }
  destruct (rcvd_payload_idx (priv w) >=? MAX_SZ) eqn:Ege.
  { intros H; inversion H.
    match goal with |- context [setup_exchange ?x] =>
      destruct (setup_exchange_rcvd x) as (-> & -> & _) end.
    auto. }
  assert (Hlt : rcvd_payload_idx (priv w) < MAX_SZ).
  { rewrite Z.geb_leb in Ege. apply Z.leb_gt in Ege. exact Ege. }
  destruct (memcpy _ _ _ _) as [buf|] eqn:Em; [|discriminate].
  apply memcpy_Some in Em. destruct Em as (Hd & Hs & ->).
  destruct (hdr_more (rx_buf (priv w))).
  - intros H; inversion H.
    match goal with |- context [setup_exchange ?x] =>
      destruct (setup_exchange_rcvd x) as (-> & -> & _) end.
    cbn [priv upd_priv set_rcvd rcvd_payload rcvd_payload_idx].
    rewrite blit_length by assumption. auto.
  - destruct (memset0 _ _) as [buf0|] eqn:Ez; [|discriminate].
    apply memcpy_Some in Ez. destruct Ez as (Hd0 & Hs0 & ->).
    intros H; inversion H.
    match goal with |- context [setup_exchange ?x] =>
      destruct (setup_exchange_rcvd x) as (-> & -> & _) end.
    cbn [priv upd_priv set_rcvd cb_recv rcvd_payload rcvd_payload_idx].
    rewrite !blit_length by assumption. auto.
Qed.

Lemma txn_finished_cb_reasm_inv w w' :
  txn_finished_cb MAX_SZ w = Some w' ->
  reasm_inv MAX_SZ w -> reasm_inv MAX_SZ w'.
Proof.
  intros Hcb [Hlen (k & Hk & Hidx)].
  destruct (txn_finished_cb_cursor _ _ Hcb) as [Hl Hc].
  split; [congruence|].
  destruct Hc as [Hc | [[_ Hc] | Hc]]; rewrite Hc.
  - exists k. auto.
  - exists (k + 1). split; [lia|]. rewrite Hidx. ring.
  - exists 0. split; [lia|]. ring.
Qed.

(** With a capacity that is a multiple of the payload size, a cursor within
    the capacity stays within it. *)
Lemma txn_finished_cb_bounded w w' :
  txn_finished_cb MAX_SZ w = Some w' ->
  0 <= MAX_SZ -> (SLICE_SPI_MSG_PAYLOAD_SZ | MAX_SZ) ->
  reasm_inv MAX_SZ w ->
  rcvd_payload_idx (priv w) <= MAX_SZ ->
  rcvd_payload_idx (priv w') <= MAX_SZ.
Proof.
  intros Hcb Hmax [n Hn] [Hlen (k & Hk & Hidx)] Hle.
  destruct (txn_finished_cb_cursor _ _ Hcb) as [_ Hc].
  destruct Hc as [Hc | [[Hlt Hc] | Hc]]; rewrite Hc.
  - exact Hle.
  - unfold SLICE_SPI_MSG_PAYLOAD_SZ in *. lia.
  - exact Hmax.
Qed.

(** The other triggers do not touch the receive side. *)
Lemma rcvd_state_queue_data w buf heap :
  rcvd_state (snd (queue_data MAX_SZ w buf heap)) = rcvd_state w.
Proof.
  unfold queue_data.
  destruct (Z.of_nat (length buf) >? MAX_SZ); [reflexivity|].
  destruct (queue_data_loop _ _ _ _ _) as [rc fifo].
  destruct (rc =? 0); simpl;
    rewrite ?rcvd_state_setup_exchange; reflexivity.
Qed.

Lemma rcvd_state_attach_cb w attached :
  rcvd_state (attach_cb w attached) = rcvd_state w.
Proof. destruct attached; reflexivity. Qed.

(** The cursor of a reachable state: on a payload boundary, and within a
    capacity that is a multiple of the payload size. *)
Lemma reachable_reasm_inv w :
  reachable MAX_SZ w ->
  reasm_inv MAX_SZ w /\
  (0 <= MAX_SZ -> (SLICE_SPI_MSG_PAYLOAD_SZ | MAX_SZ) ->
   rcvd_payload_idx (priv w) <= MAX_SZ).
Proof.
  assert (Hframe : forall w1 w2, rcvd_state w2 = rcvd_state w1 ->
            (reasm_inv MAX_SZ w1 /\
             (0 <= MAX_SZ -> (SLICE_SPI_MSG_PAYLOAD_SZ | MAX_SZ) ->
              rcvd_payload_idx (priv w1) <= MAX_SZ)) ->
            reasm_inv MAX_SZ w2 /\
            (0 <= MAX_SZ -> (SLICE_SPI_MSG_PAYLOAD_SZ | MAX_SZ) ->
             rcvd_payload_idx (priv w2) <= MAX_SZ)).
  { intros w1 w2 H. unfold rcvd_state in H. inversion H as [[Hb Hi Hl]].
    unfold reasm_inv. rewrite Hb, Hi. auto. }
  induction 1 as [wake_n int_level | w w' _ IH Hs].
  - split.
    + split; [apply repeat_length|]. exists 0. split; [lia|reflexivity].
    + intros H _. exact H.
  - destruct Hs.
    + eapply Hframe; [apply rcvd_state_queue_data | exact IH].
    + eapply Hframe; [|exact IH]. reflexivity.
    + eapply Hframe; [apply rcvd_state_setup_exchange | exact IH].
    + eapply Hframe; [|exact IH]. reflexivity.
    + unfold spi_complete in H0.
      destruct (spi_armed w) as [|tx rest]; [discriminate|].
      destruct IH as [IH1 IH2].
      split.
      * eapply txn_finished_cb_reasm_inv; [exact H0 | exact IH1].
      * intros Hmax Hdiv.
        eapply txn_finished_cb_bounded; eauto.
    + eapply Hframe; [apply rcvd_state_attach_cb | exact IH].
Qed.

End Reassembler.

(** ** The reassembler over frame sequences *)

Lemma Forall_firstn {A : Type} (P : A -> Prop) (n : nat) (l : list A) :
  Forall P l -> Forall P (firstn n l).
Proof.
  revert l. induction n as [|n IH]; intros l H; [constructor|].
  destruct H; simpl; constructor; auto.
Qed.

Lemma Forall_removelast {A : Type} (P : A -> Prop) (l : list A) :
  Forall P l -> Forall P (removelast l).
Proof.
  induction 1 as [|x l Hx Hl IH]; [constructor|].
  destruct l; simpl; [constructor|]. constructor; assumption.
Qed.

Section Sequences.

Variable MAX_SZ : Z.

Lemma rx_frames_app w fs1 fs2 :
  rx_frames MAX_SZ w (fs1 ++ fs2) =
  match rx_frames MAX_SZ w fs1 with
  | Some w1 => rx_frames MAX_SZ w1 fs2
  | None => None
  end.
Proof.
  revert w. induction fs1 as [|m fs1 IH]; intros w; [reflexivity|].
  cbn [rx_frames app].
  destruct (txn_finished_cb MAX_SZ (upd_priv (set_rx_buf m) w)); auto.
Qed.

(** Once the cursor has reached the capacity every frame is dropped,
    whatever its MORE bit: the receive side never changes again. *)
Lemma rx_frames_wedged frames :
  forall w,
    rcvd_payload_idx (priv w) >= MAX_SZ ->
    exists w',
      rx_frames MAX_SZ w frames = Some w' /\ rcvd_state w' = rcvd_state w.
Proof.
  induction frames as [|m frames IH]; intros w Hge.
  - exists w. auto.
  - cbn [rx_frames].
    destruct (txn_finished_cb_drop MAX_SZ (upd_priv (set_rx_buf m) w))
      as (w1 & -> & H1); [right; exact Hge|].
    change (rcvd_state (upd_priv (set_rx_buf m) w)) with (rcvd_state w) in H1.
    destruct (IH w1) as (w' & Hrx & H').
    + unfold rcvd_state in H1. inversion H1 as [[Hb Hi Hl]].
      rewrite Hi. exact Hge.
    + exists w'. split; [exact Hrx|]. congruence.
Qed.

(** Fragments with MORE set that fit the buffer pile up from the cursor
    on; nothing is delivered. *)
Lemma rx_frames_pending fs :
  forall w k,
    Forall msg_wf fs ->
    Forall (fun m => hdr_valid m = true) fs ->
    Forall (fun m => hdr_more m = true) fs ->
    length (rcvd_payload (priv w)) = Z.to_nat MAX_SZ ->
    0 <= k ->
    rcvd_payload_idx (priv w) = SLICE_SPI_MSG_PAYLOAD_SZ * k ->
    SLICE_SPI_MSG_PAYLOAD_SZ * (k + Z.of_nat (length fs)) <= MAX_SZ ->
    exists w',
      rx_frames MAX_SZ w fs = Some w' /\
      recv_log w' = recv_log w /\
      rcvd_payload_idx (priv w') =
        SLICE_SPI_MSG_PAYLOAD_SZ * (k + Z.of_nat (length fs)) /\
      length (rcvd_payload (priv w')) = Z.to_nat MAX_SZ /\
      firstn (Z.to_nat (rcvd_payload_idx (priv w'))) (rcvd_payload (priv w')) =
      firstn (Z.to_nat (rcvd_payload_idx (priv w))) (rcvd_payload (priv w))
        ++ concat (map data fs).
Proof.
  induction fs as [|m fs IH]; intros w k Hwf Hv Hm Hlen Hk Hidx Hfit.
  - exists w. cbn [length Z.of_nat map concat rx_frames].
    rewrite Z.add_0_r, app_nil_r. auto.
  - inversion Hwf as [|? ? Hwf1 Hwf2]; subst.
    inversion Hv as [|? ? Hv1 Hv2]; subst.
    inversion Hm as [|? ? Hm1 Hm2]; subst.
    cbn [length] in Hfit. unfold SLICE_SPI_MSG_PAYLOAD_SZ in *.
    cbn [rx_frames].
    destruct (txn_finished_cb_accept MAX_SZ (upd_priv (set_rx_buf m) w))
      as (w1 & -> & H1);
      cbn [priv upd_priv set_rx_buf rx_buf rcvd_payload rcvd_payload_idx];
      try assumption.
    { unfold SLICE_SPI_MSG_PAYLOAD_SZ. lia. }
    { rewrite Hlen, Hidx. change PAYLOAD_SZ with 32%nat. lia. }
    cbn [priv upd_priv set_rx_buf rx_buf rcvd_payload rcvd_payload_idx
         recv_log] in H1.
    rewrite Hm1 in H1. unfold rcvd_state in H1.
    inversion H1 as [[Hb Hi Hl]].
    destruct (IH w1 (k + 1)) as (w' & Hrx & Hlog & Hidx' & Hlen' & Hpre);
      try assumption.
    { rewrite Hb. rewrite blit_length; [exact Hlen| |].
      - rewrite Hlen, Hidx. change PAYLOAD_SZ with 32%nat. lia.
      - rewrite Hwf1. lia. }
    { lia. }
    { rewrite Hi, Hidx. unfold SLICE_SPI_MSG_PAYLOAD_SZ. ring. }
    { lia. }
    exists w'. split; [exact Hrx|]. split; [congruence|].
    split; [rewrite Hidx'; cbn [length]; lia|].
    split; [exact Hlen'|].
    rewrite Hpre, Hi, Hb.
    replace (Z.to_nat (rcvd_payload_idx (priv w) + SLICE_SPI_MSG_PAYLOAD_SZ))
      with (Z.to_nat (rcvd_payload_idx (priv w)) + PAYLOAD_SZ)%nat
      by (rewrite Hidx; unfold SLICE_SPI_MSG_PAYLOAD_SZ;
          change PAYLOAD_SZ with 32%nat; lia).
    rewrite blit_firstn.
    + rewrite (firstn_all2 (data m)) by (unfold msg_wf in Hwf1; lia).
      cbn [map concat]. rewrite <- app_assoc. reflexivity.
    + rewrite Hlen, Hidx. change PAYLOAD_SZ with 32%nat. lia.
    + rewrite Hwf1. lia.
Qed.

(** The fragment without MORE, if it fits, completes the message: what has
    piled up and this payload are delivered, and the cursor returns to 0. *)
Lemma rx_frames_deliver m :
  forall w k,
    msg_wf m -> hdr_valid m = true -> hdr_more m = false ->
    length (rcvd_payload (priv w)) = Z.to_nat MAX_SZ ->
    0 <= k ->
    rcvd_payload_idx (priv w) = SLICE_SPI_MSG_PAYLOAD_SZ * k ->
    SLICE_SPI_MSG_PAYLOAD_SZ * (k + 1) <= MAX_SZ ->
    exists w',
      rx_frames MAX_SZ w [m] = Some w' /\
      recv_log w' =
        recv_log w ++
        [firstn (Z.to_nat (rcvd_payload_idx (priv w))) (rcvd_payload (priv w))
           ++ data m] /\
      rcvd_payload_idx (priv w') = 0 /\
      length (rcvd_payload (priv w')) = Z.to_nat MAX_SZ.
Proof.
  intros w k Hwf Hv Hm Hlen Hk Hidx Hfit.
  unfold SLICE_SPI_MSG_PAYLOAD_SZ in *. cbn [rx_frames].
  assert (Hroom : (Z.to_nat (rcvd_payload_idx (priv w)) + PAYLOAD_SZ
                   <= length (rcvd_payload (priv w)))%nat).
  { rewrite Hlen, Hidx. change PAYLOAD_SZ with 32%nat. lia. }
  destruct (txn_finished_cb_accept MAX_SZ (upd_priv (set_rx_buf m) w))
    as (w1 & -> & H1);
    cbn [priv upd_priv set_rx_buf rx_buf rcvd_payload rcvd_payload_idx];
    try assumption.
  { unfold SLICE_SPI_MSG_PAYLOAD_SZ. lia. }
  cbn [priv upd_priv set_rx_buf rx_buf rcvd_payload rcvd_payload_idx
       recv_log] in H1.
  rewrite Hm in H1. unfold rcvd_state in H1.
  injection H1 as Hb Hi Hl.
  exists w1. split; [reflexivity|].
  rewrite Hl, Hi, Hb.
  replace (Z.to_nat (rcvd_payload_idx (priv w) + SLICE_SPI_MSG_PAYLOAD_SZ))
    with (Z.to_nat (rcvd_payload_idx (priv w)) + PAYLOAD_SZ)%nat
    by (rewrite Hidx; unfold SLICE_SPI_MSG_PAYLOAD_SZ;
        change PAYLOAD_SZ with 32%nat; lia).
  unfold msg_wf in Hwf.
  rewrite blit_firstn by (try exact Hroom; lia).
  rewrite (firstn_all2 (data m)) by lia.
  split; [reflexivity|]. split; [reflexivity|].
  assert (Hl1 : length (blit (rcvd_payload (priv w))
                          (Z.to_nat (rcvd_payload_idx (priv w)))
                          (data m) PAYLOAD_SZ) = Z.to_nat MAX_SZ).
  { rewrite blit_length by (try exact Hroom; lia). exact Hlen. }
  rewrite blit_length; [exact Hl1| |].
  - rewrite Hl1. rewrite Hlen in Hroom. lia.
  - apply Nat.leb_le. reflexivity.
Qed.

End Sequences.

(** ** Overflow *)

Section Overflow.

Variable MAX_SZ : Z.
Hypothesis MAX_aligned : (SLICE_SPI_MSG_PAYLOAD_SZ | MAX_SZ).

(** Fragments of one message that either all carry MORE or, together with
    what the buffer holds, exceed the capacity: every copy stays inside
    the buffer and nothing is delivered. *)
Lemma rx_frames_no_delivery frames :
  forall w k,
    Forall msg_wf frames ->
    Forall (fun m => hdr_valid m = true) frames ->
    Forall (fun m => hdr_more m = true) (removelast frames) ->
    length (rcvd_payload (priv w)) = Z.to_nat MAX_SZ ->
    0 <= k ->
    rcvd_payload_idx (priv w) = SLICE_SPI_MSG_PAYLOAD_SZ * k ->
    SLICE_SPI_MSG_PAYLOAD_SZ * k <= MAX_SZ ->
    SLICE_SPI_MSG_PAYLOAD_SZ * (k + Z.of_nat (length frames)) > MAX_SZ \/
    Forall (fun m => hdr_more m = true) frames ->
    exists w',
      rx_frames MAX_SZ w frames = Some w' /\
      recv_log w' = recv_log w /\
      length (rcvd_payload (priv w')) = Z.to_nat MAX_SZ /\
      0 <= rcvd_payload_idx (priv w') <= MAX_SZ.
Proof.
  pose proof MAX_aligned as [n Hn].
  induction frames as [|m rest IH];
    intros w k Hwf Hv Hm Hlen Hk Hidx Hle Hover.
  { exists w. unfold SLICE_SPI_MSG_PAYLOAD_SZ in *. cbn [rx_frames].
    repeat split; auto; lia. }
  destruct (Z_lt_ge_dec (rcvd_payload_idx (priv w)) MAX_SZ) as [Hlt | Hge].
  2:{ destruct (rx_frames_wedged MAX_SZ (m :: rest) w Hge) as (w' & Hrx & Hst).
      exists w'. unfold rcvd_state in Hst. injection Hst as Hb Hi Hl.
      rewrite Hb, Hi, Hl. unfold SLICE_SPI_MSG_PAYLOAD_SZ in *.
      repeat split; auto; lia. }
  pose proof (Forall_inv Hwf) as Hwf1.
  pose proof (Forall_inv_tail Hwf) as Hwf2.
  pose proof (Forall_inv Hv) as Hv1.
  pose proof (Forall_inv_tail Hv) as Hv2.
  assert (Hroom : SLICE_SPI_MSG_PAYLOAD_SZ * (k + 1) <= MAX_SZ)
    by (unfold SLICE_SPI_MSG_PAYLOAD_SZ in *; lia).
  assert (Hm1 : hdr_more m = true).
  { destruct rest as [|m2 rest].
    - destruct Hover as [Hover | Hall].
      + cbn [length] in Hover. unfold SLICE_SPI_MSG_PAYLOAD_SZ in *. lia.
      + inversion Hall; assumption.
    - cbn [removelast] in Hm. inversion Hm; assumption. }
  destruct (rx_frames_pending MAX_SZ [m] w k) as (w1 & Hrx1 & Hl1 & Hi1 & Hb1 & _);
    auto.
  change (m :: rest) with ([m] ++ rest). rewrite rx_frames_app, Hrx1.
  cbn [length] in Hi1.
  assert (Hm' : Forall (fun m => hdr_more m = true) (removelast rest)).
  { destruct rest as [|m2 rest]; [constructor|].
    cbn [removelast] in Hm. inversion Hm; assumption. }
  assert (Hover' :
    SLICE_SPI_MSG_PAYLOAD_SZ * (k + 1 + Z.of_nat (length rest)) > MAX_SZ \/
    Forall (fun m => hdr_more m = true) rest).
  { destruct Hover as [Hover | Hall].
    - left. cbn [length] in Hover. lia.
    - right. inversion Hall; assumption. }
  destruct (IH w1 (k + 1) Hwf2 Hv2 Hm' Hb1 ltac:(lia) Hi1 Hroom Hover')
    as (w' & Hrx & Hl & Hb & Hi).
  exists w'. repeat split; auto; try lia. congruence.
Qed.

End Overflow.

(** C5, amended.  With a capacity that is a non-negative multiple of the
    payload size: when the valid frames of one message (MORE set on all frames
    before the last), added to what the buffer already holds, exceed
    SLICE_DL_PAYLOAD_MAX_SZ, then after any number n of these frames the
    callback has returned every time without a copy leaving the buffer,
    the buffer has its size, the cursor is within the capacity, and
    nothing has been passed to the recv callback. *)
Theorem reassembly_overflow_never_delivered :
  forall (max_sz : Z) (w : world) (frames : list slice_spi_msg) (n : nat),
    0 <= max_sz ->
    (SLICE_SPI_MSG_PAYLOAD_SZ | max_sz) ->
    reasm_inv max_sz w ->
    rcvd_payload_idx (priv w) <= max_sz ->
    message_frames frames ->
    rcvd_payload_idx (priv w)
      + SLICE_SPI_MSG_PAYLOAD_SZ * Z.of_nat (length frames) > max_sz ->
    exists w',
      rx_frames max_sz w (firstn n frames) = Some w' /\
      recv_log w' = recv_log w /\
      length (rcvd_payload (priv w')) = Z.to_nat max_sz /\
      0 <= rcvd_payload_idx (priv w') <= max_sz.
Proof.
  intros max_sz w frames n Hmax Hal [Hlen (k & Hk & Hidx)] Hle
         (Hwf & Hv & Hm) Hover.
  apply rx_frames_no_delivery with (k := k); auto.
  - apply Forall_firstn; assumption.
  - apply Forall_firstn; assumption.
  - destruct (Nat.lt_ge_cases n (length frames)) as [Hn | Hn].
    + apply Forall_removelast.
      rewrite <- firstn_removelast by exact Hn.
      apply Forall_firstn; assumption.
    + rewrite firstn_all2 by exact Hn. exact Hm.
  - rewrite <- Hidx. exact Hle.
  - destruct (Nat.lt_ge_cases n (length frames)) as [Hn | Hn].
    + right. rewrite <- firstn_removelast by exact Hn.
      apply Forall_firstn; assumption.
    + left. rewrite firstn_all2 by exact Hn.
      rewrite Z.mul_add_distr_l, <- Hidx. exact Hover.
Qed.

Lemma reassembly_overflow_never_delivered_witness :
  let d := bytes_from 0 32 in
  exists w',
    rx_frames 64 (slice_dl_init 64 true false)
      (firstn 3 [rx_fragment true d; rx_fragment true d; rx_fragment false d])
    = Some w' /\
    recv_log w' = recv_log (slice_dl_init 64 true false) /\
    length (rcvd_payload (priv w')) = Z.to_nat 64 /\
    0 <= rcvd_payload_idx (priv w') <= 64.
Proof.
  intros d.
  apply (reassembly_overflow_never_delivered 64 (slice_dl_init 64 true false)
           [rx_fragment true d; rx_fragment true d; rx_fragment false d] 3).
  - lia.
  - exists 2. reflexivity.
  - split; [reflexivity|]. exists 0. split; [lia|reflexivity].
  - simpl. lia.
  - repeat split; repeat constructor.
  - simpl. lia.
Defined.

(** The proviso on the capacity is needed: with a capacity of 48 bytes
    the second fragment of a message is copied to bytes 32..63 and leaves
    the buffer. *)
Lemma txn_finished_cb_unaligned_capacity :
  let d := bytes_from 0 32 in
  rx_frames 48 (slice_dl_init 48 true false) [rx_fragment true d] <> None /\
  rx_frames 48 (slice_dl_init 48 true false)
    [rx_fragment true d; rx_fragment true d] = None.
Proof. split; [discriminate|reflexivity]. Qed.

(** C5, as stated, fails.  The claim makes no assumption on the capacity.
    With a capacity of 48 bytes and an empty reassembler, a message of two
    valid frames (64 bytes) exceeds the capacity; the cursor is 32 < 48
    when the second frame arrives, so the capacity test lets it through
    and its 32 bytes are copied to bytes 32..63, past the buffer. *)
Lemma reassembly_overflow_unaligned_capacity :
  let d := bytes_from 0 32 in
  let w := slice_dl_init 48 true false in
  let frames := [rx_fragment true d; rx_fragment false d] in
  reasm_inv 48 w /\
  rcvd_payload_idx (priv w) <= 48 /\
  message_frames frames /\
  rcvd_payload_idx (priv w)
    + SLICE_SPI_MSG_PAYLOAD_SZ * Z.of_nat (length frames) > 48 /\
  ~ (exists w',
       rx_frames 48 w (firstn 2 frames) = Some w' /\
       recv_log w' = recv_log w /\
       length (rcvd_payload (priv w')) = Z.to_nat 48 /\
       0 <= rcvd_payload_idx (priv w') <= 48).
Proof.
  intros d w frames.
  split; [split; [reflexivity | exists 0; split; [lia | reflexivity]]|].
  split; [simpl; lia|].
  split; [repeat split; repeat constructor|].
  split; [simpl; lia|].
  intros (w' & H & _). vm_compute in H. discriminate.
Qed.

(** C6: the code fails the claim.  Take a capacity of n payloads and a
    message of more than n fragments.  The first n fragments fill the
    buffer; from then on the callback leaves at the capacity test, before
    it looks at MORE, so the fragment that ends the message resets
    nothing, and neither does anything that follows: the cursor stays at
    the capacity and no later message is ever delivered. *)
Theorem reassembly_stuck_after_overflow :
  forall (n : nat) (d : list Z) (later : list slice_spi_msg)
         (wake_n int_level : bool),
    length d = PAYLOAD_SZ ->
    let max_sz := SLICE_SPI_MSG_PAYLOAD_SZ * Z.of_nat n in
    exists w',
      rx_frames max_sz (slice_dl_init max_sz wake_n int_level)
        (repeat (rx_fragment true d) n ++ rx_fragment false d :: later)
      = Some w' /\
      recv_log w' = [] /\
      rcvd_payload_idx (priv w') = max_sz.
Proof.
  intros n d later wake_n int_level Hd max_sz.
  rewrite rx_frames_app.
  destruct (rx_frames_pending max_sz (repeat (rx_fragment true d) n)
              (slice_dl_init max_sz wake_n int_level) 0)
    as (w1 & -> & Hl1 & Hi1 & _).
  - apply Forall_forall. intros m Hm. apply repeat_spec in Hm. subst m.
    exact Hd.
  - apply Forall_forall. intros m Hm. apply repeat_spec in Hm. subst m.
    reflexivity.
  - apply Forall_forall. intros m Hm. apply repeat_spec in Hm. subst m.
    reflexivity.
  - apply repeat_length.
  - lia.
  - reflexivity.
  - rewrite repeat_length. unfold max_sz. lia.
  - rewrite repeat_length in Hi1.
    destruct (rx_frames_wedged max_sz (rx_fragment false d :: later) w1)
      as (w' & Hrx & Hst).
    + rewrite Hi1. unfold max_sz. lia.
    + exists w'. unfold rcvd_state in Hst. injection Hst as _ Hi Hl.
      split; [exact Hrx|]. split.
      * rewrite Hl, Hl1. reflexivity.
      * rewrite Hi, Hi1. unfold max_sz. f_equal.
Qed.

Lemma reassembly_stuck_after_overflow_witness :
  let d := bytes_from 0 32 in
  exists w',
    rx_frames 64 (slice_dl_init 64 true false)
      (repeat (rx_fragment true d) 2 ++
       rx_fragment false d :: [rx_fragment false d])
    = Some w' /\
    recv_log w' = [] /\
    rcvd_payload_idx (priv w') = 64.
Proof.
  intros d.
  apply (reassembly_stuck_after_overflow 2 d [rx_fragment false d]
           true false).
  reflexivity.
Defined.

(** ** Detach in the middle of a message *)

(** C8: the code fails the claim.  The detach branch of attach_cb
    cancels the exchange and frees the queued packets, and that is all of
    its cleanup: the reassembly buffer and its cursor, tx_buf and the RDY
    line are left as they were.  So when the detach comes after k > 0
    fragments of an unfinished message, the cursor is still 32 k after the
    re-attach, not zero, and the first message received then (one frame,
    MORE clear) is handed to the recv callback with the k stale fragments
    in front of its payload. *)
Theorem attach_cb_detach_keeps_stale_fragments :
  forall (max_sz : Z) (w : world) (k : Z) (m : slice_spi_msg),
    length (rcvd_payload (priv w)) = Z.to_nat max_sz ->
    0 < k ->
    rcvd_payload_idx (priv w) = SLICE_SPI_MSG_PAYLOAD_SZ * k ->
    SLICE_SPI_MSG_PAYLOAD_SZ * (k + 1) <= max_sz ->
    msg_wf m -> hdr_valid m = true -> hdr_more m = false ->
    let w1 := attach_cb (attach_cb w false) true in
    tx_fifo (priv w1) = [] /\
    spi_armed w1 = [] /\
    rcvd_payload_idx (priv w1) = SLICE_SPI_MSG_PAYLOAD_SZ * k /\
    rcvd_payload_idx (priv w1) <> 0 /\
    rcvd_payload (priv w1) = rcvd_payload (priv w) /\
    tx_buf (priv w1) = tx_buf (priv w) /\
    gpio_rdy_n w1 = gpio_rdy_n w /\
    exists w',
      rx_frames max_sz w1 [m] = Some w' /\
      recv_log w' =
        recv_log w ++
        [firstn (Z.to_nat (SLICE_SPI_MSG_PAYLOAD_SZ * k))
                (rcvd_payload (priv w)) ++ data m] /\
      Z.of_nat (length (firstn (Z.to_nat (SLICE_SPI_MSG_PAYLOAD_SZ * k))
                               (rcvd_payload (priv w)) ++ data m)) =
        SLICE_SPI_MSG_PAYLOAD_SZ * (k + 1).
Proof.
  intros max_sz w k m Hlen Hk Hidx Hfit Hwf Hv Hm w1.
  assert (Hst : rcvd_state w1 = rcvd_state w) by reflexivity.
  split; [reflexivity|]. split; [reflexivity|].
  split; [exact Hidx|].
  split; [change (rcvd_payload_idx (priv w1))
            with (rcvd_payload_idx (priv w)); rewrite Hidx;
          unfold SLICE_SPI_MSG_PAYLOAD_SZ; lia|].
  split; [reflexivity|]. split; [reflexivity|]. split; [reflexivity|].
  destruct (rx_frames_deliver max_sz m w1 k Hwf Hv Hm Hlen ltac:(lia) Hidx Hfit)
    as (w' & Hrx & Hlog & _).
  exists w'. split; [exact Hrx|].
  change (rcvd_payload_idx (priv w1)) with (rcvd_payload_idx (priv w)) in Hlog.
  change (rcvd_payload (priv w1)) with (rcvd_payload (priv w)) in Hlog.
  change (recv_log w1) with (recv_log w) in Hlog.
  rewrite Hidx in Hlog. split; [exact Hlog|].
  rewrite length_app, length_firstn, Hlen, Hwf.
  change PAYLOAD_SZ with 32%nat. unfold SLICE_SPI_MSG_PAYLOAD_SZ in *. lia.
Qed.

(** The first fragment (bytes 0..31) of a longer message has arrived when
    the module is detached; after the re-attach a message of one frame
    with the bytes 100..131 is delivered as 64 bytes, the stale bytes
    0..31 first. *)
Lemma attach_cb_detach_keeps_stale_fragments_witness :
  let m := rx_fragment false (bytes_from 100 32) in
  let w1 := attach_cb (attach_cb w_partial false) true in
  reachable SAMPLE_MAX_SZ w_partial /\
  option_map recv_log (rx_frames SAMPLE_MAX_SZ w1 [m]) =
    Some [bytes_from 0 32 ++ bytes_from 100 32] /\
  tx_fifo (priv w1) = [] /\
  spi_armed w1 = [] /\
  rcvd_payload_idx (priv w1) = SLICE_SPI_MSG_PAYLOAD_SZ * 1 /\
  rcvd_payload_idx (priv w1) <> 0 /\
  rcvd_payload (priv w1) = rcvd_payload (priv w_partial) /\
  tx_buf (priv w1) = tx_buf (priv w_partial) /\
  gpio_rdy_n w1 = gpio_rdy_n w_partial /\
  exists w',
    rx_frames SAMPLE_MAX_SZ w1 [m] = Some w' /\
    recv_log w' =
      recv_log w_partial ++
      [firstn (Z.to_nat (SLICE_SPI_MSG_PAYLOAD_SZ * 1))
              (rcvd_payload (priv w_partial)) ++ data m] /\
    Z.of_nat (length (firstn (Z.to_nat (SLICE_SPI_MSG_PAYLOAD_SZ * 1))
                             (rcvd_payload (priv w_partial)) ++ data m)) =
      SLICE_SPI_MSG_PAYLOAD_SZ * (1 + 1).
Proof.
  intros m w1.
  split; [exact w_partial_reachable|].
  split; [vm_compute; reflexivity|].
  apply (attach_cb_detach_keeps_stale_fragments SAMPLE_MAX_SZ w_partial 1 m).
  - vm_compute. reflexivity.
  - lia.
  - reflexivity.
  - vm_compute. discriminate.
  - reflexivity.
  - reflexivity.
  - reflexivity.
Defined.

(** ** Fragmenting and reassembling *)

Lemma skipn_repeat {A : Type} (x : A) (n m : nat) :
  skipn n (repeat x m) = repeat x (m - n).
Proof.
  revert m. induction n as [|n IH]; intros m.
  - rewrite Nat.sub_0_r. reflexivity.
  - destruct m; [reflexivity|]. simpl. apply IH.
Qed.

(** The frames of one message that fits the buffer, received from an empty
    reassembler: the payloads, concatenated, are delivered once. *)
Lemma rx_frames_message max_sz fs last w :
  Forall msg_wf fs ->
  Forall (fun m => hdr_valid m = true) fs ->
  Forall (fun m => hdr_more m = true) fs ->
  msg_wf last -> hdr_valid last = true -> hdr_more last = false ->
  length (rcvd_payload (priv w)) = Z.to_nat max_sz ->
  rcvd_payload_idx (priv w) = 0 ->
  SLICE_SPI_MSG_PAYLOAD_SZ * (Z.of_nat (length fs) + 1) <= max_sz ->
  exists w',
    rx_frames max_sz w (fs ++ [last]) = Some w' /\
    recv_log w' = recv_log w ++ [concat (map data (fs ++ [last]))] /\
    rcvd_payload_idx (priv w') = 0 /\
    length (rcvd_payload (priv w')) = Z.to_nat max_sz.
Proof.
  intros Hwf Hv Hm Hwfl Hvl Hml Hlen Hidx Hfit.
  rewrite rx_frames_app.
  assert (Hfit0 : SLICE_SPI_MSG_PAYLOAD_SZ * (0 + Z.of_nat (length fs))
                  <= max_sz)
    by (unfold SLICE_SPI_MSG_PAYLOAD_SZ in *; lia).
  assert (Hfit1 : SLICE_SPI_MSG_PAYLOAD_SZ * (0 + Z.of_nat (length fs) + 1)
                  <= max_sz)
    by (unfold SLICE_SPI_MSG_PAYLOAD_SZ in *; lia).
  destruct (rx_frames_pending max_sz fs w 0 Hwf Hv Hm Hlen (Z.le_refl 0)
              Hidx Hfit0)
    as (w1 & -> & Hl1 & Hi1 & Hb1 & Hpre).
  destruct (rx_frames_deliver max_sz last w1 (0 + Z.of_nat (length fs))
              Hwfl Hvl Hml Hb1 ltac:(lia) Hi1 Hfit1)
    as (w' & Hrx & Hl & Hi & Hb).
  exists w'. split; [exact Hrx|]. split; [|split; assumption].
  rewrite Hl, Hl1, Hpre, Hidx. cbn [Z.to_nat firstn app].
  rewrite map_app, concat_app. cbn [map concat]. rewrite app_nil_r.
  reflexivity.
Qed.

(** C1: the code fails the claim on a 64-byte message.  queue_data copies
    from the start of the caller's buffer in every iteration, so both
    fragments carry bytes 0..31; fed in order to the reassembler they are
    delivered as bytes 0..31 twice, which is not the message. *)
Theorem fragment_reassemble_repeats_first_payload :
  forall max_sz : Z,
    64 <= max_sz ->
    let sender :=
      queue_data max_sz (slice_dl_init max_sz true false) msg64
                 (repeat true 4) in
    let receiver := slice_dl_init max_sz true false in
    fst sender = 0 /\
    map hdr_more (tx_fifo (priv (snd sender))) = [true; false] /\
    option_map recv_log
      (rx_frames max_sz receiver (tx_fifo (priv (snd sender)))) =
      Some [bytes_from 0 32 ++ bytes_from 0 32] /\
    firstn (length msg64) (bytes_from 0 32 ++ bytes_from 0 32) <>
    firstn (length msg64) (zero_pad msg64).
Proof.
  intros max_sz Hmax sender receiver.
  assert (Hs : sender =
    (0, setup_exchange
          (upd_priv (set_tx_fifo [make_packet msg64 64 64;
                                  make_packet msg64 64 32])
             (slice_dl_init max_sz true false)))).
  { unfold sender, queue_data.
    change (Z.of_nat (length msg64)) with 64.
    replace (64 >? max_sz) with false
      by (symmetry; rewrite Z.gtb_ltb; apply Z.ltb_ge; lia).
    reflexivity. }
  rewrite Hs. cbn [fst snd].
  split; [reflexivity|]. split; [reflexivity|].
  split; [|vm_compute; discriminate].
  change (tx_fifo (priv (setup_exchange _)))
    with ([make_packet msg64 64 64] ++ [make_packet msg64 64 32]).
  destruct (rx_frames_message max_sz [make_packet msg64 64 64]
              (make_packet msg64 64 32) receiver)
    as (w' & -> & Hl & _).
  - repeat constructor.
  - repeat constructor.
  - repeat constructor.
  - reflexivity.
  - reflexivity.
  - reflexivity.
  - apply repeat_length.
  - reflexivity.
  - simpl. lia.
  - cbn [option_map]. rewrite Hl. reflexivity.
Qed.

Lemma fragment_reassemble_repeats_first_payload_witness :
  64 <= SAMPLE_MAX_SZ /\
  option_map recv_log
    (rx_frames SAMPLE_MAX_SZ (slice_dl_init SAMPLE_MAX_SZ true false)
       (tx_fifo (priv (snd (queue_data SAMPLE_MAX_SZ
                              (slice_dl_init SAMPLE_MAX_SZ true false)
                              msg64 (repeat true 4)))))) =
  Some [bytes_from 0 32 ++ bytes_from 0 32].
Proof.
  split; [vm_compute; discriminate|].
  apply (fragment_reassemble_repeats_first_payload SAMPLE_MAX_SZ).
  vm_compute; discriminate.
Defined.

(** Where the claim of C1 does hold: a message of at most one payload.
    It is queued as one fragment, and that fragment, received by an empty
    reassembler, is delivered as the message zero-padded to the payload
    size. *)
Lemma fragment_reassemble_single_payload max_sz m heap :
  (0 < length m <= PAYLOAD_SZ)%nat ->
  SLICE_SPI_MSG_PAYLOAD_SZ <= max_sz ->
  let sender :=
    queue_data max_sz (slice_dl_init max_sz true false) m
               (true :: true :: heap) in
  let receiver := slice_dl_init max_sz true false in
  fst sender = 0 /\
  option_map recv_log
    (rx_frames max_sz receiver (tx_fifo (priv (snd sender)))) =
    Some [zero_pad m] /\
  firstn (length m) (zero_pad m) = m.
Proof.
  intros Hlen Hmax sender receiver.
  change PAYLOAD_SZ with 32%nat in Hlen.
  unfold SLICE_SPI_MSG_PAYLOAD_SZ in Hmax.
  assert (Hs : sender =
    (0, setup_exchange
          (upd_priv (set_tx_fifo [make_packet m (Z.of_nat (length m))
                                              (Z.of_nat (length m))])
             (slice_dl_init max_sz true false)))).
  { unfold sender, queue_data.
    replace (Z.of_nat (length m) >? max_sz) with false
      by (symmetry; rewrite Z.gtb_ltb; apply Z.ltb_ge; lia).
    rewrite queue_data_loop_single
      by (unfold SLICE_SPI_MSG_PAYLOAD_SZ; lia).
    reflexivity. }
  assert (Hdata : data (make_packet m (Z.of_nat (length m))
                                      (Z.of_nat (length m))) = zero_pad m).
  { unfold make_packet, zero_pad, blit. cbn [data zero_msg firstn app].
    unfold SLICE_SPI_MSG_PAYLOAD_SZ.
    rewrite Z.min_l by lia. rewrite Nat2Z.id. cbn [Nat.add].
    rewrite firstn_all, skipn_repeat. f_equal. f_equal.
    change PAYLOAD_SZ with 32%nat.
    destruct (Nat.eq_dec (length m) 32) as [-> | Hne]; [reflexivity|].
    rewrite (Nat.mod_small (length m)) by lia.
    rewrite Nat.mod_small by lia. reflexivity. }
  rewrite Hs. cbn [fst snd]. split; [reflexivity|]. split.
  - change (tx_fifo (priv (setup_exchange _)))
      with ([] ++ [make_packet m (Z.of_nat (length m))
                               (Z.of_nat (length m))]).
    destruct (rx_frames_message max_sz []
                (make_packet m (Z.of_nat (length m)) (Z.of_nat (length m)))
                receiver (Forall_nil _) (Forall_nil _) (Forall_nil _))
      as (w' & -> & Hl & _).
    + unfold msg_wf. rewrite Hdata. unfold zero_pad.
      rewrite length_app, repeat_length. change PAYLOAD_SZ with 32%nat.
      destruct (Nat.eq_dec (length m) 32) as [-> | Hne]; [reflexivity|].
      rewrite (Nat.mod_small (length m)) by lia.
      rewrite Nat.mod_small by lia. lia.
    + apply hdr_valid_make_packet.
    + rewrite hdr_more_make_packet. rewrite Z.gtb_ltb. apply Z.ltb_ge.
      unfold SLICE_SPI_MSG_PAYLOAD_SZ. lia.
    + apply repeat_length.
    + reflexivity.
    + unfold SLICE_SPI_MSG_PAYLOAD_SZ. simpl. lia.
    + cbn [option_map]. rewrite Hl. cbn [app map concat].
      rewrite Hdata, app_nil_r. reflexivity.
  - unfold zero_pad. rewrite firstn_app, firstn_all, Nat.sub_diag.
    cbn [firstn]. apply app_nil_r.
Qed.

(** * Beyond the claims: queue_data *)

Lemma firstn_repeat {A : Type} (x : A) (n m : nat) :
  firstn n (repeat x m) = repeat x (Nat.min n m).
Proof.
  revert m. induction n as [|n IH]; intros m; [reflexivity|].
  destruct m; [reflexivity|]. simpl. f_equal. apply IH.
Qed.

Lemma make_packet_ok buf rem :
  queued_packet_ok buf (make_packet buf (Z.of_nat (length buf)) rem).
Proof.
  unfold queued_packet_ok.
  assert (Hdata : data (make_packet buf (Z.of_nat (length buf)) rem) =
                  firstn PAYLOAD_SZ (buf ++ repeat 0 PAYLOAD_SZ)).
  { unfold make_packet, blit. cbn [data zero_msg firstn app Nat.add].
    change PAYLOAD_SZ with 32%nat. unfold SLICE_SPI_MSG_PAYLOAD_SZ.
    rewrite firstn_app, skipn_repeat, firstn_repeat.
    destruct (Nat.le_gt_cases 32 (length buf)) as [Hge | Hlt].
    - rewrite Z.min_r by lia. change (Z.to_nat 32) with 32%nat.
      replace (32 - 32)%nat with 0%nat by lia.
      replace (32 - length buf)%nat with 0%nat by lia. reflexivity.
    - rewrite Z.min_l by lia. rewrite Nat2Z.id.
      rewrite !firstn_all2 by lia. f_equal. f_equal. lia. }
  split; [apply hdr_valid_make_packet|].
  split.
  { unfold make_packet. cbn [hdr_bits].
    destruct (rem >? SLICE_SPI_MSG_PAYLOAD_SZ); reflexivity. }
  split; [reflexivity|]. split; [|exact Hdata].
  unfold msg_wf. rewrite Hdata.
  rewrite length_firstn, length_app, repeat_length. lia.
Qed.

(** The loop only appends packets of the expected form. *)
Lemma queue_data_loop_appends heap buf :
  forall rem fifo,
    exists new,
      snd (queue_data_loop heap buf (Z.of_nat (length buf)) rem fifo) =
      fifo ++ new /\
      Forall (queued_packet_ok buf) new.
Proof.
  induction heap as [|a|a b heap IH] using list_pair_ind; intros rem fifo.
  - exists []. cbn [queue_data_loop].
    destruct (rem >? 0); simpl; rewrite app_nil_r; auto.
  - exists []. cbn [queue_data_loop].
    destruct (rem >? 0), a; simpl; rewrite app_nil_r; auto.
  - cbn [queue_data_loop].
    destruct (rem >? 0); [|exists []; simpl; rewrite app_nil_r; auto].
    destruct a; [|exists []; simpl; rewrite app_nil_r; auto].
    destruct b; [|exists []; simpl; rewrite app_nil_r; auto].
    match goal with |- context [queue_data_loop heap buf ?l ?r ?f] =>
      destruct (IH r f) as (new & Hnew & Hok) end.
    exists (make_packet buf (Z.of_nat (length buf)) rem :: new).
    split.
    + rewrite Hnew. unfold list_add. rewrite <- app_assoc. reflexivity.
    + constructor; [apply make_packet_ok | exact Hok].
Qed.

(** [setup_exchange] either leaves queue and [tx_buf] alone or moves the
    head of the queue to [tx_buf]. *)
Lemma setup_exchange_takes_head w :
  tx_fifo (priv (setup_exchange w)) = tx_fifo (priv w) /\
  tx_buf (priv (setup_exchange w)) = tx_buf (priv w) \/
  exists hd,
    tx_fifo (priv w) = hd :: tx_fifo (priv (setup_exchange w)) /\
    tx_buf (priv (setup_exchange w)) = Some hd.
Proof.
  unfold setup_exchange. cbn [gpio_get_value gpio_set_value].
  destruct (gpio_rdy_n w), (gpio_wake_n w); simpl; auto.
  destruct (tx_fifo (priv w)) as [|hd rest] eqn:Ef; simpl; rewrite ?Ef; auto.
  right. exists hd. auto.
Qed.

(** X1.  queue_data returns -E2BIG exactly for a message longer than
    SLICE_DL_PAYLOAD_MAX_SZ, and then the whole state is as before: nothing
    is queued and setup_exchange is not called. *)
Theorem queue_data_rejects_too_big :
  forall (max_sz : Z) (w : world) (buf : list Z) (heap : list bool),
    (fst (queue_data max_sz w buf heap) = - E2BIG <->
     Z.of_nat (length buf) > max_sz) /\
    (Z.of_nat (length buf) > max_sz ->
     queue_data max_sz w buf heap = (- E2BIG, w)).
Proof.
  intros max_sz w buf heap.
  destruct (queue_data_e2big max_sz w buf heap) as [Hiff Hsame].
  split; [exact Hiff|].
  intros Hbig. rewrite (surjective_pairing (queue_data max_sz w buf heap)).
  f_equal; [apply Hiff | apply Hsame]; exact Hbig.
Qed.

Lemma queue_data_rejects_too_big_witness :
  Z.of_nat (length msg70) > 64 /\
  queue_data 64 w_queued msg70 (repeat true 10) = (- E2BIG, w_queued).
Proof.
  split; [reflexivity|].
  apply (queue_data_rejects_too_big 64 w_queued msg70 (repeat true 10)).
  reflexivity.
Defined.

(** X2.  A message whose length is a multiple k*32 of the payload size
    (k > 0, within the maximum), with memory for k packets: queue_data
    returns 0 after appending ceil(len/32) = k packets behind what was
    queued, MORE set on all but the last, and then calling
    setup_exchange. *)
Theorem queue_data_whole_payloads :
  forall (max_sz : Z) (w : world) (buf : list Z) (k : nat)
         (heap : list bool),
    Z.of_nat (length buf) = SLICE_SPI_MSG_PAYLOAD_SZ * Z.of_nat k ->
    (0 < k)%nat ->
    Z.of_nat (length buf) <= max_sz ->
    Z.of_nat (length buf) < size_t_modulus ->
    exists queued,
      queue_data max_sz w buf (repeat true (2 * k) ++ heap) =
      (0, setup_exchange
            (upd_priv (set_tx_fifo (tx_fifo (priv w) ++ queued)) w)) /\
      length queued = fragment_count (length buf) /\
      map hdr_more queued = more_pattern (fragment_count (length buf)) /\
      Forall (queued_packet_ok buf) queued.
Proof.
  intros max_sz w buf k heap Hlen Hk Hmax Hsz.
  destruct (queue_data_aligned_fragments max_sz w buf k heap Hlen Hk Hmax Hsz)
    as (Hrc & Hw & Hcount & Hmore).
  exists (aligned_packets buf (Z.of_nat (length buf)) k).
  split.
  { rewrite (surjective_pairing (queue_data _ _ _ _)). f_equal; assumption. }
  split; [exact Hcount|]. split; [exact Hmore|].
  clear. induction k as [|k IH]; [constructor|].
  cbn [aligned_packets]. constructor; [apply make_packet_ok | exact IH].
Qed.

Lemma queue_data_whole_payloads_witness :
  exists queued,
    queue_data SAMPLE_MAX_SZ (slice_dl_init SAMPLE_MAX_SZ true false) msg64
      (repeat true (2 * 2) ++ []) =
    (0, setup_exchange
          (upd_priv (set_tx_fifo
             (tx_fifo (priv (slice_dl_init SAMPLE_MAX_SZ true false))
                ++ queued))
             (slice_dl_init SAMPLE_MAX_SZ true false))) /\
    length queued = fragment_count (length msg64) /\
    map hdr_more queued = more_pattern (fragment_count (length msg64)) /\
    Forall (queued_packet_ok msg64) queued.
Proof.
  apply (queue_data_whole_payloads SAMPLE_MAX_SZ
           (slice_dl_init SAMPLE_MAX_SZ true false) msg64 2 []).
  - reflexivity.
  - lia.
  - vm_compute; discriminate.
  - reflexivity.
Defined.

(** X3.  Whatever the message, the allocator and the return code,
    queue_data loses and reorders nothing: the packets queued before,
    followed by the new ones, are afterwards the queue, or tx_buf followed
    by the queue when the trailing setup_exchange took the head.  Every
    new packet has VALID set, reserved bits and CRC zero, and a 32-byte
    payload made of the first bytes of the message, zero-padded. *)
Theorem queue_data_keeps_queue_order :
  forall (max_sz : Z) (w : world) (buf : list Z) (heap : list bool),
    exists new,
      Forall (queued_packet_ok buf) new /\
      (tx_fifo (priv (snd (queue_data max_sz w buf heap))) =
         tx_fifo (priv w) ++ new /\
       tx_buf (priv (snd (queue_data max_sz w buf heap))) = tx_buf (priv w)
       \/
       exists hd,
         tx_fifo (priv w) ++ new =
           hd :: tx_fifo (priv (snd (queue_data max_sz w buf heap))) /\
         tx_buf (priv (snd (queue_data max_sz w buf heap))) = Some hd).
Proof.
  intros max_sz w buf heap. unfold queue_data.
  destruct (Z.of_nat (length buf) >? max_sz).
  { exists []. split; [constructor|]. left. simpl. rewrite app_nil_r. auto. }
  destruct (queue_data_loop_appends heap buf (Z.of_nat (length buf))
              (tx_fifo (priv w))) as (new & Hnew & Hok).
  destruct (queue_data_loop _ _ _ _ _) as [rc fifo]. cbn [snd] in Hnew.
  subst fifo. exists new. split; [exact Hok|].
  destruct (rc =? 0); cbn [snd].
  - destruct (setup_exchange_takes_head
                (upd_priv (set_tx_fifo (tx_fifo (priv w) ++ new)) w))
      as [[Hq Ht] | (hd & Hq & Ht)].
    + left. rewrite Hq, Ht. auto.
    + right. exists hd. rewrite Ht. split; [exact Hq | reflexivity].
  - left. auto.
Qed.

(** X4.  When the very first allocation fails (zalloc of the packet, or
    malloc of its node), queue_data on a non-empty message within the
    maximum returns -ENOMEM and leaves the whole state as it was. *)
Theorem queue_data_no_memory_at_start :
  forall (max_sz : Z) (w : world) (buf : list Z) (heap : list bool),
    0 < Z.of_nat (length buf) <= max_sz ->
    hd false heap = false \/ hd false (tl heap) = false ->
    queue_data max_sz w buf heap = (- ENOMEM, w).
Proof.
  intros max_sz w buf heap Hlen Hheap.
  apply queue_data_enomem_first; [exact Hlen|].
  destruct heap as [|[] [|[] heap]]; simpl in Hheap; eauto.
  destruct Hheap; discriminate.
Qed.

Lemma queue_data_no_memory_at_start_witness :
  queue_data SAMPLE_MAX_SZ w_queued msg64 [true; false; true; true] =
  (- ENOMEM, w_queued).
Proof.
  apply (queue_data_no_memory_at_start SAMPLE_MAX_SZ w_queued msg64
           [true; false; true; true]).
  - vm_compute. split; [reflexivity | discriminate].
  - right. reflexivity.
Defined.

(** * Beyond the claims: the reassembler *)

Section ReassemblerMore.

Variable MAX_SZ : Z.

(** What the callback does to the receive side depends on the received
    frame and on the receive side only. *)
Lemma txn_finished_cb_rcvd_cong w1 w2 :
  rcvd_state w1 = rcvd_state w2 ->
  rx_buf (priv w1) = rx_buf (priv w2) ->
  option_map rcvd_state (txn_finished_cb MAX_SZ w1) =
  option_map rcvd_state (txn_finished_cb MAX_SZ w2).
Proof.
  intros Hst Hrx. unfold rcvd_state in Hst. injection Hst as Hb Hi Hl.
  unfold txn_finished_cb.
  cbn [priv upd_priv gpio_set_value set_rdy_n set_tx_buf rx_buf
       rcvd_payload rcvd_payload_idx].
  rewrite Hrx, Hi, Hb.
  destruct (negb (hdr_valid (rx_buf (priv w2)))).
  { cbn [option_map]. rewrite !rcvd_state_setup_exchange.
    unfold rcvd_state; simpl. congruence. }
  destruct (rcvd_payload_idx (priv w2) >=? MAX_SZ).
  { cbn [option_map]. rewrite !rcvd_state_setup_exchange.
    unfold rcvd_state; simpl. congruence. }
  destruct (memcpy _ _ _ _) as [buf|]; [|reflexivity].
  destruct (hdr_more (rx_buf (priv w2))).
  { cbn [option_map]. rewrite !rcvd_state_setup_exchange.
    unfold rcvd_state; simpl. congruence. }
  destruct (memset0 buf PAYLOAD_SZ) as [buf0|]; [|reflexivity].
  cbn [option_map]. rewrite !rcvd_state_setup_exchange.
  unfold rcvd_state; simpl. congruence.
Qed.

Lemma rx_frames_rcvd_cong frames :
  forall w1 w2,
    rcvd_state w1 = rcvd_state w2 ->
    option_map rcvd_state (rx_frames MAX_SZ w1 frames) =
    option_map rcvd_state (rx_frames MAX_SZ w2 frames).
Proof.
  induction frames as [|m frames IH]; intros w1 w2 Hst.
  - cbn [rx_frames option_map]. congruence.
  - cbn [rx_frames].
    pose proof (txn_finished_cb_rcvd_cong
                  (upd_priv (set_rx_buf m) w1) (upd_priv (set_rx_buf m) w2)
                  Hst eq_refl) as Hstep.
    destruct (txn_finished_cb MAX_SZ (upd_priv (set_rx_buf m) w1)) as [v1|];
      destruct (txn_finished_cb MAX_SZ (upd_priv (set_rx_buf m) w2)) as [v2|];
      cbn [option_map] in Hstep; try discriminate; [|reflexivity].
    apply IH. congruence.
Qed.


(** With a capacity that is a multiple of the payload size the callback
    returns on every well-formed frame, and keeps the invariants. *)
Lemma txn_finished_cb_total w :
  0 <= MAX_SZ -> (SLICE_SPI_MSG_PAYLOAD_SZ | MAX_SZ) ->
  reasm_inv MAX_SZ w ->
  rcvd_payload_idx (priv w) <= MAX_SZ ->
  msg_wf (rx_buf (priv w)) ->
  exists w',
    txn_finished_cb MAX_SZ w = Some w' /\
    reasm_inv MAX_SZ w' /\
    rcvd_payload_idx (priv w') <= MAX_SZ.
Proof.
  intros Hmax Hal Hinv Hle Hwf.
  assert (Hsome : exists w', txn_finished_cb MAX_SZ w = Some w').
  { destruct Hinv as [Hlen (k & Hk & Hidx)]. destruct Hal as [n Hn].
    destruct (hdr_valid (rx_buf (priv w))) eqn:Ev.
    2:{ destruct (txn_finished_cb_drop MAX_SZ w) as (w' & H & _); eauto. }
    destruct (Z_lt_ge_dec (rcvd_payload_idx (priv w)) MAX_SZ) as [Hlt | Hge].
    2:{ destruct (txn_finished_cb_drop MAX_SZ w) as (w' & H & _); eauto. }
    assert (Hin : 0 <= rcvd_payload_idx (priv w) < MAX_SZ)
      by (unfold SLICE_SPI_MSG_PAYLOAD_SZ in *; lia).
    assert (Hroom : (Z.to_nat (rcvd_payload_idx (priv w)) + PAYLOAD_SZ
                     <= length (rcvd_payload (priv w)))%nat).
    { rewrite Hlen. change PAYLOAD_SZ with 32%nat.
      unfold SLICE_SPI_MSG_PAYLOAD_SZ in *. lia. }
    destruct (txn_finished_cb_accept MAX_SZ w Ev Hwf Hin Hroom)
      as (w' & H & _).
    exists w'. exact H. }
  destruct Hsome as [w' Hcb]. exists w'. split; [exact Hcb|]. split.
  - eapply txn_finished_cb_reasm_inv; eauto.
  - eapply txn_finished_cb_bounded; eauto.
Qed.

Lemma rx_frames_total frames :
  0 <= MAX_SZ -> (SLICE_SPI_MSG_PAYLOAD_SZ | MAX_SZ) ->
  Forall msg_wf frames ->
  forall w,
    reasm_inv MAX_SZ w ->
    rcvd_payload_idx (priv w) <= MAX_SZ ->
    exists w',
      rx_frames MAX_SZ w frames = Some w' /\
      reasm_inv MAX_SZ w' /\
      rcvd_payload_idx (priv w') <= MAX_SZ.
Proof.
  intros Hmax Hal Hwf. induction Hwf as [|m frames Hm _ IH]; intros w Hinv Hle.
  - exists w. auto.
  - cbn [rx_frames].
    destruct (txn_finished_cb_total (upd_priv (set_rx_buf m) w))
      as (w1 & -> & Hinv1 & Hle1); auto.
Qed.

End ReassemblerMore.

(** ** The cursor *)

(** C10, as stated, fails.  The claim lets the cursor be a multiple of 32
    after every invocation whatever the capacity.  With a capacity of 48
    bytes, after the first fragment of a message the cursor is 32; the
    capacity test lets the next valid frame through and its copy to bytes
    32..63 leaves the buffer, so that invocation gives no cursor to speak
    of. *)
Lemma rcvd_payload_idx_unaligned_capacity :
  let rx := rx_fragment true (bytes_from 0 32) in
  reachable 48 w_unaligned /\
  rcvd_payload_idx (priv w_unaligned) = 32 /\
  msg_wf rx /\
  ~ (exists w',
       txn_finished_cb 48 (upd_priv (set_rx_buf rx) w_unaligned) = Some w' /\
       exists k, 0 <= k /\
                 rcvd_payload_idx (priv w') = SLICE_SPI_MSG_PAYLOAD_SZ * k).
Proof.
  intros rx. split.
  { eapply reachable_step; [eapply reachable_step|].
    - apply (reachable_init 48 false false).
    - apply step_wake_isr.
    - apply step_spi_complete with (rx := rx_fragment true (bytes_from 0 32)).
      + reflexivity.
      + vm_compute. reflexivity. }
  split; [reflexivity|]. split; [reflexivity|].
  intros (w' & H & _). vm_compute in H. discriminate.
Qed.

(** C10, amended.  Provided SLICE_DL_PAYLOAD_MAX_SZ is a non-negative
    multiple of SLICE_SPI_MSG_PAYLOAD_SZ (32): in every reachable state,
    that is after initialisation and after whatever the driver has done
    since, rcvd_payload_idx is a non-negative multiple of 32 and does not
    exceed SLICE_DL_PAYLOAD_MAX_SZ; and every txn_finished_cb invocation
    on a well-formed received frame returns, without a copy leaving
    rcvd_payload, in a state where this holds again, the cursor being 0,
    unchanged, or one payload further. *)
Theorem rcvd_payload_idx_multiple_and_bounded :
  forall (max_sz : Z) (w : world),
    0 <= max_sz ->
    (SLICE_SPI_MSG_PAYLOAD_SZ | max_sz) ->
    reachable max_sz w ->
    ((exists k, 0 <= k /\
                rcvd_payload_idx (priv w) = SLICE_SPI_MSG_PAYLOAD_SZ * k) /\
     rcvd_payload_idx (priv w) <= max_sz) /\
    (forall rx : slice_spi_msg,
       msg_wf rx ->
       exists w',
         txn_finished_cb max_sz (upd_priv (set_rx_buf rx) w) = Some w' /\
         (exists k, 0 <= k /\
                    rcvd_payload_idx (priv w') =
                    SLICE_SPI_MSG_PAYLOAD_SZ * k) /\
         rcvd_payload_idx (priv w') <= max_sz /\
         (rcvd_payload_idx (priv w') = 0 \/
          rcvd_payload_idx (priv w') = rcvd_payload_idx (priv w) \/
          rcvd_payload_idx (priv w) < max_sz /\
          rcvd_payload_idx (priv w') =
            rcvd_payload_idx (priv w) + SLICE_SPI_MSG_PAYLOAD_SZ)).
Proof.
  intros max_sz w Hmax Hal Hr.
  destruct (reachable_reasm_inv _ _ Hr) as [Hinv Hb].
  specialize (Hb Hmax Hal).
  split; [split; [exact (proj2 Hinv) | exact Hb]|].
  intros rx Hwf.
  destruct (txn_finished_cb_total max_sz (upd_priv (set_rx_buf rx) w)
              Hmax Hal Hinv Hb Hwf) as (w' & Hcb & [_ Hk'] & Hb').
  exists w'. split; [exact Hcb|]. split; [exact Hk'|]. split; [exact Hb'|].
  destruct (txn_finished_cb_cursor _ _ _ Hcb) as [_ Hc].
  cbn [priv upd_priv set_rx_buf rcvd_payload_idx] in Hc. tauto.
Qed.

Lemma rcvd_payload_idx_multiple_and_bounded_witness :
  let rx := rx_fragment true (bytes_from 32 32) in
  rcvd_payload_idx (priv w_partial) = 32 /\
  option_map (fun w' => rcvd_payload_idx (priv w'))
    (txn_finished_cb SAMPLE_MAX_SZ (upd_priv (set_rx_buf rx) w_partial)) =
    Some 64 /\
  ((exists k, 0 <= k /\
              rcvd_payload_idx (priv w_partial) =
              SLICE_SPI_MSG_PAYLOAD_SZ * k) /\
   rcvd_payload_idx (priv w_partial) <= SAMPLE_MAX_SZ) /\
  (forall rx : slice_spi_msg,
     msg_wf rx ->
     exists w',
       txn_finished_cb SAMPLE_MAX_SZ (upd_priv (set_rx_buf rx) w_partial)
         = Some w' /\
       (exists k, 0 <= k /\
                  rcvd_payload_idx (priv w') =
                  SLICE_SPI_MSG_PAYLOAD_SZ * k) /\
       rcvd_payload_idx (priv w') <= SAMPLE_MAX_SZ /\
       (rcvd_payload_idx (priv w') = 0 \/
        rcvd_payload_idx (priv w') = rcvd_payload_idx (priv w_partial) \/
        rcvd_payload_idx (priv w_partial) < SAMPLE_MAX_SZ /\
        rcvd_payload_idx (priv w') =
          rcvd_payload_idx (priv w_partial) + SLICE_SPI_MSG_PAYLOAD_SZ)).
Proof.
  intros rx.
  split; [reflexivity|]. split; [vm_compute; reflexivity|].
  apply (rcvd_payload_idx_multiple_and_bounded SAMPLE_MAX_SZ w_partial).
  - vm_compute. discriminate.
  - exists 32. reflexivity.
  - exact w_partial_reachable.
Defined.

(** X5.  A message of 1 to 32 bytes within the maximum, with memory for
    one packet: queue_data queues it as a single packet, and that packet,
    received by an empty reassembler, is handed to the network layer as
    the message zero-padded to 32 bytes, whose first len bytes are the
    message. *)
Theorem send_receive_single_payload :
  forall (max_sz : Z) (m : list Z) (heap : list bool),
    (0 < length m <= PAYLOAD_SZ)%nat ->
    SLICE_SPI_MSG_PAYLOAD_SZ <= max_sz ->
    fst (queue_data max_sz (slice_dl_init max_sz true false) m
           (true :: true :: heap)) = 0 /\
    option_map recv_log
      (rx_frames max_sz (slice_dl_init max_sz true false)
         (tx_fifo (priv (snd (queue_data max_sz
                                (slice_dl_init max_sz true false) m
                                (true :: true :: heap)))))) =
      Some [zero_pad m] /\
    firstn (length m) (zero_pad m) = m.
Proof.
  intros max_sz m heap Hlen Hmax.
  exact (fragment_reassemble_single_payload max_sz m heap Hlen Hmax).
Qed.

Lemma send_receive_single_payload_witness :
  option_map recv_log
    (rx_frames SAMPLE_MAX_SZ (slice_dl_init SAMPLE_MAX_SZ true false)
       (tx_fifo (priv (snd (queue_data SAMPLE_MAX_SZ
                              (slice_dl_init SAMPLE_MAX_SZ true false) msg1
                              (true :: true :: [])))))) =
  Some [zero_pad msg1].
Proof.
  apply (send_receive_single_payload SAMPLE_MAX_SZ msg1 []).
  - change PAYLOAD_SZ with 32%nat. simpl. lia.
  - vm_compute; discriminate.
Defined.

(** X6.  The reassembler on the frames of one message that fits the
    buffer, starting with an empty buffer (cursor 0): well-formed valid
    frames, MORE set on all but the last.  The callback returns every
    time, the recv callback is called exactly once, with the payloads
    concatenated in order of arrival, and the cursor is back at 0. *)
Theorem reassembler_delivers_message :
  forall (max_sz : Z) (fs : list slice_spi_msg) (last : slice_spi_msg)
         (w : world),
    message_frames (fs ++ [last]) ->
    hdr_more last = false ->
    length (rcvd_payload (priv w)) = Z.to_nat max_sz ->
    rcvd_payload_idx (priv w) = 0 ->
    SLICE_SPI_MSG_PAYLOAD_SZ * Z.of_nat (length (fs ++ [last])) <= max_sz ->
    exists w',
      rx_frames max_sz w (fs ++ [last]) = Some w' /\
      recv_log w' = recv_log w ++ [concat (map data (fs ++ [last]))] /\
      rcvd_payload_idx (priv w') = 0.
Proof.
  intros max_sz fs last w (Hwf & Hv & Hm) Hlast Hlen Hidx Hfit.
  rewrite removelast_last in Hm.
  apply Forall_app in Hwf. destruct Hwf as [Hwf Hwfl].
  apply Forall_app in Hv. destruct Hv as [Hv Hvl].
  rewrite length_app in Hfit. cbn [length] in Hfit.
  destruct (rx_frames_message max_sz fs last w Hwf Hv Hm
              (Forall_inv Hwfl) (Forall_inv Hvl) Hlast Hlen Hidx)
    as (w' & Hrx & Hl & Hi & _).
  - unfold SLICE_SPI_MSG_PAYLOAD_SZ in *. lia.
  - exists w'. auto.
Qed.

Lemma reassembler_delivers_message_witness :
  exists w',
    rx_frames 64 (slice_dl_init 64 true false)
      ([rx_fragment true (bytes_from 0 32)]
         ++ [rx_fragment false (bytes_from 32 32)]) = Some w' /\
    recv_log w' = recv_log (slice_dl_init 64 true false)
      ++ [concat (map data ([rx_fragment true (bytes_from 0 32)]
                              ++ [rx_fragment false (bytes_from 32 32)]))] /\
    rcvd_payload_idx (priv w') = 0.
Proof.
  apply (reassembler_delivers_message 64
           [rx_fragment true (bytes_from 0 32)]
           (rx_fragment false (bytes_from 32 32))
           (slice_dl_init 64 true false)).
  - repeat split; repeat constructor.
  - reflexivity.
  - reflexivity.
  - reflexivity.
  - simpl. lia.
Defined.

(** X7.  Dummy frames (VALID clear) are transparent to the reassembler:
    receiving a frame sequence leaves buffer, cursor and deliveries
    exactly as receiving the sequence without its dummy frames does, and
    faults in the same cases. *)
Theorem reassembler_ignores_dummy_frames :
  forall (max_sz : Z) (frames : list slice_spi_msg) (w : world),
    option_map rcvd_state (rx_frames max_sz w frames) =
    option_map rcvd_state (rx_frames max_sz w (filter hdr_valid frames)).
Proof.
  intros max_sz frames. induction frames as [|m frames IH]; intros w.
  - reflexivity.
  - cbn [filter]. destruct (hdr_valid m) eqn:Ev.
    + cbn [rx_frames].
      destruct (txn_finished_cb max_sz (upd_priv (set_rx_buf m) w));
        [apply IH | reflexivity].
    + cbn [rx_frames].
      destruct (txn_finished_cb_drop max_sz (upd_priv (set_rx_buf m) w))
        as (w1 & -> & Hst); [left; exact Ev|].
      rewrite <- IH. apply rx_frames_rcvd_cong. exact Hst.
Qed.



(** X9.  With a capacity that is a non-negative multiple of the payload
    size, no sequence of well-formed received frames, whatever their
    header bits, makes the callback copy outside rcvd_payload in a
    reachable state: it returns every time, and the cursor stays within
    the capacity. *)
Theorem reassembler_never_leaves_buffer :
  forall (max_sz : Z) (w : world) (frames : list slice_spi_msg),
    0 <= max_sz ->
    (SLICE_SPI_MSG_PAYLOAD_SZ | max_sz) ->
    reachable max_sz w ->
    Forall msg_wf frames ->
    exists w',
      rx_frames max_sz w frames = Some w' /\
      length (rcvd_payload (priv w')) = Z.to_nat max_sz /\
      0 <= rcvd_payload_idx (priv w') <= max_sz.
Proof.
  intros max_sz w frames Hmax Hal Hr Hwf.
  destruct (reachable_reasm_inv _ _ Hr) as [Hinv Hle].
  destruct (rx_frames_total max_sz frames Hmax Hal Hwf w Hinv (Hle Hmax Hal))
    as (w' & Hrx & [Hlen (k & Hk & Hidx)] & Hle').
  exists w'. split; [exact Hrx|]. split; [exact Hlen|].
  unfold SLICE_SPI_MSG_PAYLOAD_SZ in *. lia.
Qed.

Lemma reassembler_never_leaves_buffer_witness :
  exists w',
    rx_frames SAMPLE_MAX_SZ w_partial
      [rx_fragment true (bytes_from 0 32); zero_msg;
       rx_fragment false (bytes_from 0 32)] = Some w' /\
    length (rcvd_payload (priv w')) = Z.to_nat SAMPLE_MAX_SZ /\
    0 <= rcvd_payload_idx (priv w') <= SAMPLE_MAX_SZ.
Proof.
  apply (reassembler_never_leaves_buffer SAMPLE_MAX_SZ w_partial).
  - vm_compute; discriminate.
  - exists 32. reflexivity.
  - exact w_partial_reachable.
  - repeat constructor.
Defined.

(** * Beyond the claims: the scheduler *)

(** With RDY high, WAKE asserted and the controller free, setup_exchange
    arms the head of the queue, or the dummy frame when nothing is
    queued, and pulls RDY low. *)
Lemma setup_exchange_arms w :
  gpio_rdy_n w = true -> gpio_wake_n w = false -> spi_armed w = [] ->
  spi_armed (setup_exchange w) = [hd tx_dummy_buf (tx_fifo (priv w))] /\
  tx_fifo (priv (setup_exchange w)) = tl (tx_fifo (priv w)) /\
  gpio_rdy_n (setup_exchange w) = false /\
  gpio_wake_n (setup_exchange w) = false /\
  rcvd_state (setup_exchange w) = rcvd_state w.
Proof.
  intros Hr Hw Ha.
  pose proof (rcvd_state_setup_exchange w) as Hst. revert Hst.
  unfold setup_exchange. cbn [gpio_get_value gpio_set_value].
  rewrite Hr, Hw. cbn [negb].
  destruct (tx_fifo (priv w)) as [|p q] eqn:Ef; intros Hst;
    simpl; rewrite ?Ha, ?Ef; repeat split; assumption.
Qed.

Lemma firstn_app_repeat {A : Type} (x : A) (n : nat) :
  forall (l : list A) (m : nat),
    (n <= m)%nat ->
    firstn n (l ++ repeat x m) = firstn n (l ++ repeat x n).
Proof.
  induction n as [|n IH]; intros l m Hm; [reflexivity|].
  destruct l as [|a l].
  - cbn [app]. rewrite !firstn_repeat. f_equal. lia.
  - cbn [app firstn]. f_equal.
    rewrite (IH l m) by lia. rewrite (IH l (S n)) by lia. reflexivity.
Qed.

Section SchedulerMore.

Variable MAX_SZ : Z.
Hypothesis MAX_nonneg : 0 <= MAX_SZ.
Hypothesis MAX_aligned : (SLICE_SPI_MSG_PAYLOAD_SZ | MAX_SZ).

(** One completion while WAKE stays asserted: the armed frame has been
    sent and the next one is armed at once. *)
Lemma spi_complete_rearms w tx rx :
  spi_armed w = [tx] -> gpio_wake_n w = false ->
  reasm_inv MAX_SZ w -> rcvd_payload_idx (priv w) <= MAX_SZ ->
  msg_wf rx ->
  exists w',
    spi_complete MAX_SZ w rx = Some w' /\
    spi_armed w' = [hd tx_dummy_buf (tx_fifo (priv w))] /\
    tx_fifo (priv w') = tl (tx_fifo (priv w)) /\
    gpio_wake_n w' = false /\
    reasm_inv MAX_SZ w' /\ rcvd_payload_idx (priv w') <= MAX_SZ.
Proof.
  intros Ha Hw Hinv Hle Hrx. unfold spi_complete. rewrite Ha.
  destruct (txn_finished_cb_total MAX_SZ
              (upd_priv (set_rx_buf rx) (set_spi_armed [] w))
              MAX_nonneg MAX_aligned Hinv Hle Hrx)
    as (w' & Hcb & Hinv' & Hle').
  exists w'. split; [exact Hcb|].
  destruct (txn_finished_cb_shape _ _ _ Hcb)
    as (w2 & -> & Ha2 & Hr2 & _ & Hq2 & Hw2).
  cbn [spi_armed set_spi_armed upd_priv priv tx_fifo set_rx_buf gpio_wake_n]
    in Ha2, Hq2, Hw2.
  destruct (setup_exchange_arms w2 Hr2 (eq_trans Hw2 Hw) Ha2)
    as (H1 & H2 & _ & H4 & _).
  rewrite H1, H2, H4, Hq2. auto.
Qed.

(** The frames sent over [n] completions: the armed one, then the queue,
    then dummy frames. *)
Lemma spi_run_armed rxs :
  forall w tx,
    spi_armed w = [tx] -> gpio_wake_n w = false ->
    reasm_inv MAX_SZ w -> rcvd_payload_idx (priv w) <= MAX_SZ ->
    Forall msg_wf rxs ->
    exists w',
      spi_run MAX_SZ w rxs =
      Some (firstn (length rxs)
              ((tx :: tx_fifo (priv w))
                 ++ repeat tx_dummy_buf (length rxs)), w') /\
      tx_fifo (priv w') = skipn (length rxs) (tx_fifo (priv w)).
Proof.
  induction rxs as [|rx rxs IH]; intros w tx Ha Hw Hinv Hle Hwf.
  - exists w. auto.
  - cbn [spi_run]. rewrite Ha.
    destruct (spi_complete_rearms w tx rx Ha Hw Hinv Hle (Forall_inv Hwf))
      as (w1 & -> & Ha1 & Hq1 & Hw1 & Hinv1 & Hle1).
    destruct (IH w1 _ Ha1 Hw1 Hinv1 Hle1 (Forall_inv_tail Hwf))
      as (w' & -> & Hq').
    exists w'. split.
    + f_equal. f_equal. cbn [length app firstn]. f_equal.
      rewrite Hq1.
      destruct (tx_fifo (priv w)) as [|p q]; cbn [hd tl].
      * reflexivity.
      * symmetry.
        apply (firstn_app_repeat tx_dummy_buf (length rxs) (p :: q)
                 (S (length rxs))).
        lia.
    + rewrite Hq', Hq1. destruct (tx_fifo (priv w)); cbn [tl length skipn].
      * rewrite skipn_nil. reflexivity.
      * reflexivity.
Qed.

End SchedulerMore.

(** X10.  Frames leave in the order they were queued.  From an idle
    reachable state (RDY high, controller free) with WAKE asserted and
    staying asserted, a setup_exchange call followed by n completions,
    whatever well-formed frames are received, has sent the first n frames
    of the queue in queue order, each once, padded with all-zero dummy
    frames when fewer than n were queued; what is left of the queue is
    the queue without its first n+1 frames, the next of which is armed.
    The capacity is a non-negative multiple of the payload size. *)
Theorem queued_frames_sent_in_order :
  forall (max_sz : Z) (w : world) (rxs : list slice_spi_msg),
    0 <= max_sz ->
    (SLICE_SPI_MSG_PAYLOAD_SZ | max_sz) ->
    reachable max_sz w ->
    gpio_rdy_n w = true -> gpio_wake_n w = false -> spi_armed w = [] ->
    Forall msg_wf rxs ->
    exists w',
      spi_run max_sz (setup_exchange w) rxs =
      Some (firstn (length rxs)
              (tx_fifo (priv w) ++ repeat tx_dummy_buf (length rxs)), w') /\
      tx_fifo (priv w') = skipn (S (length rxs)) (tx_fifo (priv w)).
Proof.
  intros max_sz w rxs Hmax Hal Hr Hrdy Hwake Harm Hwf.
  destruct (reachable_reasm_inv _ _ Hr) as [Hinv Hle].
  specialize (Hle Hmax Hal).
  destruct (setup_exchange_arms w Hrdy Hwake Harm)
    as (Ha & Hq & _ & Hw & Hst).
  assert (Hinv0 : reasm_inv max_sz (setup_exchange w) /\
                  rcvd_payload_idx (priv (setup_exchange w)) <= max_sz).
  { unfold rcvd_state in Hst. injection Hst as Hb Hi _.
    unfold reasm_inv. rewrite Hb, Hi. auto. }
  destruct (spi_run_armed max_sz Hmax Hal rxs (setup_exchange w) _ Ha Hw
              (proj1 Hinv0) (proj2 Hinv0) Hwf) as (w' & Hrun & Hq').
  exists w'. split.
  - rewrite Hrun. f_equal. f_equal. rewrite Hq.
    destruct (tx_fifo (priv w)) as [|p q]; cbn [hd tl app]; [|reflexivity].
    change (tx_dummy_buf :: repeat tx_dummy_buf (length rxs))
      with (repeat tx_dummy_buf (S (length rxs))).
    rewrite !firstn_repeat. f_equal. lia.
  - rewrite Hq', Hq. destruct (tx_fifo (priv w)); cbn [tl skipn].
    + apply skipn_nil.
    + reflexivity.
Qed.

Lemma queued_frames_sent_in_order_witness :
  exists w',
    spi_run SAMPLE_MAX_SZ (setup_exchange w_queued)
      [zero_msg; rx_fragment false (bytes_from 0 32)] =
    Some (firstn 2 (tx_fifo (priv w_queued) ++ repeat tx_dummy_buf 2), w') /\
    tx_fifo (priv w') = skipn 3 (tx_fifo (priv w_queued)).
Proof.
  apply (queued_frames_sent_in_order SAMPLE_MAX_SZ w_queued
           [zero_msg; rx_fragment false (bytes_from 0 32)]).
  - vm_compute; discriminate.
  - exists 32. reflexivity.
  - exact w_queued_reachable.
  - reflexivity.
  - reflexivity.
  - reflexivity.
  - repeat constructor.
Defined.



(** X12.  In every reachable state, RDY high means that no packet is
    held in tx_buf and no exchange is outstanding.  So when
    setup_exchange takes a packet from the queue it never overwrites a
    tx_buf that still points to a packet. *)
Theorem tx_buf_held_only_while_ready_low :
  forall (max_sz : Z) (w : world),
    reachable max_sz w ->
    gpio_rdy_n w = true ->
    tx_buf (priv w) = None /\ spi_armed w = [].
Proof.
  intros max_sz w Hr Hrdy. split.
  - revert Hrdy.
    assert (Hsx : forall v,
              (gpio_rdy_n v = true -> tx_buf (priv v) = None) ->
              gpio_rdy_n (setup_exchange v) = true ->
              tx_buf (priv (setup_exchange v)) = None).
    { intros v Hv. unfold setup_exchange.
      cbn [gpio_get_value gpio_set_value].
      destruct (gpio_rdy_n v) eqn:Er; cbn [negb].
      - destruct (gpio_wake_n v); [simpl; auto|].
        destruct (tx_fifo (priv v)); simpl; discriminate.
      - simpl. rewrite Er. discriminate. }
    induction Hr as [wake_n int_level | w w' Hr IH Hs]; [reflexivity|].
    destruct Hs.
    + unfold queue_data.
      destruct (Z.of_nat (length buf) >? max_sz); [exact IH|].
      destruct (queue_data_loop _ _ _ _ _) as [rc fifo].
      destruct (rc =? 0); cbn [snd]; [apply Hsx|]; exact IH.
    + exact IH.
    + apply Hsx. exact IH.
    + exact IH.
    + unfold spi_complete in H0.
      destruct (spi_armed w) as [|tx rest]; [discriminate|].
      destruct (txn_finished_cb_shape _ _ _ H0)
        as (w2 & -> & _ & _ & Ht2 & _).
      apply Hsx. intros _. exact Ht2.
    + destruct attached; simpl; exact IH.
  - pose proof (reachable_sched_inv _ _ Hr) as [Hidle | (_ & Hlow & _)];
      [exact Hidle | congruence].
Qed.

Lemma tx_buf_held_only_while_ready_low_witness :
  gpio_rdy_n w_queued = true /\
  tx_fifo (priv w_queued) <> [] /\
  tx_buf (priv w_queued) = None /\ spi_armed w_queued = [].
Proof.
  split; [reflexivity|]. split; [vm_compute; discriminate|].
  apply (tx_buf_held_only_while_ready_low SAMPLE_MAX_SZ w_queued).
  - exact w_queued_reachable.
  - reflexivity.
Defined.

(** X13.  RDY is raised by the completion callback only.  When RDY is low
    and the controller holds no exchange (the state a detach leaves when
    it cancels an outstanding exchange), no call of queue_data, no wake
    interrupt, no WAKE change and no attach callback raises RDY or starts
    an exchange, and no completion can occur: the driver stays in that
    state. *)
Theorem ready_low_without_exchange_persists :
  forall (max_sz : Z) (w w' : world),
    step max_sz w w' ->
    gpio_rdy_n w = false -> spi_armed w = [] ->
    gpio_rdy_n w' = false /\ spi_armed w' = [].
Proof.
  intros max_sz w w' Hs Hr Ha.
  assert (Hsx : forall v, gpio_rdy_n v = false -> spi_armed v = [] ->
            gpio_rdy_n (setup_exchange v) = false /\
            spi_armed (setup_exchange v) = []).
  { intros v Hv Hav. rewrite setup_exchange_armed by exact Hv. auto. }
  destruct Hs.
  - unfold queue_data.
    destruct (Z.of_nat (length buf) >? max_sz); [auto|].
    destruct (queue_data_loop _ _ _ _ _) as [rc fifo].
    destruct (rc =? 0); cbn [snd]; [apply Hsx|]; auto.
  - auto.
  - apply Hsx; auto.
  - auto.
  - unfold spi_complete in H0. rewrite Ha in H0. discriminate.
  - destruct attached; simpl; auto.
Qed.

Lemma ready_low_without_exchange_persists_witness :
  let w := attach_cb (wake_isr (slice_dl_init SAMPLE_MAX_SZ false false))
                     false in
  reachable SAMPLE_MAX_SZ w /\
  gpio_rdy_n (wake_isr w) = false /\ spi_armed (wake_isr w) = [].
Proof.
  intros w.
  assert (Hr : reachable SAMPLE_MAX_SZ w).
  { unfold w. eapply reachable_step; [eapply reachable_step|].
    - apply (reachable_init SAMPLE_MAX_SZ false false).
    - apply step_wake_isr.
    - apply step_attach_cb. }
  split; [exact Hr|].
  apply (ready_low_without_exchange_persists SAMPLE_MAX_SZ w (wake_isr w)).
  - apply step_wake_isr.
  - reflexivity.
  - reflexivity.
Defined.

(** * The HDMI to CSI bridge *)

(** ** Bytes *)

Lemma le_value_le_bytes (n : nat) :
  forall v, le_value (le_bytes n v) = v mod 2 ^ (8 * Z.of_nat n).
Proof.
  induction n as [|n IH]; intros v.
  - cbn [le_bytes le_value]. rewrite Z.mul_0_r. cbn. symmetry.
    apply Z.mod_1_r.
  - cbn [le_bytes le_value]. rewrite IH.
    change 0xFF with (Z.ones 8). rewrite Z.land_ones by lia.
    rewrite Z.shiftr_div_pow2 by lia.
    replace (8 * Z.of_nat (S n)) with (8 + 8 * Z.of_nat n) by lia.
    rewrite Z.pow_add_r by lia.
    rewrite Z.rem_mul_r by (try apply Z.pow_nonzero; lia).
    reflexivity.
Qed.

Lemma le_bytes_length (n : nat) : forall v, length (le_bytes n v) = n.
Proof. induction n; intros v; simpl; auto. Qed.

Lemma be16_value regaddr :
  0 <= regaddr < 2 ^ 16 ->
  256 * Z.land (Z.shiftr regaddr 8) 0xFF + Z.land regaddr 0xFF = regaddr.
Proof.
  intros Hr. change 0xFF with (Z.ones 8). rewrite !Z.land_ones by lia.
  rewrite Z.shiftr_div_pow2 by lia. change (2 ^ 8) with 256.
  rewrite (Z.mod_small (regaddr / 256)).
  - rewrite (Z.div_mod regaddr 256) at 3 by lia. reflexivity.
  - split; [apply Z.div_pos; lia|].
    apply Z.div_lt_upper_bound; lia.
Qed.

(** ** The bus log *)

Lemma acked_app bus msgs1 :
  forall start msgs2,
    acked bus start (msgs1 ++ msgs2) =
    acked bus start msgs1 ++ acked bus (start + length msgs1) msgs2.
Proof.
  induction msgs1 as [|m msgs1 IH]; intros start msgs2.
  - cbn [app acked length]. rewrite Nat.add_0_r. reflexivity.
  - cbn [app acked length]. rewrite IH.
    replace (S start + length msgs1)%nat
      with (start + S (length msgs1))%nat by lia.
    destruct (bus start =? 0); reflexivity.
Qed.

(** The retry loop: the same message up to [S n] times, until the bus
    accepts it. *)
Lemma i2c_write_retry_spec (n : nat) bus msg :
  forall log,
    exists k : nat,
      (1 <= k <= S n)%nat /\
      snd (i2c_write_retry n bus log msg) = log ++ repeat msg k /\
      fst (i2c_write_retry n bus log msg) = bus (length log + k - 1)%nat /\
      (forall j, (j < k - 1)%nat -> bus (length log + j)%nat <> 0) /\
      (fst (i2c_write_retry n bus log msg) <> 0 -> k = S n).
Proof.
  induction n as [|n IH]; intros log; cbn [i2c_write_retry I2C_TRANSFER].
  - exists 1%nat. replace (length log + 1 - 1)%nat with (length log) by lia.
    destruct (bus (length log) =? 0); cbn [fst snd repeat];
      repeat split; auto; try lia.
  - destruct (bus (length log) =? 0) eqn:E.
    + exists 1%nat.
      replace (length log + 1 - 1)%nat with (length log) by lia.
      cbn [fst snd repeat]. apply Z.eqb_eq in E.
      repeat split; auto; try lia; congruence.
    + destruct (IH (log ++ [msg])) as (k & Hk & Hlog & Hret & Hfail & Hlast).
      rewrite length_app in Hret, Hfail. cbn [length] in Hret, Hfail.
      exists (S k). split; [lia|]. split; [|split; [|split]].
      * rewrite Hlog. rewrite <- app_assoc. reflexivity.
      * rewrite Hret. f_equal. lia.
      * intros j Hj. destruct j as [|j].
        -- rewrite Nat.add_0_r. apply Z.eqb_neq. exact E.
        -- replace (length log + S j)%nat with (length log + 1 + j)%nat
             by lia.
           apply Hfail. lia.
      * intros Hne. rewrite (Hlast Hne). reflexivity.
Qed.

Lemma acked_retries bus msg (k : nat) :
  forall start,
    (1 <= k)%nat ->
    (forall j, (j < k - 1)%nat -> bus (start + j)%nat <> 0) ->
    acked bus start (repeat msg k) =
    if bus (start + k - 1)%nat =? 0 then [msg] else [].
Proof.
  induction k as [|k IH]; intros start Hk Hfail; [lia|].
  destruct k as [|k].
  - cbn [repeat acked]. replace (start + 1 - 1)%nat with start by lia.
    destruct (bus start =? 0); reflexivity.
  - cbn [repeat acked] in *.
    pose proof (Hfail 0%nat ltac:(lia)) as H0. rewrite Nat.add_0_r in H0.
    apply Z.eqb_neq in H0. rewrite H0.
    rewrite (IH (S start)).
    + replace (S start + S k - 1)%nat with (start + S (S k) - 1)%nat by lia.
      reflexivity.
    + lia.
    + intros j Hj. replace (S start + j)%nat with (start + S j)%nat by lia.
      apply Hfail. lia.
Qed.

Section BridgeProofs.

Variable I2C_M_NORESTART : Z.
Variable RETRY : positive.

(** [_i2c_write] sends one message, up to RETRY times; the bus
    acknowledges it once when the result is 0, and never otherwise. *)
Lemma i2c_write_spec i2c_addr addr addr_len bus log :
  let msg := mk_i2c_msg i2c_addr I2C_M_NORESTART
                        (firstn (Z.to_nat addr_len) addr) addr_len in
  let r := _i2c_write I2C_M_NORESTART RETRY i2c_addr addr addr_len bus log in
  exists k : nat,
    (1 <= k <= Pos.to_nat RETRY)%nat /\
    snd r = log ++ repeat msg k /\
    fst r = bus (length log + k - 1)%nat /\
    (forall j, (j < k - 1)%nat -> bus (length log + j)%nat <> 0) /\
    (fst r <> 0 -> k = Pos.to_nat RETRY) /\
    acked bus (length log) (repeat msg k) =
    if fst r =? 0 then [msg] else [].
Proof.
  intros msg r. unfold r, _i2c_write. fold msg.
  destruct (i2c_write_retry_spec (Pos.to_nat RETRY - 1) bus msg log)
    as (k & Hk & Hlog & Hret & Hfail & Hlast).
  pose proof (Pos2Nat.is_pos RETRY) as Hpos.
  exists k. split; [lia|]. split; [exact Hlog|]. split; [exact Hret|].
  split; [exact Hfail|]. split.
  - intros Hne. rewrite (Hlast Hne). lia.
  - rewrite Hret. apply acked_retries; [lia | exact Hfail].
Qed.

End BridgeProofs.

(** ** Register writes *)

Ltac destruct_array10 stack H :=
  do 10 (destruct stack as [|? stack]; [discriminate H|]);
  destruct stack; [|discriminate H].

Lemma bridge_i2c_write_int_sized flags retry stack i2c_addr regaddr data size
      bus log :
  length stack = 10%nat ->
  size = 1 \/ size = 2 \/ size = 4 ->
  bridge_i2c_write_int flags retry stack i2c_addr regaddr data size bus log =
  i2c_write_retry (Pos.to_nat retry - 1) bus log
    (mk_i2c_msg i2c_addr flags
       ([Z.land (Z.shiftr regaddr 8) 0xFF; Z.land regaddr 0xFF]
          ++ le_bytes (Z.to_nat size) data)
       (size + 2)).
Proof.
  intros Hlen Hsize. destruct_array10 stack Hlen.
  destruct Hsize as [-> | [-> | ->]]; reflexivity.
Qed.

(** X14.  _i2c_write hands the same message to the bus up to
    CONFIG_MHB_CAMERA_I2C_RETRY times (a positive number): it stops at the
    first transfer the bus accepts and returns 0, or returns the code of
    the last transfer after RETRY failures.  The bus acknowledges the
    message exactly once when the result is 0, and not at all
    otherwise. *)
Theorem i2c_write_retries_until_acknowledged :
  forall (flags : Z) (retry : positive) (i2c_addr : Z) (addr : list Z)
         (addr_len : Z) (bus : nat -> Z) (log : list i2c_msg_s),
    let msg := mk_i2c_msg i2c_addr flags
                          (firstn (Z.to_nat addr_len) addr) addr_len in
    let r := _i2c_write flags retry i2c_addr addr addr_len bus log in
    exists k : nat,
      (1 <= k <= Pos.to_nat retry)%nat /\
      snd r = log ++ repeat msg k /\
      fst r = bus (length log + k - 1)%nat /\
      (forall j, (j < k - 1)%nat -> bus (length log + j)%nat <> 0) /\
      (fst r <> 0 -> k = Pos.to_nat retry) /\
      acked bus (length log) (repeat msg k) =
      if fst r =? 0 then [msg] else [].
Proof. intros. apply i2c_write_spec. Qed.

(** X15.  bridge_i2c_write_int refuses the sizes it cannot encode: for a
    size above 8, and for the sizes 0 and 3, it returns -1 and nothing is
    handed to the bus. *)
Theorem bridge_i2c_write_int_refuses_size :
  forall (flags : Z) (retry : positive) (stack : list Z)
         (i2c_addr regaddr data size : Z) (bus : nat -> Z)
         (log : list i2c_msg_s),
    size > 8 \/ size = 0 \/ size = 3 ->
    bridge_i2c_write_int flags retry stack i2c_addr regaddr data size bus log
    = (-1, log).
Proof.
  intros flags retry stack i2c_addr regaddr data size bus log Hsize.
  unfold bridge_i2c_write_int.
  destruct Hsize as [Hbig | [-> | ->]]; [|reflexivity|reflexivity].
  replace (size >? 8) with true by (symmetry; apply Z.gtb_lt; lia).
  reflexivity.
Qed.

Lemma bridge_i2c_write_int_refuses_size_witness :
  bridge_i2c_write_int 0 3 (repeat 0 10) DEV_I2C_ADDR 0x0004 0x0CD7 3
                       (fun _ => 0) [] = (-1, []).
Proof.
  apply (bridge_i2c_write_int_refuses_size 0 3 (repeat 0 10) DEV_I2C_ADDR
           0x0004 0x0CD7 3 (fun _ => 0) []).
  right. right. reflexivity.
Defined.

(** X16.  For the sizes 1, 2 and 4 bridge_i2c_write_int sends one
    message (repeated while the bus refuses it, up to the retry count) of
    size + 2 bytes to the given I2C address: the register address MSB
    first, then the low size bytes of data LSB first, whatever the
    uninitialised array held.  Register address and data (modulo
    2^(8 size)) can be read back from the message; the bus acknowledges
    it exactly once when the result is 0 and not at all otherwise. *)
Theorem bridge_i2c_write_int_encodes :
  forall (flags : Z) (retry : positive) (stack : list Z)
         (i2c_addr regaddr data size : Z) (bus : nat -> Z)
         (log : list i2c_msg_s),
    length stack = 10%nat ->
    size = 1 \/ size = 2 \/ size = 4 ->
    0 <= regaddr < 2 ^ 16 ->
    let r := bridge_i2c_write_int flags retry stack i2c_addr regaddr data
                                  size bus log in
    exists (k : nat) (msg : i2c_msg_s),
      (1 <= k <= Pos.to_nat retry)%nat /\
      snd r = log ++ repeat msg k /\
      acked bus (length log) (repeat msg k) =
        (if fst r =? 0 then [msg] else []) /\
      msg_addr msg = i2c_addr /\
      msg_length msg = size + 2 /\
      Z.of_nat (length (msg_buffer msg)) = size + 2 /\
      msg_regaddr msg = regaddr /\
      le_value (msg_payload msg) = data mod 2 ^ (8 * size).
Proof.
  intros flags retry stack i2c_addr regaddr data size bus log Hlen Hsize
         Hreg r.
  unfold r. rewrite bridge_i2c_write_int_sized by assumption.
  set (msg := mk_i2c_msg i2c_addr flags _ _).
  destruct (i2c_write_retry_spec (Pos.to_nat retry - 1) bus msg log)
    as (k & Hk & Hlog & Hret & Hfail & _).
  pose proof (Pos2Nat.is_pos retry) as Hpos.
  exists k, msg. split; [lia|]. split; [exact Hlog|]. split.
  { rewrite Hret. apply acked_retries; [lia | exact Hfail]. }
  split; [reflexivity|]. split; [reflexivity|]. split.
  { unfold msg. cbn [msg_buffer]. rewrite length_app, le_bytes_length.
    cbn [length]. destruct Hsize as [-> | [-> | ->]]; reflexivity. }
  split.
  { unfold msg, msg_regaddr. cbn [msg_buffer app]. apply be16_value.
    exact Hreg. }
  unfold msg, msg_payload. cbn [msg_buffer app skipn].
  rewrite le_value_le_bytes. f_equal. f_equal.
  destruct Hsize as [-> | [-> | ->]]; reflexivity.
Qed.

Lemma bridge_i2c_write_int_encodes_witness :
  exists (k : nat) (msg : i2c_msg_s),
    (1 <= k <= Pos.to_nat 3)%nat /\
    snd (bridge_i2c_write_int 0 3 (repeat 0xAA 10) DEV_I2C_ADDR 0x0004
           0x0CD7 2 (bus_fails_first 1) []) = [] ++ repeat msg k /\
    acked (bus_fails_first 1) (length (@nil i2c_msg_s)) (repeat msg k) =
      (if fst (bridge_i2c_write_int 0 3 (repeat 0xAA 10) DEV_I2C_ADDR 0x0004
                 0x0CD7 2 (bus_fails_first 1) []) =? 0
       then [msg] else []) /\
    msg_addr msg = DEV_I2C_ADDR /\
    msg_length msg = 2 + 2 /\
    Z.of_nat (length (msg_buffer msg)) = 2 + 2 /\
    msg_regaddr msg = 0x0004 /\
    le_value (msg_payload msg) = 0x0CD7 mod 2 ^ (8 * 2).
Proof.
  apply (bridge_i2c_write_int_encodes 0 3 (repeat 0xAA 10) DEV_I2C_ADDR
           0x0004 0x0CD7 2 (bus_fails_first 1) []).
  - reflexivity.
  - right. left. reflexivity.
  - split; [discriminate | reflexivity].
Defined.

(** X17.  For the sizes 5 to 8 bridge_i2c_write_int never looks at data:
    the message carries the register address followed by size bytes of
    whatever the uninitialised local array held. *)
Theorem bridge_i2c_write_int_wide_sends_stack :
  forall (flags : Z) (retry : positive) (stack : list Z)
         (i2c_addr regaddr data size : Z) (bus : nat -> Z)
         (log : list i2c_msg_s),
    length stack = 10%nat ->
    5 <= size <= 8 ->
    bridge_i2c_write_int flags retry stack i2c_addr regaddr data size bus log
    = i2c_write_retry (Pos.to_nat retry - 1) bus log
        (mk_i2c_msg i2c_addr flags
           ([Z.land (Z.shiftr regaddr 8) 0xFF; Z.land regaddr 0xFF]
              ++ firstn (Z.to_nat size) (skipn 2 stack))
           (size + 2)).
Proof.
  intros flags retry stack i2c_addr regaddr data size bus log Hlen Hsize.
  destruct_array10 stack Hlen.
  assert (Hcases : size = 5 \/ size = 6 \/ size = 7 \/ size = 8) by lia.
  destruct Hcases as [-> | [-> | [-> | ->]]]; reflexivity.
Qed.

Lemma bridge_i2c_write_int_wide_sends_stack_witness :
  snd (bridge_i2c_write_int 0 1 (repeat 0xAA 10) DEV_I2C_ADDR 0x0140
         0x12345678 5 (fun _ => 0) []) =
  [mk_i2c_msg DEV_I2C_ADDR 0 [0x01; 0x40; 0xAA; 0xAA; 0xAA; 0xAA; 0xAA] 7].
Proof.
  rewrite (bridge_i2c_write_int_wide_sends_stack 0 1 (repeat 0xAA 10)
             DEV_I2C_ADDR 0x0140 0x12345678 5 (fun _ => 0) []).
  - reflexivity.
  - reflexivity.
  - lia.
Defined.

(** The message of a raw write. *)
Lemma bridge_i2c_write_raw_sized flags retry stack i2c_addr regaddr data size
      bus log :
  length stack = 10%nat ->
  0 <= size <= 8 ->
  (Z.to_nat size <= length data)%nat ->
  bridge_i2c_write_raw flags retry stack i2c_addr regaddr data size bus log =
  Some (i2c_write_retry (Pos.to_nat retry - 1) bus log
          (mk_i2c_msg i2c_addr flags
             ([Z.land (Z.shiftr regaddr 8) 0xFF; Z.land regaddr 0xFF]
                ++ firstn (Z.to_nat size) data)
             (size + 2))).
Proof.
  intros Hlen Hsize Hdata. unfold bridge_i2c_write_raw.
  replace (size >? 8) with false
    by (symmetry; rewrite Z.gtb_ltb; apply Z.ltb_ge; lia).
  set (addr := array_set (array_set stack 0 _) 1 _).
  assert (Haddr : length addr = 10%nat /\
                  firstn 2 addr =
                  [Z.land (Z.shiftr regaddr 8) 0xFF; Z.land regaddr 0xFF]).
  { unfold addr. destruct_array10 stack Hlen. split; reflexivity. }
  destruct Haddr as [Hl Hf].
  rewrite memcpy_in_bounds by lia.
  unfold _i2c_write. do 3 f_equal.
  replace (Z.to_nat (size + 2)) with (2 + Z.to_nat size)%nat by lia.
  rewrite blit_firstn by lia. rewrite Hf. reflexivity.
Qed.

(** X18.  bridge_i2c_write_raw with a size of at most 8 sends the
    register address MSB first followed by the first size bytes of data,
    in one message of size + 2 bytes (repeated while the bus refuses it,
    up to the retry count), provided data has that many bytes; its result
    is 0 exactly when the bus has acknowledged the message.  With fewer
    bytes in data the copy reads past data.  A size above 8 is refused
    with -1 before anything is sent. *)
Theorem bridge_i2c_write_raw_sends_data :
  forall (flags : Z) (retry : positive) (stack : list Z)
         (i2c_addr regaddr : Z) (data : list Z) (size : Z)
         (bus : nat -> Z) (log : list i2c_msg_s),
    length stack = 10%nat ->
    0 <= size ->
    let r := bridge_i2c_write_raw flags retry stack i2c_addr regaddr data
                                  size bus log in
    let msg := mk_i2c_msg i2c_addr flags
                 ([Z.land (Z.shiftr regaddr 8) 0xFF; Z.land regaddr 0xFF]
                    ++ firstn (Z.to_nat size) data)
                 (size + 2) in
    (size > 8 -> r = Some (-1, log)) /\
    (size <= 8 -> (length data < Z.to_nat size)%nat -> r = None) /\
    (size <= 8 -> (Z.to_nat size <= length data)%nat ->
     exists (k : nat) (ret : Z),
       (1 <= k <= Pos.to_nat retry)%nat /\
       r = Some (ret, log ++ repeat msg k) /\
       (ret <> 0 -> k = Pos.to_nat retry) /\
       acked bus (length log) (repeat msg k) =
         (if ret =? 0 then [msg] else [])).
Proof.
  intros flags retry stack i2c_addr regaddr data size bus log Hlen Hsize r
         msg.
  split; [|split].
  - intros Hbig. unfold r, bridge_i2c_write_raw.
    replace (size >? 8) with true by (symmetry; apply Z.gtb_lt; lia).
    reflexivity.
  - intros Hle Hshort. unfold r, bridge_i2c_write_raw.
    replace (size >? 8) with false
      by (symmetry; rewrite Z.gtb_ltb; apply Z.ltb_ge; lia).
    unfold memcpy.
    replace (Z.to_nat size <=? length data)%nat with false
      by (symmetry; apply Nat.leb_gt; exact Hshort).
    rewrite andb_false_r. reflexivity.
  - intros Hle Hdata. unfold r.
    rewrite bridge_i2c_write_raw_sized by (try assumption; lia).
    fold msg.
    destruct (i2c_write_retry_spec (Pos.to_nat retry - 1) bus msg log)
      as (k & Hk & Hlog & Hret & Hfail & Hlast).
    pose proof (Pos2Nat.is_pos retry) as Hpos.
    exists k, (fst (i2c_write_retry (Pos.to_nat retry - 1) bus log msg)).
    split; [lia|]. split.
    { rewrite <- Hlog. rewrite <- surjective_pairing. reflexivity. }
    split.
    { intros Hne. rewrite (Hlast Hne). lia. }
    rewrite Hret. apply acked_retries; [lia | exact Hfail].
Qed.

(** The three cases: 8 of 9 bytes sent to register 0x8C08 at the second
    attempt; a size of 9 refused; 8 bytes asked of an array of 3. *)
Lemma bridge_i2c_write_raw_sends_data_witness :
  (exists (k : nat) (ret : Z),
     (1 <= k <= Pos.to_nat 3)%nat /\
     bridge_i2c_write_raw 0 3 (repeat 0xAA 10) DEV_I2C_ADDR 0x8C08
       [1; 2; 3; 4; 5; 6; 7; 8; 9] 8 (bus_fails_first 1) [] =
     Some (ret,
           [] ++ repeat
             (mk_i2c_msg DEV_I2C_ADDR 0
                ([Z.land (Z.shiftr 0x8C08 8) 0xFF; Z.land 0x8C08 0xFF]
                   ++ firstn (Z.to_nat 8) [1; 2; 3; 4; 5; 6; 7; 8; 9])
                (8 + 2)) k) /\
     (ret <> 0 -> k = Pos.to_nat 3) /\
     acked (bus_fails_first 1) (length (@nil i2c_msg_s))
       (repeat
          (mk_i2c_msg DEV_I2C_ADDR 0
             ([Z.land (Z.shiftr 0x8C08 8) 0xFF; Z.land 0x8C08 0xFF]
                ++ firstn (Z.to_nat 8) [1; 2; 3; 4; 5; 6; 7; 8; 9])
             (8 + 2)) k) =
       (if ret =? 0
        then [mk_i2c_msg DEV_I2C_ADDR 0
                ([Z.land (Z.shiftr 0x8C08 8) 0xFF; Z.land 0x8C08 0xFF]
                   ++ firstn (Z.to_nat 8) [1; 2; 3; 4; 5; 6; 7; 8; 9])
                (8 + 2)]
        else [])) /\
  bridge_i2c_write_raw 0 3 (repeat 0xAA 10) DEV_I2C_ADDR 0x8C08
    [1; 2; 3; 4; 5; 6; 7; 8; 9] 8 (bus_fails_first 1) [] =
  Some (0, repeat (mk_i2c_msg DEV_I2C_ADDR 0
                     [0x8C; 0x08; 1; 2; 3; 4; 5; 6; 7; 8] 10) 2) /\
  bridge_i2c_write_raw 0 3 (repeat 0xAA 10) DEV_I2C_ADDR 0x8C08
    [1; 2; 3; 4; 5; 6; 7; 8; 9] 9 (bus_fails_first 1) [] = Some (-1, []) /\
  bridge_i2c_write_raw 0 3 (repeat 0xAA 10) DEV_I2C_ADDR 0x8C08
    [1; 2; 3] 8 (bus_fails_first 1) [] = None.
Proof.
  split; [|split; [reflexivity|split]].
  - apply (bridge_i2c_write_raw_sends_data 0 3 (repeat 0xAA 10) DEV_I2C_ADDR
             0x8C08 [1; 2; 3; 4; 5; 6; 7; 8; 9] 8 (bus_fails_first 1) []).
    + reflexivity.
    + lia.
    + lia.
    + simpl. lia.
  - apply (bridge_i2c_write_raw_sends_data 0 3 (repeat 0xAA 10) DEV_I2C_ADDR
             0x8C08 [1; 2; 3; 4; 5; 6; 7; 8; 9] 9 (bus_fails_first 1) []).
    + reflexivity.
    + lia.
    + lia.
  - apply (bridge_i2c_write_raw_sends_data 0 3 (repeat 0xAA 10) DEV_I2C_ADDR
             0x8C08 [1; 2; 3] 8 (bus_fails_first 1) []).
    + reflexivity.
    + lia.
    + lia.
    + simpl. lia.
Defined.

(** ** The initialisation thread *)

Lemma int_msg_eq flags regaddr data size :
  int_size_ok (regaddr, data, size) ->
  int_msg flags (regaddr, data, size) =
  mk_i2c_msg DEV_I2C_ADDR flags
    ([Z.land (Z.shiftr regaddr 8) 0xFF; Z.land regaddr 0xFF]
       ++ le_bytes (Z.to_nat size) data)
    (size + 2).
Proof.
  unfold int_size_ok. cbn [snd]. intros [-> | [-> | ->]]; reflexivity.
Qed.

Lemma int_size_ok_check regs :
  forallb (fun r : Z * Z * Z =>
             (snd r =? 1) || (snd r =? 2) || (snd r =? 4)) regs = true ->
  Forall int_size_ok regs.
Proof.
  intros H. apply Forall_forall. intros r Hr.
  rewrite forallb_forall in H. specialize (H r Hr).
  unfold int_size_ok.
  destruct (snd r =? 1) eqn:E1; [left; apply Z.eqb_eq; exact E1|].
  destruct (snd r =? 2) eqn:E2; [right; left; apply Z.eqb_eq; exact E2|].
  destruct (snd r =? 4) eqn:E4; [right; right; apply Z.eqb_eq; exact E4|].
  discriminate.
Qed.

Lemma bridge_regs_sizes_ok :
  Forall int_size_ok bridge_regs_before_edid /\
  Forall int_size_ok bridge_regs_after_edid.
Proof. split; apply int_size_ok_check; reflexivity. Qed.

Section InitThread.

Variable FLAGS : Z.
Variable RETRY : positive.

(** A run of register writes: the bridge gets the writes in program
    order, each once, up to the first one that the bus refuses RETRY
    times; after that one nothing more is sent. *)
Lemma write_regs_spec regs :
  Forall int_size_ok regs ->
  forall rc stack bus log,
    length stack = 10%nat ->
    exists (j : nat) (new : list i2c_msg_s),
      snd (write_regs FLAGS RETRY regs rc stack bus log) = log ++ new /\
      acked bus (length log) new = map (int_msg FLAGS) (firstn j regs) /\
      (j <= length regs)%nat /\
      (rc <> 0 ->
       new = [] /\ fst (write_regs FLAGS RETRY regs rc stack bus log) = rc) /\
      (rc = 0 ->
       (fst (write_regs FLAGS RETRY regs rc stack bus log) = 0 <->
        j = length regs)).
Proof.
  induction 1 as [|[[regaddr data] size] regs Hr Hregs IH];
    intros rc stack bus log Hlen.
  - exists 0%nat, []. cbn [write_regs fst snd firstn map acked length].
    rewrite app_nil_r. repeat split; auto.
  - cbn [write_regs]. destruct (rc =? 0) eqn:Erc.
    + apply Z.eqb_eq in Erc. subst rc.
      rewrite bridge_i2c_write_int_sized by assumption.
      rewrite <- (int_msg_eq FLAGS) by exact Hr.
      set (msg := int_msg FLAGS (regaddr, data, size)).
      destruct (i2c_write_retry_spec (Pos.to_nat RETRY - 1) bus msg log)
        as (k & Hk & Hlog & Hret & Hfail & _).
      destruct (i2c_write_retry _ bus log msg) as [rc1 log1].
      cbn [fst snd] in Hlog, Hret. subst log1.
      destruct (IH rc1 stack bus (log ++ repeat msg k) Hlen)
        as (j & new & Hsnd & Hack & Hj & Hskip & Hdone).
      assert (Hmsg : acked bus (length log) (repeat msg k) =
                     if rc1 =? 0 then [msg] else []).
      { rewrite Hret. apply acked_retries; [lia | exact Hfail]. }
      destruct (rc1 =? 0) eqn:E1.
      * apply Z.eqb_eq in E1. exists (S j), (repeat msg k ++ new).
        split; [rewrite Hsnd, app_assoc; reflexivity|].
        split.
        { rewrite acked_app, Hmsg. rewrite length_app in Hack.
          rewrite Hack. reflexivity. }
        split; [cbn [length]; lia|]. split; [congruence|].
        intros _. rewrite (Hdone E1). cbn [length]. lia.
      * apply Z.eqb_neq in E1. destruct (Hskip E1) as [-> Hrc].
        exists 0%nat, (repeat msg k).
        split; [rewrite Hsnd, app_nil_r; reflexivity|].
        split; [exact Hmsg|]. split; [lia|]. split; [congruence|].
        intros _. rewrite Hrc. cbn [length]. split; [congruence|lia].
    + apply Z.eqb_neq in Erc.
      destruct (IH rc stack bus log Hlen)
        as (j & new & Hsnd & Hack & Hj & Hskip & _).
      destruct (Hskip Erc) as [-> Hrc].
      exists 0%nat, []. split; [exact Hsnd|]. split; [reflexivity|].
      split; [lia|]. split; [auto|]. congruence.
Qed.

(** The EDID loop on a table of 8 n bytes: the bridge gets the table in
    messages of 8 bytes at consecutive addresses, in order, each once, up
    to the first one that the bus refuses RETRY times. *)
Lemma edid_upload_spec (n : nat) :
  forall rest offset rc stack bus log,
    length rest = (8 * n)%nat ->
    length stack = 10%nat ->
    0 <= offset ->
    0x8C00 + offset + 8 * Z.of_nat n <= 2 ^ 16 ->
    exists (rc' : Z) (j : nat) (new : list i2c_msg_s),
      edid_upload FLAGS RETRY rest offset rc stack bus log =
        Some (rc', log ++ new) /\
      acked bus (length log) new =
        firstn j (edid_msgs FLAGS rest (0x8C00 + offset)) /\
      (j <= n)%nat /\
      (n = 0%nat -> rc' = rc /\ new = []) /\
      ((0 < n)%nat -> (rc' = 0 <-> j = n)).
Proof.
  induction n as [|n IH]; intros rest offset rc stack bus log Hrest Hlen
                                 Hoff Hfit.
  - destruct rest; [|discriminate].
    exists rc, 0%nat, []. cbn [edid_upload firstn acked].
    rewrite app_nil_r. repeat split; auto; lia.
  - replace (8 * S n)%nat with (S (S (S (S (S (S (S (S (8 * n)))))))))
      in Hrest by lia.
    do 8 (destruct rest as [|? rest]; [discriminate|]).
    assert (Hrest' : length rest = (8 * n)%nat) by (cbn [length] in Hrest; lia).
    cbn [edid_upload].
    rewrite Z.mod_small by lia.
    rewrite bridge_i2c_write_raw_sized
      by (try assumption; cbn [length]; lia).
    change (firstn (Z.to_nat 8) (?a :: ?b :: ?c :: ?d :: ?e :: ?f :: ?g
                                   :: ?h :: rest))
      with [a; b; c; d; e; f; g; h].
    match goal with |- context [i2c_write_retry _ bus log ?m] =>
      set (msg := m) end.
    assert (Hmsg_eq : edid_msgs FLAGS (z :: z0 :: z1 :: z2 :: z3 :: z4
                                         :: z5 :: z6 :: rest)
                                (0x8C00 + offset) =
                      msg :: edid_msgs FLAGS rest (0x8C00 + (offset + 8))).
    { cbn [edid_msgs]. f_equal. f_equal. lia. }
    destruct (i2c_write_retry_spec (Pos.to_nat RETRY - 1) bus msg log)
      as (k & Hk & Hlog & Hret & Hfail & _).
    destruct (i2c_write_retry _ bus log msg) as [rc1 log1].
    cbn [fst snd] in Hlog, Hret. subst log1.
    assert (Hmsg : acked bus (length log) (repeat msg k) =
                   if rc1 =? 0 then [msg] else []).
    { rewrite Hret. apply acked_retries; [lia | exact Hfail]. }
    destruct (rc1 =? 0) eqn:E1.
    + apply Z.eqb_eq in E1.
      destruct (IH rest (offset + 8) rc1 stack bus (log ++ repeat msg k)
                   Hrest' Hlen ltac:(lia) ltac:(lia))
        as (rc' & j & new & Hup & Hack & Hj & Hzero & Hpos).
      exists rc', (S j), (repeat msg k ++ new).
      split; [rewrite Hup, app_assoc; reflexivity|].
      split.
      { rewrite acked_app, Hmsg, Hmsg_eq. rewrite length_app in Hack.
        rewrite Hack. reflexivity. }
      split; [lia|]. split; [lia|]. intros _.
      destruct n as [|n].
      * destruct (Hzero eq_refl) as [-> _]. split; [lia | auto].
      * rewrite (Hpos ltac:(lia)). lia.
    + apply Z.eqb_neq in E1.
      exists rc1, 0%nat, (repeat msg k).
      split; [reflexivity|]. split; [exact Hmsg|]. split; [lia|].
      split; [lia|]. intros _. split; [congruence | lia].
Qed.

End InitThread.

(** Cut into messages, a table of 8 n bytes is all there, in order. *)
Lemma edid_msgs_cover flags (n : nat) :
  forall rest regaddr,
    length rest = (8 * n)%nat ->
    0 <= regaddr -> regaddr + 8 * Z.of_nat n <= 2 ^ 16 ->
    length (edid_msgs flags rest regaddr) = n /\
    concat (map msg_payload (edid_msgs flags rest regaddr)) = rest /\
    map msg_regaddr (edid_msgs flags rest regaddr) = chunk_addrs regaddr n.
Proof.
  unfold chunk_addrs.
  induction n as [|n IH]; intros rest regaddr Hrest Hlo Hhi.
  - destruct rest; [|discriminate]. repeat split.
  - replace (8 * S n)%nat with (S (S (S (S (S (S (S (S (8 * n)))))))))
      in Hrest by lia.
    do 8 (destruct rest as [|? rest]; [discriminate|]).
    assert (Hrest' : length rest = (8 * n)%nat) by (cbn [length] in Hrest; lia).
    destruct (IH rest (regaddr + 8) Hrest' ltac:(lia) ltac:(lia))
      as (Hn & Hcat & Haddr).
    cbn [edid_msgs length map concat]. split; [congruence|]. split.
    + unfold msg_payload at 1. cbn [reg_msg msg_buffer app skipn].
      rewrite Hcat. reflexivity.
    + cbn [seq map]. f_equal.
      * unfold msg_regaddr. cbn [reg_msg msg_buffer app].
        rewrite Z.add_0_r. apply be16_value. lia.
      * rewrite Haddr. rewrite <- seq_shift, map_map.
        apply map_ext. intros i. lia.
Qed.

Lemma edid_tables_length config :
  length (edid config) =
  (8 * (if config then 16 else 34))%nat.
Proof. destruct config; reflexivity. Qed.

(** The EDID loop on the tables of the configuration. *)
Lemma edid_upload_tables_spec (config : bool) (flags : Z) (retry : positive)
    (rc : Z) (stack : list Z) (bus : nat -> Z) (log : list i2c_msg_s) :
  length stack = 10%nat ->
  exists (rc' : Z) (j : nat) (new : list i2c_msg_s),
    edid_upload flags retry (edid config) 0 rc stack bus log =
      Some (rc', log ++ new) /\
    acked bus (length log) new =
      firstn j (edid_msgs flags (edid config) 0x8C00) /\
    (j <= if config then 16 else 34)%nat /\
    (rc' = 0 <-> j = if config then 16%nat else 34%nat).
Proof.
  intros Hlen.
  pose proof (edid_tables_length config) as Htab.
  assert (Hfit : 0x8C00 + 0 + 8 * Z.of_nat (if config then 16 else 34)
                 <= 2 ^ 16)
    by (destruct config; vm_compute; discriminate).
  destruct (edid_upload_spec flags retry _ (edid config) 0 rc stack bus log
              Htab Hlen (Z.le_refl 0) Hfit)
    as (rc' & j & new & Hup & Hack & Hj & _ & Hpos).
  exists rc', j, new. split; [exact Hup|]. split; [exact Hack|].
  split; [exact Hj|].
  apply Hpos. destruct config; lia.
Qed.

(** X19.  The EDID loop, for either table of the configuration (128
    bytes for 1080p30, 272 bytes for 720p60) and whatever the bus does:
    it never reads past the table, and the bridge gets the table cut into
    messages of 8 bytes at the register addresses 0x8C00, 0x8C08, ..., in
    order and each once, up to the first message that the bus refuses
    RETRY times.  The loop ends with rc = 0 exactly when the bridge has
    got the whole table, whatever rc was before the loop. *)
Theorem edid_upload_writes_table :
  forall (config : bool) (flags : Z) (retry : positive) (rc : Z)
         (stack : list Z) (bus : nat -> Z) (log : list i2c_msg_s),
    length stack = 10%nat ->
    let n := if config then 16%nat else 34%nat in
    let msgs := edid_msgs flags (edid config) 0x8C00 in
    exists (rc' : Z) (j : nat) (new : list i2c_msg_s),
      edid_upload flags retry (edid config) 0 rc stack bus log =
        Some (rc', log ++ new) /\
      acked bus (length log) new = firstn j msgs /\
      (j <= n)%nat /\
      (rc' = 0 <-> j = n) /\
      length msgs = n /\
      concat (map msg_payload msgs) = edid config /\
      map msg_regaddr msgs = chunk_addrs 0x8C00 n.
Proof.
  intros config flags retry rc stack bus log Hlen n msgs.
  pose proof (edid_tables_length config) as Htab. fold n in Htab.
  destruct (edid_upload_tables_spec config flags retry rc stack bus log Hlen)
    as (rc' & j & new & Hup & Hack & Hj & Hrc).
  destruct (edid_msgs_cover flags n (edid config) 0x8C00 Htab)
    as (Hn & Hcat & Haddr);
    [lia | unfold n; destruct config; vm_compute; discriminate |].
  exists rc', j, new. split; [exact Hup|]. split; [exact Hack|].
  split; [exact Hj|]. split; [exact Hrc | auto].
Qed.

Lemma edid_upload_writes_table_witness :
  exists (rc' : Z) (j : nat) (new : list i2c_msg_s),
    edid_upload 0 2 (edid true) 0 7 (repeat 0 10) (bus_fails_first 1) [] =
      Some (rc', [] ++ new) /\
    acked (bus_fails_first 1) (length (@nil i2c_msg_s)) new =
      firstn j (edid_msgs 0 (edid true) 0x8C00) /\
    (j <= 16)%nat /\
    (rc' = 0 <-> j = 16%nat) /\
    length (edid_msgs 0 (edid true) 0x8C00) = 16%nat /\
    concat (map msg_payload (edid_msgs 0 (edid true) 0x8C00)) = edid true /\
    map msg_regaddr (edid_msgs 0 (edid true) 0x8C00) =
      chunk_addrs 0x8C00 16.
Proof.
  apply (edid_upload_writes_table true 0 2 7 (repeat 0 10)
           (bus_fails_first 1) []).
  reflexivity.
Defined.

(** X20.  bridge_init_thread, whatever the bus does: it drives led_en
    and then rst_n high, and the bridge gets, in this order and each
    once, the first j1 of the 47 register writes before the EDID loop,
    complete or cut at the first write that failed; the first j2 messages
    of the EDID table, complete or cut at the first message that failed;
    and, only if the whole table went through, the first j3 of the 27
    register writes behind the loop.  The thread ends with rc = 0 exactly
    when the whole table and all 27 later registers went through: a
    failure among the first 47 writes is forgotten once the EDID loop has
    run. *)
Theorem bridge_init_thread_writes :
  forall (config : bool) (flags : Z) (retry : positive)
         (stack : list Z) (bus : nat -> Z) (c : cam_world),
    length stack = 10%nat ->
    let n := if config then 16%nat else 34%nat in
    exists (rc : Z) (c' : cam_world) (j1 j2 j3 : nat)
           (new : list i2c_msg_s),
      bridge_init_thread flags retry config stack bus c = Some (rc, c') /\
      s_data c' = s_data c /\
      gpio_calls c' =
        gpio_calls c ++ [(led_en (s_data c), 1); (rst_n (s_data c), 1)] /\
      i2c_log c' = i2c_log c ++ new /\
      acked bus (length (i2c_log c)) new =
        map (int_msg flags) (firstn j1 bridge_regs_before_edid)
          ++ firstn j2 (edid_msgs flags (edid config) 0x8C00)
          ++ map (int_msg flags) (firstn j3 bridge_regs_after_edid) /\
      (j1 <= 47)%nat /\ (j2 <= n)%nat /\ (j3 <= 27)%nat /\
      length bridge_regs_before_edid = 47%nat /\
      length (edid_msgs flags (edid config) 0x8C00) = n /\
      length bridge_regs_after_edid = 27%nat /\
      ((j2 < n)%nat -> j3 = 0%nat) /\
      (rc = 0 <-> j2 = n /\ j3 = 27%nat).
Proof.
  intros config flags retry stack bus c Hlen n.
  destruct bridge_regs_sizes_ok as [Hpre Hpost].
  assert (Hn47 : length bridge_regs_before_edid = 47%nat) by reflexivity.
  assert (Hn27 : length bridge_regs_after_edid = 27%nat) by reflexivity.
  assert (Hnn : length (edid_msgs flags (edid config) 0x8C00) = n).
  { destruct (edid_msgs_cover flags n (edid config) 0x8C00
                (edid_tables_length config)) as (H & _); [lia | | exact H].
    unfold n. destruct config; vm_compute; discriminate. }
  unfold bridge_init_thread.
  cbn [cam_gpio_direction_out s_data gpio_calls i2c_log].
  destruct (write_regs_spec flags retry _ Hpre 0 stack bus (i2c_log c) Hlen)
    as (j1 & new1 & Hsnd1 & Hack1 & Hj1 & _).
  destruct (write_regs flags retry bridge_regs_before_edid 0 stack bus
              (i2c_log c)) as [rc1 log1].
  cbn [snd] in Hsnd1. subst log1.
  destruct (edid_upload_tables_spec config flags retry rc1 stack bus
              (i2c_log c ++ new1) Hlen)
    as (rc2 & j2 & new2 & Hup & Hack2 & Hj2 & Hrc2).
  fold n in Hrc2, Hj2. rewrite Hup.
  destruct (write_regs_spec flags retry _ Hpost rc2 stack bus
              ((i2c_log c ++ new1) ++ new2) Hlen)
    as (j3 & new3 & Hsnd3 & Hack3 & Hj3 & Hskip & Hdone).
  destruct (write_regs flags retry bridge_regs_after_edid rc2 stack bus
              ((i2c_log c ++ new1) ++ new2)) as [rc3 log3].
  cbn [fst snd] in Hsnd3, Hskip, Hdone. subst log3.
  rewrite !length_app in Hack3. rewrite length_app in Hack2.
  rewrite Hn47 in Hj1. rewrite Hn27 in Hj3, Hdone.
  destruct (Z.eq_dec rc2 0) as [E2 | E2].
  - exists rc3, (cam_set_i2c_log (((i2c_log c ++ new1) ++ new2) ++ new3)
                   (mk_cam (s_data c)
                      ((gpio_calls c ++ [(led_en (s_data c), 1)])
                         ++ [(rst_n (s_data c), 1)])
                      (i2c_log c) (format_db_registered c)
                      (control_db_registered c) (metadata_task_ready c)
                      (init_thread_started c))),
           j1, j2, j3, (new1 ++ new2 ++ new3).
    split; [reflexivity|]. split; [reflexivity|].
    split; [cbn [cam_set_i2c_log gpio_calls]; rewrite <- app_assoc;
            reflexivity|].
    split; [cbn [cam_set_i2c_log i2c_log]; rewrite <- !app_assoc;
            reflexivity|].
    split.
    { rewrite !acked_app, Hack1, Hack2, Hack3. reflexivity. }
    do 6 (split; [assumption|]).
    pose proof (proj1 Hrc2 E2) as Hj2n.
    split; [intros Hlt; lia|].
    rewrite (Hdone E2). tauto.
  - destruct (Hskip E2) as [-> Hrc3]. subst rc3.
    exists rc2, (cam_set_i2c_log (((i2c_log c ++ new1) ++ new2) ++ [])
                   (mk_cam (s_data c)
                      ((gpio_calls c ++ [(led_en (s_data c), 1)])
                         ++ [(rst_n (s_data c), 1)])
                      (i2c_log c) (format_db_registered c)
                      (control_db_registered c) (metadata_task_ready c)
                      (init_thread_started c))),
           j1, j2, 0%nat, (new1 ++ new2).
    split; [reflexivity|]. split; [reflexivity|].
    split; [cbn [cam_set_i2c_log gpio_calls]; rewrite <- app_assoc;
            reflexivity|].
    split; [cbn [cam_set_i2c_log i2c_log]; rewrite app_nil_r, <- app_assoc;
            reflexivity|].
    split.
    { rewrite acked_app, Hack1, Hack2. cbn [firstn map].
      rewrite app_nil_r. reflexivity. }
    split; [assumption|]. split; [assumption|]. split; [lia|].
    do 3 (split; [assumption|]).
    split; [reflexivity|].
    split; [congruence|]. intros [Hj2n _]. apply (proj2 Hrc2) in Hj2n.
    congruence.
Qed.

Lemma bridge_init_thread_writes_witness :
  exists (rc : Z) (c' : cam_world) (j1 j2 j3 : nat) (new : list i2c_msg_s),
    bridge_init_thread 0 2 false (repeat 0 10) (bus_fails_first 2) cam_reset
      = Some (rc, c') /\
    s_data c' = s_data cam_reset /\
    gpio_calls c' =
      gpio_calls cam_reset
        ++ [(led_en (s_data cam_reset), 1); (rst_n (s_data cam_reset), 1)] /\
    i2c_log c' = i2c_log cam_reset ++ new /\
    acked (bus_fails_first 2) (length (i2c_log cam_reset)) new =
      map (int_msg 0) (firstn j1 bridge_regs_before_edid)
        ++ firstn j2 (edid_msgs 0 (edid false) 0x8C00)
        ++ map (int_msg 0) (firstn j3 bridge_regs_after_edid) /\
    (j1 <= 47)%nat /\ (j2 <= 34)%nat /\ (j3 <= 27)%nat /\
    length bridge_regs_before_edid = 47%nat /\
    length (edid_msgs 0 (edid false) 0x8C00) = 34%nat /\
    length bridge_regs_after_edid = 27%nat /\
    ((j2 < 34)%nat -> j3 = 0%nat) /\
    (rc = 0 <-> j2 = 34%nat /\ j3 = 27%nat).
Proof.
  apply (bridge_init_thread_writes false 0 2 (repeat 0 10)
           (bus_fails_first 2) cam_reset).
  reflexivity.
Defined.

(** ** A bus that recovers *)

Lemma i2c_write_retry_all_fail (n : nat) bus msg :
  forall log,
    (forall i, (i <= n)%nat -> bus (length log + i)%nat <> 0) ->
    i2c_write_retry n bus log msg =
    (bus (length log + n)%nat, log ++ repeat msg (S n)).
Proof.
  induction n as [|n IH]; intros log Hfail;
    cbn [i2c_write_retry I2C_TRANSFER];
    pose proof (Hfail 0%nat ltac:(lia)) as H0;
    rewrite Nat.add_0_r in H0; apply Z.eqb_neq in H0; rewrite H0.
  - rewrite Nat.add_0_r. reflexivity.
  - rewrite IH.
    + rewrite length_app. cbn [length repeat].
      rewrite <- app_assoc. do 2 f_equal. lia.
    + intros i Hi. rewrite length_app. cbn [length].
      replace (length log + 1 + i)%nat with (length log + S i)%nat by lia.
      apply Hfail. lia.
Qed.

Lemma i2c_write_retry_accepted (n : nat) bus msg log :
  bus (length log) = 0 ->
  i2c_write_retry n bus log msg = (0, log ++ [msg]).
Proof.
  intros H. destruct n; cbn [i2c_write_retry I2C_TRANSFER]; rewrite H;
    reflexivity.
Qed.

Lemma acked_all bus msgs :
  forall start,
    (forall i, (start <= i)%nat -> bus i = 0) ->
    acked bus start msgs = msgs.
Proof.
  induction msgs as [|m msgs IH]; intros start Hok; [reflexivity|].
  cbn [acked]. rewrite (Hok start) by lia. cbn. f_equal.
  apply IH. intros i Hi. apply Hok. lia.
Qed.

Lemma acked_none bus msg (k : nat) :
  forall start,
    (forall i, (i < k)%nat -> bus (start + i)%nat <> 0) ->
    acked bus start (repeat msg k) = [].
Proof.
  induction k as [|k IH]; intros start Hfail; [reflexivity|].
  cbn [repeat acked].
  pose proof (Hfail 0%nat ltac:(lia)) as H0. rewrite Nat.add_0_r in H0.
  apply Z.eqb_neq in H0. rewrite H0. apply IH.
  intros i Hi. replace (S start + i)%nat with (start + S i)%nat by lia.
  apply Hfail. lia.
Qed.

Section Recovery.

Variable FLAGS : Z.
Variable RETRY : positive.

Lemma write_regs_skipped regs :
  forall rc stack bus log,
    rc <> 0 -> write_regs FLAGS RETRY regs rc stack bus log = (rc, log).
Proof.
  induction regs as [|[[regaddr data] size] regs IH];
    intros rc stack bus log Hrc; cbn [write_regs]; [reflexivity|].
  apply Z.eqb_neq in Hrc. rewrite Hrc. apply IH. apply Z.eqb_neq. exact Hrc.
Qed.

Lemma write_regs_accepted regs :
  Forall int_size_ok regs ->
  forall stack bus log,
    length stack = 10%nat ->
    (forall i, (length log <= i)%nat -> bus i = 0) ->
    write_regs FLAGS RETRY regs 0 stack bus log =
    (0, log ++ map (int_msg FLAGS) regs).
Proof.
  induction 1 as [|[[regaddr data] size] regs Hr Hregs IH];
    intros stack bus log Hlen Hok; cbn [write_regs map].
  - rewrite app_nil_r. reflexivity.
  - cbn [Z.eqb].
    rewrite bridge_i2c_write_int_sized by assumption.
    rewrite <- (int_msg_eq FLAGS) by exact Hr.
    rewrite i2c_write_retry_accepted by (apply Hok; lia).
    rewrite IH.
    + rewrite <- app_assoc. reflexivity.
    + exact Hlen.
    + intros i Hi. rewrite length_app in Hi. cbn [length] in Hi.
      apply Hok. lia.
Qed.

Lemma edid_upload_accepted (n : nat) :
  forall rest offset rc stack bus log,
    length rest = (8 * S n)%nat ->
    length stack = 10%nat ->
    0 <= offset ->
    0x8C00 + offset + 8 * Z.of_nat (S n) <= 2 ^ 16 ->
    (forall i, (length log <= i)%nat -> bus i = 0) ->
    edid_upload FLAGS RETRY rest offset rc stack bus log =
    Some (0, log ++ edid_msgs FLAGS rest (0x8C00 + offset)).
Proof.
  induction n as [|n IH]; intros rest offset rc stack bus log Hrest Hlen
                                 Hoff Hfit Hok.
  - do 8 (destruct rest as [|? rest]; [discriminate|]).
    destruct rest; [|discriminate].
    cbn [edid_upload]. rewrite Z.mod_small by lia.
    rewrite bridge_i2c_write_raw_sized
      by (try assumption; cbn [length]; lia).
    rewrite i2c_write_retry_accepted by (apply Hok; lia).
    cbn [Z.eqb edid_upload edid_msgs]. reflexivity.
  - replace (8 * S (S n))%nat
      with (S (S (S (S (S (S (S (S (8 * S n)))))))))
      in Hrest by lia.
    do 8 (destruct rest as [|? rest]; [discriminate|]).
    assert (Hrest' : length rest = (8 * S n)%nat)
      by (cbn [length] in Hrest; lia).
    cbn [edid_upload]. rewrite Z.mod_small by lia.
    rewrite bridge_i2c_write_raw_sized
      by (try assumption; cbn [length]; lia).
    rewrite i2c_write_retry_accepted by (apply Hok; lia).
    cbn [Z.eqb].
    rewrite (IH rest (offset + 8) 0 stack bus) ; try assumption; try lia.
    + cbn [edid_msgs]. rewrite <- app_assoc. cbn [app].
      replace (35840 + (offset + 8)) with (35840 + offset + 8) by lia.
      reflexivity.
    + intros i Hi. rewrite length_app in Hi. cbn [length] in Hi.
      apply Hok. lia.
Qed.

End Recovery.


Lemma edid_upload_tables_accepted config flags retry rc stack bus log :
  length stack = 10%nat ->
  (forall i, (length log <= i)%nat -> bus i = 0) ->
  edid_upload flags retry (edid config) 0 rc stack bus log =
  Some (0, log ++ edid_msgs flags (edid config) 0x8C00).
Proof.
  intros Hlen Hok.
  pose proof (edid_tables_length config) as Htab.
  destruct config.
  - apply (edid_upload_accepted flags retry 15 (edid true) 0 rc stack bus
             log Htab Hlen (Z.le_refl 0));
      [vm_compute; discriminate | exact Hok].
  - apply (edid_upload_accepted flags retry 33 (edid false) 0 rc stack bus
             log Htab Hlen (Z.le_refl 0));
      [vm_compute; discriminate | exact Hok].
Qed.


Lemma write_regs_head_fails flags retry regaddr data size rest stack bus log :
  int_size_ok (regaddr, data, size) ->
  length stack = 10%nat ->
  (forall i, (i < Pos.to_nat retry)%nat -> bus (length log + i)%nat <> 0) ->
  exists rc1, rc1 <> 0 /\
    write_regs flags retry ((regaddr, data, size) :: rest) 0 stack bus log =
    (rc1, log ++ repeat (int_msg flags (regaddr, data, size))
                        (Pos.to_nat retry)).
Proof.
  intros Hsize Hlen Hbad.
  pose proof (Pos2Nat.is_pos retry) as Hpos.
  cbn [write_regs Z.eqb].
  rewrite bridge_i2c_write_int_sized by assumption.
  rewrite <- (int_msg_eq flags) by exact Hsize.
  rewrite i2c_write_retry_all_fail by (intros i Hi; apply Hbad; lia).
  replace (S (Pos.to_nat retry - 1)) with (Pos.to_nat retry) by lia.
  exists (bus (length log + (Pos.to_nat retry - 1))%nat).
  split; [apply Hbad; lia|].
  apply write_regs_skipped. apply Hbad. lia.
Qed.

Lemma bridge_regs_before_edid_head :
  bridge_regs_before_edid =
  (0x0004, 0x0004, 2) :: tl bridge_regs_before_edid.
Proof. reflexivity. Qed.

(** X21.  A failure at the start of bridge_init_thread goes unnoticed.
    When the bus refuses the first RETRY transfers and accepts every
    later one, the first register write (0x0004) fails and the other 46
    writes before the EDID loop are skipped; the loop then runs all the
    same and sets rc to 0, so the EDID table and the 27 later registers
    are written and the thread ends with rc = 0, although none of the
    first 47 registers was written. *)
Theorem bridge_init_thread_forgets_early_failure :
  forall (config : bool) (flags : Z) (retry : positive)
         (stack : list Z) (bus : nat -> Z) (c : cam_world),
    length stack = 10%nat ->
    (forall i, (i < Pos.to_nat retry)%nat ->
               bus (length (i2c_log c) + i)%nat <> 0) ->
    (forall i, (Pos.to_nat retry <= i)%nat ->
               bus (length (i2c_log c) + i)%nat = 0) ->
    exists (c' : cam_world) (new : list i2c_msg_s),
      bridge_init_thread flags retry config stack bus c = Some (0, c') /\
      i2c_log c' = i2c_log c ++ new /\
      new = repeat (int_msg flags (0x0004, 0x0004, 2)) (Pos.to_nat retry)
              ++ edid_msgs flags (edid config) 0x8C00
              ++ map (int_msg flags) bridge_regs_after_edid /\
      acked bus (length (i2c_log c)) new =
        edid_msgs flags (edid config) 0x8C00
          ++ map (int_msg flags) bridge_regs_after_edid.
Proof.
  intros config flags retry stack bus c Hlen Hbad Hgood.
  pose proof (Pos2Nat.is_pos retry) as Hpos.
  destruct bridge_regs_sizes_ok as [_ Hpost].
  set (msg0 := int_msg flags (0x0004, 0x0004, 2)).
  set (log1 := i2c_log c ++ repeat msg0 (Pos.to_nat retry)).
  assert (Hgood1 : forall i, (length log1 <= i)%nat -> bus i = 0).
  { intros i Hi. unfold log1 in Hi.
    rewrite length_app, repeat_length in Hi.
    replace i with (length (i2c_log c) + (i - length (i2c_log c)))%nat
      by lia.
    apply Hgood. lia. }
  assert (H1 : exists rc1, rc1 <> 0 /\
             write_regs flags retry bridge_regs_before_edid 0 stack bus
                        (i2c_log c) = (rc1, log1)).
  { rewrite bridge_regs_before_edid_head.
    apply write_regs_head_fails; [right; left; reflexivity | | ]; assumption. }
  destruct H1 as (rc1 & Hrc1 & Hw1).
  assert (H2 : edid_upload flags retry (edid config) 0 rc1 stack bus log1 =
               Some (0, log1 ++ edid_msgs flags (edid config) 0x8C00)).
  { apply edid_upload_tables_accepted; assumption. }
  unfold bridge_init_thread.
  cbn [cam_gpio_direction_out s_data gpio_calls i2c_log].
  rewrite Hw1, H2.
  rewrite (write_regs_accepted flags retry _ Hpost) by
    (try assumption; intros i Hi; apply Hgood1;
     rewrite length_app in Hi; lia).
  eexists. eexists. split; [reflexivity|].
  cbn [cam_set_i2c_log i2c_log]. unfold log1.
  split; [rewrite <- !app_assoc; reflexivity|]. split; [reflexivity|].
  rewrite acked_app, acked_none by exact Hbad.
  cbn [app]. rewrite repeat_length.
  apply acked_all. intros i Hi.
  replace i with (length (i2c_log c) + (i - length (i2c_log c)))%nat by lia.
  apply Hgood. lia.
Qed.

Lemma bridge_init_thread_forgets_early_failure_witness :
  exists (c' : cam_world) (new : list i2c_msg_s),
    bridge_init_thread 0 3 true (repeat 0 10) (bus_fails_first 3) cam_reset
      = Some (0, c') /\
    i2c_log c' = i2c_log cam_reset ++ new /\
    new = repeat (int_msg 0 (0x0004, 0x0004, 2)) (Pos.to_nat 3)
            ++ edid_msgs 0 (edid true) 0x8C00
            ++ map (int_msg 0) bridge_regs_after_edid /\
    acked (bus_fails_first 3) (length (i2c_log cam_reset)) new =
      edid_msgs 0 (edid true) 0x8C00
        ++ map (int_msg 0) bridge_regs_after_edid.
Proof.
  apply (bridge_init_thread_forgets_early_failure true 0 3 (repeat 0 10)
           (bus_fails_first 3) cam_reset).
  - reflexivity.
  - intros i Hi. change (Pos.to_nat 3) with 3%nat in Hi.
    unfold bus_fails_first. cbn [cam_reset i2c_log length Nat.add].
    destruct (Nat.ltb_spec i 3); [discriminate | lia].
  - intros i Hi. change (Pos.to_nat 3) with 3%nat in Hi.
    unfold bus_fails_first. cbn [cam_reset i2c_log length Nat.add].
    destruct (Nat.ltb_spec i 3); [lia | reflexivity].
Defined.

(** ** _mhb_camera_init *)

(** The result of _mhb_camera_init, case by case. *)
Lemma mhb_camera_init_eq (dev : String.string -> option Z)
    (i2c_ok thread_ok : bool) (c : cam_world) :
  _mhb_camera_init dev i2c_ok thread_ok c =
  match dev name_rst_n, dev name_led_en, dev name_spi_sel with
  | Some r, Some l, Some s =>
      (if i2c_ok && thread_ok then 0 else -1,
       mk_cam (mk_dev_private (r mod 2 ^ 8) (l mod 2 ^ 8) (s mod 2 ^ 8)
                              i2c_ok)
              (gpio_calls c ++ [(s mod 2 ^ 8, 0); (r mod 2 ^ 8, 0);
                                (l mod 2 ^ 8, 0)])
              (i2c_log c) true true true
              (if i2c_ok && thread_ok then true else init_thread_started c))
  | Some r, Some l, None =>
      (- ENODEV,
       mk_cam (mk_dev_private (r mod 2 ^ 8) (l mod 2 ^ 8) 0 false)
              (gpio_calls c) (i2c_log c) (format_db_registered c)
              (control_db_registered c) (metadata_task_ready c)
              (init_thread_started c))
  | Some r, None, _ =>
      (- ENODEV,
       mk_cam (mk_dev_private (r mod 2 ^ 8) 0 0 false)
              (gpio_calls c) (i2c_log c) (format_db_registered c)
              (control_db_registered c) (metadata_task_ready c)
              (init_thread_started c))
  | None, _, _ =>
      (- ENODEV,
       mk_cam (mk_dev_private 0 0 0 false)
              (gpio_calls c) (i2c_log c) (format_db_registered c)
              (control_db_registered c) (metadata_task_ready c)
              (init_thread_started c))
  end.
Proof.
  cbv beta iota zeta delta
    [_mhb_camera_init cam_gpio_direction_out s_data gpio_calls i2c_log
     format_db_registered control_db_registered metadata_task_ready
     init_thread_started rst_n led_en spi_sel
     name_rst_n name_led_en name_spi_sel].
  destruct (dev _) as [rst|]; [|reflexivity].
  destruct (dev _) as [led|]; [|reflexivity].
  destruct (dev _) as [sel|]; [|reflexivity].
  rewrite <- !app_assoc.
  destruct i2c_ok, thread_ok; reflexivity.
Qed.

(** X22.  _mhb_camera_init returns -ENODEV exactly when the device lacks
    one of the GPIO resources rst_n, led_en and spi_sel, and then it has
    driven no line, registered nothing and started no thread.  With the
    three resources it drives spi_sel, rst_n and led_en low, in this
    order, each line number cut to 8 bits, and registers the two
    databases; it returns 0 and has started the init thread exactly when
    up_i2cinitialize and pthread_create also succeed, and -1 otherwise.
    The I2C bus is not used by the call itself. *)
Theorem mhb_camera_init_results :
  forall (dev : String.string -> option Z) (i2c_ok thread_ok : bool)
         (c : cam_world),
    let r := _mhb_camera_init dev i2c_ok thread_ok c in
    (fst r = - ENODEV <-> ~ has_gpio_resources dev) /\
    (fst r = - ENODEV ->
     gpio_calls (snd r) = gpio_calls c /\
     format_db_registered (snd r) = format_db_registered c /\
     control_db_registered (snd r) = control_db_registered c /\
     init_thread_started (snd r) = init_thread_started c) /\
    (fst r = 0 <->
     has_gpio_resources dev /\ i2c_ok = true /\ thread_ok = true) /\
    (fst r = 0 \/ fst r = -1 \/ fst r = - ENODEV) /\
    (fst r = 0 -> init_thread_started (snd r) = true) /\
    (fst r = -1 -> init_thread_started (snd r) = init_thread_started c) /\
    i2c_log (snd r) = i2c_log c /\
    (forall rst led sel,
       dev name_rst_n = Some rst -> dev name_led_en = Some led ->
       dev name_spi_sel = Some sel ->
       gpio_calls (snd r) =
         gpio_calls c ++ [(sel mod 2 ^ 8, 0); (rst mod 2 ^ 8, 0);
                          (led mod 2 ^ 8, 0)] /\
       s_data (snd r) =
         mk_dev_private (rst mod 2 ^ 8) (led mod 2 ^ 8) (sel mod 2 ^ 8)
                        i2c_ok /\
       format_db_registered (snd r) = true /\
       control_db_registered (snd r) = true).
Proof.
  intros dev i2c_ok thread_ok c r. unfold r.
  rewrite mhb_camera_init_eq.
  change (has_gpio_resources dev) with
    (dev name_rst_n <> None /\ dev name_led_en <> None /\
     dev name_spi_sel <> None).
  assert (HE : - ENODEV <> 0 /\ - ENODEV <> -1) by (split; discriminate).
  destruct HE as [HE0 HE1].
  generalize dependent (- ENODEV). intros e HE0 HE1.
  destruct (dev name_rst_n) as [rst|], (dev name_led_en) as [led|],
           (dev name_spi_sel) as [sel|], i2c_ok, thread_ok;
    cbn [andb fst snd s_data gpio_calls i2c_log
         format_db_registered control_db_registered metadata_task_ready
         init_thread_started];
    repeat (split || intro);
    repeat match goal with H : _ /\ _ |- _ => destruct H end;
    try congruence; try tauto; auto;
    match goal with H : ~ _ |- _ =>
      exfalso; apply H; repeat split; discriminate
    end.
Qed.

Lemma mhb_camera_init_results_witness :
  fst (_mhb_camera_init sample_dev true true cam_reset) = 0 /\
  gpio_calls (snd (_mhb_camera_init sample_dev true true cam_reset)) =
    [(7, 0); (5, 0); (4, 0)] /\
  fst (_mhb_camera_init sample_dev_no_led true true cam_reset) = - ENODEV /\
  gpio_calls (snd (_mhb_camera_init sample_dev_no_led true true cam_reset))
    = [].
Proof.
  pose proof (mhb_camera_init_results sample_dev true true cam_reset)
    as (_ & _ & H0 & _ & _ & _ & _ & Hg).
  pose proof (mhb_camera_init_results sample_dev_no_led true true cam_reset)
    as (He & Hn & _).
  split.
  - apply H0. repeat split; try reflexivity; discriminate.
  - split.
    + destruct (Hg 5 260 7 eq_refl eq_refl eq_refl) as [H _]. exact H.
    + assert (E : fst (_mhb_camera_init sample_dev_no_led true true
                         cam_reset) = - ENODEV).
      { apply He. intros (_ & H & _). apply H. reflexivity. }
      split; [exact E|]. destruct (Hn E) as [H _]. exact H.
Defined.

(** ** Streaming *)

(** X23.  _mhb_camera_stream_enable and _mhb_camera_stream_disable each
    hand one 4-byte message for register 0x0004 of the bridge to the bus,
    repeated while the bus refuses it, up to the retry count: the bytes
    00 04 D7 0C to enable and 00 04 04 00 to disable.  Each returns 0
    exactly when the bus has acknowledged its message, so after an enable
    and a disable the bridge has got, in order, the messages of the calls
    that returned 0 and nothing else. *)
Theorem stream_enable_disable_messages :
  forall (flags : Z) (retry : positive) (stack : list Z)
         (bus : nat -> Z) (log : list i2c_msg_s),
    length stack = 10%nat ->
    let m_on := mk_i2c_msg DEV_I2C_ADDR flags [0x00; 0x04; 0xD7; 0x0C] 4 in
    let m_off := mk_i2c_msg DEV_I2C_ADDR flags [0x00; 0x04; 0x04; 0x00] 4 in
    let on := _mhb_camera_stream_enable flags retry stack bus log in
    let off := _mhb_camera_stream_disable flags retry stack bus (snd on) in
    exists k1 k2 : nat,
      (1 <= k1 <= Pos.to_nat retry)%nat /\
      (1 <= k2 <= Pos.to_nat retry)%nat /\
      snd on = log ++ repeat m_on k1 /\
      snd off = snd on ++ repeat m_off k2 /\
      (fst on <> 0 -> k1 = Pos.to_nat retry) /\
      (fst off <> 0 -> k2 = Pos.to_nat retry) /\
      acked bus (length log) (repeat m_on k1 ++ repeat m_off k2) =
        (if fst on =? 0 then [m_on] else [])
          ++ (if fst off =? 0 then [m_off] else []).
Proof.
  intros flags retry stack bus log Hlen m_on m_off on off.
  pose proof (Pos2Nat.is_pos retry) as Hpos.
  unfold off, _mhb_camera_stream_disable.
  rewrite bridge_i2c_write_int_sized
    by (try assumption; right; left; reflexivity).
  unfold on, _mhb_camera_stream_enable.
  rewrite bridge_i2c_write_int_sized
    by (try assumption; right; left; reflexivity).
  change (mk_i2c_msg DEV_I2C_ADDR flags
            (_ ++ le_bytes (Z.to_nat 2) 0x0CD7) (2 + 2)) with m_on.
  change (mk_i2c_msg DEV_I2C_ADDR flags
            (_ ++ le_bytes (Z.to_nat 2) 0x0004) (2 + 2)) with m_off.
  destruct (i2c_write_retry_spec (Pos.to_nat retry - 1) bus m_on log)
    as (k1 & Hk1 & Hlog1 & Hret1 & Hfail1 & Hlast1).
  destruct (i2c_write_retry_spec (Pos.to_nat retry - 1) bus m_off
              (snd (i2c_write_retry (Pos.to_nat retry - 1) bus log m_on)))
    as (k2 & Hk2 & Hlog2 & Hret2 & Hfail2 & Hlast2).
  exists k1, k2.
  split; [lia|]. split; [lia|]. split; [exact Hlog1|].
  split; [exact Hlog2|].
  split; [intros H; rewrite (Hlast1 H); lia|].
  split; [intros H; rewrite (Hlast2 H); lia|].
  rewrite acked_app, repeat_length. f_equal.
  - rewrite Hret1. apply acked_retries; [lia | exact Hfail1].
  - rewrite Hret2.
    rewrite Hlog1, length_app, repeat_length in Hfail2 |- *.
    apply acked_retries; [lia | exact Hfail2].
Qed.

Lemma stream_enable_disable_messages_witness :
  exists k1 k2 : nat,
    (1 <= k1 <= Pos.to_nat 3)%nat /\
    (1 <= k2 <= Pos.to_nat 3)%nat /\
    snd (_mhb_camera_stream_enable 0 3 (repeat 0xAA 10)
           (bus_fails_first 1) []) =
      [] ++ repeat (mk_i2c_msg DEV_I2C_ADDR 0 [0x00; 0x04; 0xD7; 0x0C] 4) k1 /\
    snd (_mhb_camera_stream_disable 0 3 (repeat 0xAA 10) (bus_fails_first 1)
           (snd (_mhb_camera_stream_enable 0 3 (repeat 0xAA 10)
                   (bus_fails_first 1) []))) =
      snd (_mhb_camera_stream_enable 0 3 (repeat 0xAA 10)
             (bus_fails_first 1) [])
        ++ repeat (mk_i2c_msg DEV_I2C_ADDR 0 [0x00; 0x04; 0x04; 0x00] 4) k2 /\
    (fst (_mhb_camera_stream_enable 0 3 (repeat 0xAA 10)
            (bus_fails_first 1) []) <> 0 -> k1 = Pos.to_nat 3) /\
    (fst (_mhb_camera_stream_disable 0 3 (repeat 0xAA 10) (bus_fails_first 1)
            (snd (_mhb_camera_stream_enable 0 3 (repeat 0xAA 10)
                    (bus_fails_first 1) []))) <> 0 -> k2 = Pos.to_nat 3) /\
    acked (bus_fails_first 1) (length (@nil i2c_msg_s))
      (repeat (mk_i2c_msg DEV_I2C_ADDR 0 [0x00; 0x04; 0xD7; 0x0C] 4) k1
         ++ repeat (mk_i2c_msg DEV_I2C_ADDR 0 [0x00; 0x04; 0x04; 0x00] 4) k2) =
      (if fst (_mhb_camera_stream_enable 0 3 (repeat 0xAA 10)
                 (bus_fails_first 1) []) =? 0
       then [mk_i2c_msg DEV_I2C_ADDR 0 [0x00; 0x04; 0xD7; 0x0C] 4] else [])
        ++ (if fst (_mhb_camera_stream_disable 0 3 (repeat 0xAA 10)
                      (bus_fails_first 1)
                      (snd (_mhb_camera_stream_enable 0 3 (repeat 0xAA 10)
                              (bus_fails_first 1) []))) =? 0
            then [mk_i2c_msg DEV_I2C_ADDR 0 [0x00; 0x04; 0x04; 0x00] 4]
            else []).
Proof.
  apply (stream_enable_disable_messages 0 3 (repeat 0xAA 10)
           (bus_fails_first 1) []).
  reflexivity.
Defined.
